(** * FairMind: room sessions, resolution requests and vote convergence

    A shallow embedding of the server side of FairMind
    (shared/schema.ts, server/storage.ts, server/middleware/auth.ts,
    server/services/aiClient.ts and server/routes.ts), followed by the
    properties of the room protocol that the specification states and by
    further properties of the code.

    Conventions of the embedding:
    - a table is the list of its rows in insertion order; a [select ... where]
      is a [filter], and [const [row] = await ...] is its [head]; an insert or
      update that breaks a constraint of schema.ts (primary key, unique,
      foreign key, length, integer range) throws;
    - a JavaScript [Map] is a [gmap]; [forEach] walks [map_to_list], so the
      order in which one broadcast reaches different sockets is the map's
      and not the order of insertion;
    - a [Date] is its number of milliseconds, in [Z];
    - a value that can be [null] or [undefined] is an [option]; the body of
      a request that a schema parses and the batch that the service answers
      hold values of JavaScript as they come, a [JSValue] each, and other
      values have the types the TypeScript declares for them;
    - a string is the bytes of its UTF-8 form, its [length] in JavaScript
      is [js_length], and a number of JavaScript is a rational;
    - an [async] function that can throw returns a [Res];
    - what the database, the two clocks and the text-generation service
      answer is given to a handler in an [Env], and what bcrypt and
      jsonwebtoken compute in an [Auth];
    - a handler is given twice: as one transition of the [World], which is
      the handler run from its start to its end with no other event in
      between ([handle], [step]), and as a [Task] that stops at each
      [await] ([task_of], [istep]), which is the handler when requests
      overlap.  A property stated of [step] or of a handler as a function
      holds of the server as long as no event comes in while another is being
      handled; the runs of [step] are among the runs of [istep]
      ([rtc_step_istep]). *)

From Stdlib Require Import ZArith QArith Qround.
From stdpp Require Import gmap strings list fin_maps sorting.

Local Open Scope string_scope.
Local Open Scope list_scope.
Local Open Scope Z_scope.

(** ** shared/schema.ts *)

Module User.
Record t := mk {
  id : string;
  name : string;
  age : Z;
  gender : string;
  email : string;
  passwordHash : option string;
  googleId : option string;
  resolutionsUsedToday : Z;
  lastResolutionReset : Z;
  createdAt : Z }.
End User.

Module Room.
Record t := mk {
  id : string;
  code : string;
  createdBy : string;
  participant1Id : option string;
  participant2Id : option string;
  status : string;
  resolvedAt : option Z;
  createdAt : Z }.
End Room.

Module Message.
Record t := mk {
  id : string;
  roomId : string;
  senderId : string;
  text : option string;
  transcript : option string;
  isVoice : bool;
  voiceUrl : option string;
  timestamp : Z }.
End Message.

Module Resolution.
Record t := mk {
  id : string;
  roomId : string;
  title : string;
  description : string;
  aiScore : Z;
  suggestedBest : bool;
  generatedAt : Z }.
End Resolution.

Module Vote.
Record t := mk {
  id : string;
  roomId : string;
  resolutionId : string;
  userId : string;
  timestamp : Z }.
End Vote.

(** [InsertRoom], [InsertMessage], [InsertResolution] and [InsertVote]: the
    row without the columns the database fills in. *)
Module InsertRoom.
Record t := mk {
  code : string;
  createdBy : string;
  participant1Id : option string;
  participant2Id : option string;
  status : option string }.
End InsertRoom.

Module InsertMessage.
Record t := mk {
  roomId : string;
  senderId : string;
  text : option string;
  transcript : option string;
  isVoice : option bool;
  voiceUrl : option string }.
End InsertMessage.

Module InsertResolution.
Record t := mk {
  roomId : string;
  title : string;
  description : string;
  aiScore : Q;
  suggestedBest : option bool }.
End InsertResolution.

Module InsertVote.
Record t := mk {
  roomId : string;
  resolutionId : string;
  userId : string }.
End InsertVote.

(** The tagged union of the real-time channel. *)
Inductive WSMessage :=
| join_room (roomId userId userName : string)
| leave_room (roomId userId : string)
| new_message (message : Message.t) (senderName : string)
| user_joined (userId userName : string)
| user_left (userId : string)
| resolutions_generated (resolutions : list Resolution.t)
| vote_cast (userId resolutionId : string)
| room_resolved (resolution : option Resolution.t).

(** ** Exceptions and results *)

(** What the database refuses: the constraints declared in schema.ts. *)
Inductive Violation :=
| unique_violation
| foreign_key_violation
| string_data_right_truncation
| numeric_value_out_of_range
| invalid_text_representation
| character_not_in_repertoire.

Inductive Exn :=
| Error (message : string)
| DatabaseError (violation : Violation)
| ZodError.

Inductive Res (A : Type) :=
| Ok (a : A)
| Throw (e : Exn).
Arguments Ok {A} a.
Arguments Throw {A} e.

(** ** JavaScript values

    A value as JSON.parse yields it, as far as the code tells values apart;
    [js_object] stands for the objects and the arrays.  A number is a
    rational: every number of JavaScript that JSON can denote is one. *)
Inductive JSValue :=
| js_undefined
| js_null
| js_boolean (b : bool)
| js_number (q : Q)
| js_string (s : string)
| js_object.

(** [v === 1] *)
Definition is_one (v : JSValue) : bool :=
  match v with
  | js_number q => Qeq_bool q 1
  | _ => false
  end.

(** Strings are held as the bytes of their UTF-8 form.  The [length] of a
    string in JavaScript, which zod's [min] and [max] compare, counts UTF-16
    code units: one for a character of up to three bytes, two for one of
    four; a continuation byte counts nothing. *)
Definition code_units (b : Ascii.ascii) : nat :=
  let n := Ascii.nat_of_ascii b in
  if (n <? 128)%nat then 1%nat
  else if (n <? 192)%nat then 0%nat
  else if (n <? 240)%nat then 1%nat
  else 2%nat.

Fixpoint js_length (s : string) : nat :=
  match s with
  | EmptyString => 0%nat
  | String b s => (code_units b + js_length s)%nat
  end.

(** JavaScript truthiness of a string that may be null: [!x] holds for
    [null], [undefined] and the empty string. *)
Definition truthy (s : string) : bool := bool_decide (s ≠ "").

Definition falsy (o : option string) : bool :=
  match o with
  | None => true
  | Some s => negb (truthy s)
  end.

(** [a || b] on strings that may be null. *)
Definition or_else (o : option string) (d : string) : string :=
  match o with
  | Some s => if truthy s then s else d
  | None => d
  end.

(** ** server/storage.ts: DbStorage over the five tables *)

Record Db := mkDb {
  users : list User.t;
  rooms : list Room.t;
  messages : list Message.t;
  resolutions : list Resolution.t;
  votes : list Vote.t }.

Definition has_id {A} (key : A → string) (table : list A) (k : string) : bool :=
  bool_decide (k ∈ key <$> table).

(** A nullable column that references another table. *)
Definition refers {A} (key : A → string) (table : list A) (o : option string) : bool :=
  match o with
  | None => true
  | Some k => has_id key table k
  end.

(** [integer] columns are 32-bit. *)
Definition int4 (z : Z) : bool := bool_decide (- 2147483648 ≤ z ≤ 2147483647).

Definition is_integer (q : Q) : bool := Qeq_bool q (inject_Z (Qfloor q)).

(** What an [integer] column makes of a number of JavaScript.  The driver
    sends [String(q)], which has a fraction or, from 1e21 on, an exponent,
    neither of which the column reads; an integer outside 32 bits is out of
    range. *)
Definition integer_column (q : Q) : Res Z :=
  if negb (is_integer q) || bool_decide (10 ^ 21 ≤ Z.abs (Qfloor q))
  then Throw (DatabaseError invalid_text_representation)
  else if negb (int4 (Qfloor q)) then Throw (DatabaseError numeric_value_out_of_range)
  else Ok (Qfloor q).

(** What a [text] or [varchar] column makes of a string: the database holds
    no NUL character. *)
Fixpoint has_nul (s : string) : bool :=
  match s with
  | EmptyString => false
  | String b s => bool_decide (b = Ascii.zero) || has_nul s
  end.

Definition text_column (s : string) : Res string :=
  if has_nul s then Throw (DatabaseError character_not_in_repertoire) else Ok s.

Definition nullable_text_column (o : option string) : Res (option string) :=
  match o with
  | Some s => if has_nul s then Throw (DatabaseError character_not_in_repertoire) else Ok o
  | None => Ok o
  end.

Definition refusal {A} (r : Res A) : option Exn :=
  match r with
  | Throw err => Some err
  | Ok _ => None
  end.

(** The parameters of a statement are read in their order, before a row is
    written: the first one that its column refuses fails the statement. *)
Definition first_refused (parameters : list (option Exn)) : option Exn :=
  head (omap (λ refused, refused) parameters).

Definition set_users (f : list User.t → list User.t) (d : Db) : Db :=
  mkDb (f (users d)) (rooms d) (messages d) (resolutions d) (votes d).
Definition set_rooms (f : list Room.t → list Room.t) (d : Db) : Db :=
  mkDb (users d) (f (rooms d)) (messages d) (resolutions d) (votes d).
Definition set_messages (f : list Message.t → list Message.t) (d : Db) : Db :=
  mkDb (users d) (rooms d) (f (messages d)) (resolutions d) (votes d).
Definition set_resolutions (f : list Resolution.t → list Resolution.t) (d : Db) : Db :=
  mkDb (users d) (rooms d) (messages d) (f (resolutions d)) (votes d).
Definition set_votes (f : list Vote.t → list Vote.t) (d : Db) : Db :=
  mkDb (users d) (rooms d) (messages d) (resolutions d) (f (votes d)).

(** Users *)

Definition getUserById (d : Db) (id : string) : option User.t :=
  head (filter (λ u, User.id u = id) (users d)).

(** Rooms *)

(** [uuid] is what [gen_random_uuid()] yields for the new row and [now] what
    [defaultNow()] does. *)
Definition createRoom (d : Db) (uuid : string) (now : Z) (insertRoom : InsertRoom.t)
  : Res (Room.t * Db) :=
  if has_id Room.id (rooms d) uuid then Throw (DatabaseError unique_violation)
  else if bool_decide (InsertRoom.code insertRoom ∈ Room.code <$> rooms d)
  then Throw (DatabaseError unique_violation)
  else if bool_decide (6 < String.length (InsertRoom.code insertRoom))%nat
  then Throw (DatabaseError string_data_right_truncation)
  else if negb (has_id User.id (users d) (InsertRoom.createdBy insertRoom)
                && refers User.id (users d) (InsertRoom.participant1Id insertRoom)
                && refers User.id (users d) (InsertRoom.participant2Id insertRoom))
  then Throw (DatabaseError foreign_key_violation)
  else
    let room :=
      Room.mk uuid (InsertRoom.code insertRoom) (InsertRoom.createdBy insertRoom)
        (InsertRoom.participant1Id insertRoom) (InsertRoom.participant2Id insertRoom)
        (default "active" (InsertRoom.status insertRoom)) None now in
    Ok (room, set_rooms (λ t, t ++ [room]) d).

Definition getRoomById (d : Db) (id : string) : option Room.t :=
  head (filter (λ r, Room.id r = id) (rooms d)).

Definition getRoomByCode (d : Db) (code : string) : option Room.t :=
  head (filter (λ r, Room.code r = code) (rooms d)).

Definition set_participant1Id (p : string) (r : Room.t) : Room.t :=
  Room.mk (Room.id r) (Room.code r) (Room.createdBy r) (Some p)
    (Room.participant2Id r) (Room.status r) (Room.resolvedAt r) (Room.createdAt r).

Definition set_participant2Id (p : string) (r : Room.t) : Room.t :=
  Room.mk (Room.id r) (Room.code r) (Room.createdBy r) (Room.participant1Id r)
    (Some p) (Room.status r) (Room.resolvedAt r) (Room.createdAt r).

Definition set_status (status : string) (resolvedAt : option Z) (r : Room.t) : Room.t :=
  Room.mk (Room.id r) (Room.code r) (Room.createdBy r) (Room.participant1Id r)
    (Room.participant2Id r) status
    (match resolvedAt with Some t => Some t | None => Room.resolvedAt r end)
    (Room.createdAt r).

(** [db.update(rooms).set(...).where(eq(rooms.id, roomId))] *)
Definition update_room (roomId : string) (f : Room.t → Room.t) (d : Db) : Db :=
  set_rooms (fmap (λ r, if decide (Room.id r = roomId) then f r else r)) d.

Definition updateRoomParticipant (d : Db) (roomId participantId : string) : Res Db :=
  match getRoomById d roomId with
  | None => Throw (Error "Room not found")
  | Some room =>
    if falsy (Room.participant1Id room) then
      if has_id User.id (users d) participantId
      then Ok (update_room roomId (set_participant1Id participantId) d)
      else Throw (DatabaseError foreign_key_violation)
    else if falsy (Room.participant2Id room)
            && bool_decide (Room.participant1Id room ≠ Some participantId) then
      if has_id User.id (users d) participantId
      then Ok (update_room roomId (set_participant2Id participantId) d)
      else Throw (DatabaseError foreign_key_violation)
    else Ok d
  end.

Definition updateRoomStatus (d : Db) (roomId status : string) (resolvedAt : option Z) : Db :=
  update_room roomId (set_status status resolvedAt) d.

(** [orderBy]: the order a listing is sorted in. *)
Definition desc_createdAt (a b : Room.t) : Prop := Room.createdAt b ≤ Room.createdAt a.
Definition asc_timestamp (a b : Message.t) : Prop := Message.timestamp a ≤ Message.timestamp b.
Definition desc_aiScore (a b : Resolution.t) : Prop := Resolution.aiScore b ≤ Resolution.aiScore a.

#[global] Instance desc_createdAt_dec : RelDecision desc_createdAt.
Proof. intros a b. unfold desc_createdAt. apply _. Defined.
#[global] Instance asc_timestamp_dec : RelDecision asc_timestamp.
Proof. intros a b. unfold asc_timestamp. apply _. Defined.
#[global] Instance desc_aiScore_dec : RelDecision desc_aiScore.
Proof. intros a b. unfold desc_aiScore. apply _. Defined.

(** [getUserRooms]: the rooms the user created, newest first. *)
Definition getUserRooms (d : Db) (userId : string) : list Room.t :=
  merge_sort desc_createdAt
    (filter (λ r, Room.createdBy r = userId) (rooms d)).

(** Messages *)

Definition message_parameters (m : InsertMessage.t) : list (option Exn) :=
  [ refusal (nullable_text_column (InsertMessage.text m));
    refusal (nullable_text_column (InsertMessage.transcript m));
    refusal (nullable_text_column (InsertMessage.voiceUrl m)) ].

Definition createMessage (d : Db) (uuid : string) (now : Z) (insertMessage : InsertMessage.t)
  : Res (Message.t * Db) :=
  match first_refused (message_parameters insertMessage) with
  | Some err => Throw err
  | None =>
    if has_id Message.id (messages d) uuid then Throw (DatabaseError unique_violation)
    else if negb (has_id Room.id (rooms d) (InsertMessage.roomId insertMessage)
                  && has_id User.id (users d) (InsertMessage.senderId insertMessage))
    then Throw (DatabaseError foreign_key_violation)
    else
      let message :=
        Message.mk uuid (InsertMessage.roomId insertMessage)
          (InsertMessage.senderId insertMessage) (InsertMessage.text insertMessage)
          (InsertMessage.transcript insertMessage)
          (default false (InsertMessage.isVoice insertMessage))
          (InsertMessage.voiceUrl insertMessage) now in
      Ok (message, set_messages (λ t, t ++ [message]) d)
  end.

Definition getRoomMessages (d : Db) (roomId : string) : list Message.t :=
  merge_sort asc_timestamp
    (filter (λ m, Message.roomId m = roomId) (messages d)).

(** Resolutions *)

Definition new_resolution (uuid : string) (now : Z) (r : InsertResolution.t) : Resolution.t :=
  Resolution.mk uuid (InsertResolution.roomId r) (InsertResolution.title r)
    (InsertResolution.description r) (Qfloor (InsertResolution.aiScore r))
    (default false (InsertResolution.suggestedBest r)) now.

Definition resolution_parameters (r : InsertResolution.t) : list (option Exn) :=
  [ refusal (text_column (InsertResolution.title r));
    refusal (text_column (InsertResolution.description r));
    refusal (integer_column (InsertResolution.aiScore r)) ].

(** One [insert ... values (...), (...) returning *]: the [i]-th row gets
    [uuid i]; drizzle refuses an empty list of values, the database refuses
    a text with a NUL and a score it cannot read as a 32-bit integer before
    it inserts a row, and a refused row leaves the table as it was. *)
Definition createResolutions (d : Db) (uuid : nat → string) (now : Z)
    (resolutionList : list InsertResolution.t) : Res (list Resolution.t * Db) :=
  let created := imap (λ i r, new_resolution (uuid i) now r) resolutionList in
  if bool_decide (resolutionList = []) then
    Throw (Error "values() must be called with at least one value")
  else
    match first_refused (resolutionList ≫= resolution_parameters) with
    | Some err => Throw err
    | None =>
      if negb (bool_decide (NoDup (Resolution.id <$> created)))
         || existsb (λ r, has_id Resolution.id (resolutions d) (Resolution.id r)) created
      then Throw (DatabaseError unique_violation)
      else if negb (forallb (λ r, has_id Room.id (rooms d) (InsertResolution.roomId r))
                      resolutionList)
      then Throw (DatabaseError foreign_key_violation)
      else Ok (created, set_resolutions (λ t, t ++ created) d)
    end.

Definition getRoomResolutions (d : Db) (roomId : string) : list Resolution.t :=
  merge_sort desc_aiScore
    (filter (λ r, Resolution.roomId r = roomId) (resolutions d)).

Definition getResolutionById (d : Db) (id : string) : option Resolution.t :=
  head (filter (λ r, Resolution.id r = id) (resolutions d)).

(** Votes *)

Definition createVote (d : Db) (uuid : string) (now : Z) (insertVote : InsertVote.t)
  : Res (Vote.t * Db) :=
  if has_id Vote.id (votes d) uuid then Throw (DatabaseError unique_violation)
  else if negb (has_id Room.id (rooms d) (InsertVote.roomId insertVote)
                && has_id Resolution.id (resolutions d) (InsertVote.resolutionId insertVote)
                && has_id User.id (users d) (InsertVote.userId insertVote))
  then Throw (DatabaseError foreign_key_violation)
  else
    let vote :=
      Vote.mk uuid (InsertVote.roomId insertVote) (InsertVote.resolutionId insertVote)
        (InsertVote.userId insertVote) now in
    Ok (vote, set_votes (λ t, t ++ [vote]) d).

Definition getRoomVotes (d : Db) (roomId : string) : list Vote.t :=
  filter (λ v, Vote.roomId v = roomId) (votes d).

Definition getUserVote (d : Db) (roomId userId : string) : option Vote.t :=
  head (filter (λ v, Vote.roomId v = roomId ∧ Vote.userId v = userId) (votes d)).

(** ** server/middleware/auth.ts: the daily cap on resolution requests *)

Record Limit := mkLimit { count : Z; resetDate : Z }.

Record LimitCheck := mkLimitCheck { allowed : bool; remaining : Z }.

(** [today] is local midnight of the day the check runs.  The check resets a
    stale counter, so it returns the counters along with its answer. *)
Definition checkResolutionLimit (resolutionCounts : gmap string Limit) (today : Z)
    (userId : string) : LimitCheck * gmap string Limit :=
  match resolutionCounts !! userId with
  | Some userLimit =>
    if bool_decide (resetDate userLimit < today) then
      (mkLimitCheck true 3, <[userId := mkLimit 0 today]> resolutionCounts)
    else if bool_decide (3 ≤ count userLimit) then
      (mkLimitCheck false 0, resolutionCounts)
    else (mkLimitCheck true (3 - count userLimit), resolutionCounts)
  | None => (mkLimitCheck true 3, <[userId := mkLimit 0 today]> resolutionCounts)
  end.

Definition incrementResolutionCount (resolutionCounts : gmap string Limit) (now : Z)
    (userId : string) : gmap string Limit :=
  match resolutionCounts !! userId with
  | Some userLimit =>
    <[userId := mkLimit (count userLimit + 1) (resetDate userLimit)]> resolutionCounts
  | None => <[userId := mkLimit 1 now]> resolutionCounts
  end.

(** ** server/services/aiClient.ts *)

(** A candidate as [generateResolutions] declares it, its score any number;
    the flag, which the route only compares with 1, is any value. *)
Module AIResolution.
Record t := mk {
  id : string;
  title : string;
  description : string;
  ai_score : Q;
  suggested_best : JSValue }.
End AIResolution.

Module AIResolutionResponse.
Record t := mk { resolutions : list AIResolution.t }.
End AIResolutionResponse.

Record TextGenerationParameters := mkParameters {
  max_new_tokens : Z;
  temperature : Q;
  top_p : option Q;
  return_full_text : option bool }.

Record TextGenerationArgs := mkArgs {
  model : string;
  inputs : string;
  parameters : TextGenerationParameters }.

(** A generated text is what [match(/\{[\s\S]*\}/)] and [JSON.parse], both
    the runtime's, make of it: no braces to match, a match that is not JSON,
    or a match that parses to a list of candidates, read at the type
    [generateResolutions] declares for its result.  A match that parses to
    an object of another shape is not represented. *)
Inductive GeneratedText :=
| no_match
| not_json
| parses (parsed : AIResolutionResponse.t).

(** One call of [hf.textGeneration]: the promise rejects, as does for this
    code whatever else throws before the match, or it resolves. *)
Inductive TextGeneration :=
| rejects (e : Exn)
| resolves (generated_text : GeneratedText).

Definition HfInference := TextGenerationArgs → TextGeneration.

Definition quoted (s : string) : string :=
  String (Ascii.ascii_of_nat 34) (s +:+ String (Ascii.ascii_of_nat 34) "").

Definition newline : string := String (Ascii.ascii_of_nat 10) "".

Definition join (sep : string) (l : list string) : string := String.concat sep l.

(** One object of the JSON sample in the prompt. *)
Definition prompt_sample (id ai_score suggested_best last : string) : list string :=
  [ "    {";
    "      " +:+ quoted "id" +:+ ": " +:+ quoted id +:+ ",";
    "      " +:+ quoted "title" +:+ ": " +:+ quoted "Short title" +:+ ",";
    "      " +:+ quoted "description" +:+ ": "
      +:+ quoted "Detailed description of the resolution" +:+ ",";
    "      " +:+ quoted "ai_score" +:+ ": " +:+ ai_score +:+ ",";
    "      " +:+ quoted "suggested_best" +:+ ": " +:+ suggested_best;
    "    }" +:+ last ].

Definition buildResolutionPrompt (conversation : string) : string :=
  join newline
    ([ "You are a professional mediator analyzing a dispute between two people. Based on their conversation, generate EXACTLY 3 resolution options.";
       "";
       "Conversation:";
       conversation;
       "";
       "Generate a JSON response with exactly this structure (no extra text, just valid JSON):";
       "{";
       "  " +:+ quoted "resolutions" +:+ ": [" ]
     ++ prompt_sample "1" "85" "1" ","
     ++ prompt_sample "2" "75" "0" ","
     ++ prompt_sample "3" "65" "0" ""
     ++ [ "  ]";
          "}";
          "";
          "Guidelines:";
          "- ai_score: confidence level 0-100";
          "- suggested_best: 1 for the best option, 0 for others";
          "- Make resolutions balanced, fair, and actionable";
          "- Consider both perspectives equally";
          "";
          "Respond with ONLY valid JSON, no additional text:" ]).

Definition generateFallbackResolutions : AIResolutionResponse.t :=
  AIResolutionResponse.mk
    [ AIResolution.mk "1" "Compromise Solution"
        "Both parties meet in the middle by making equal concessions to reach a balanced agreement that addresses core concerns."
        80 (js_number 1);
      AIResolution.mk "2" "Time-Based Trial"
        "Implement one approach for a defined trial period, then evaluate and adjust based on results before committing long-term."
        70 (js_number 0);
      AIResolution.mk "3" "Alternative Perspective"
        "Explore a third option that neither party initially considered, potentially solving the underlying issue differently."
        65 (js_number 0) ].

Definition first_request (prompt : string) : TextGenerationArgs :=
  mkArgs "mistralai/Mistral-7B-Instruct-v0.2" prompt
    (mkParameters 800 (7 # 10) (Some (95 # 100)) (Some false)).

Definition retry_request (prompt : string) : TextGenerationArgs :=
  mkArgs "mistralai/Mistral-7B-Instruct-v0.2" prompt
    (mkParameters 600 (5 # 10) None None).

(** The result comes with the requests made to the service, in order.
    [hf] is [None] when no API key is configured. *)
Definition generateResolutions (hf : option HfInference) (messages : list string)
  : Res AIResolutionResponse.t * list TextGenerationArgs :=
  match hf with
  | None => (Throw (Error "Hugging Face API key not configured"), [])
  | Some textGeneration =>
    let conversationText := join newline messages in
    let prompt := buildResolutionPrompt conversationText in
    match textGeneration (first_request prompt) with
    | resolves (parses parsed) => (Ok parsed, [first_request prompt])
    | resolves no_match => (Ok generateFallbackResolutions, [first_request prompt])
    | resolves not_json | rejects _ =>
      (* catch (error): retry once *)
      let calls := [first_request prompt; retry_request prompt] in
      match textGeneration (retry_request prompt) with
      | resolves (parses parsed) => (Ok parsed, calls)
      | resolves no_match | resolves not_json | rejects _ =>
        (Ok generateFallbackResolutions, calls)
      end
    end
  end.

(** ** server/routes.ts: the connection registry and the real-time channel *)

(** A socket is a handle; its [readyState] lives in the [World], so that the
    registry entries and the connection that share a socket see one state. *)
Definition WebSocket := nat.

Inductive ReadyState := CONNECTING | OPEN | CLOSING | CLOSED.

#[global] Instance ReadyState_eq_dec : EqDecision ReadyState.
Proof. solve_decision. Defined.

Record Client := mkClient { ws : WebSocket; userName : string }.

(** What the server writes on a socket: an event of the channel, or the
    [{type: 'error', message}] object of a refused join. *)
Inductive Frame :=
| event (m : WSMessage)
| error (message : string).

Record World := mkWorld {
  db : Db;
  roomConnections : gmap string (gmap string Client);
  resolutionCounts : gmap string Limit;
  readyState : WebSocket → ReadyState;
  (** every [ws.send] so far, oldest first *)
  wire : list (WebSocket * Frame);
  (** every request made to the text-generation service so far *)
  hfCalls : list TextGenerationArgs }.

Definition set_db (f : Db → Db) (w : World) : World :=
  mkWorld (f (db w)) (roomConnections w) (resolutionCounts w) (readyState w) (wire w) (hfCalls w).
Definition set_roomConnections
    (f : gmap string (gmap string Client) → gmap string (gmap string Client)) (w : World) : World :=
  mkWorld (db w) (f (roomConnections w)) (resolutionCounts w) (readyState w) (wire w) (hfCalls w).
Definition set_resolutionCounts (f : gmap string Limit → gmap string Limit) (w : World) : World :=
  mkWorld (db w) (roomConnections w) (f (resolutionCounts w)) (readyState w) (wire w) (hfCalls w).
Definition set_readyState (f : (WebSocket → ReadyState) → WebSocket → ReadyState) (w : World)
  : World :=
  mkWorld (db w) (roomConnections w) (resolutionCounts w) (f (readyState w)) (wire w) (hfCalls w).
Definition set_wire (f : list (WebSocket * Frame) → list (WebSocket * Frame)) (w : World) : World :=
  mkWorld (db w) (roomConnections w) (resolutionCounts w) (readyState w) (f (wire w)) (hfCalls w).
Definition set_hfCalls (f : list TextGenerationArgs → list TextGenerationArgs) (w : World) : World :=
  mkWorld (db w) (roomConnections w) (resolutionCounts w) (readyState w) (wire w) (f (hfCalls w)).

(** [ws.send(JSON.stringify(frame))] *)
Definition send (s : WebSocket) (frame : Frame) (w : World) : World :=
  set_wire (λ l, l ++ [(s, frame)]) w.

(** [ws.close()] starts the closing handshake; the [close] event comes later. *)
Definition close (s : WebSocket) (w : World) : World :=
  set_readyState
    (λ state x,
       if decide (x = s) then
         match state s with
         | CONNECTING | OPEN => CLOSING
         | CLOSING => CLOSING
         | CLOSED => CLOSED
         end
       else state x) w.

(** The sockets a [forEach] over the clients of a room writes to: the ones
    that are open, but for the excluded user's. *)
Definition reaches (w : World) (excludeUserId : option string) (entry : string * Client) : Prop :=
  Some entry.1 ≠ excludeUserId ∧ readyState w (ws entry.2) = OPEN.

#[global] Instance reaches_dec w excludeUserId entry : Decision (reaches w excludeUserId entry).
Proof. unfold reaches. apply _. Defined.

Definition recipients (w : World) (roomClients : gmap string Client)
    (excludeUserId : option string) : list WebSocket :=
  (λ entry, ws entry.2) <$> filter (reaches w excludeUserId) (map_to_list roomClients).

Definition notify (roomClients : gmap string Client) (excludeUserId : option string)
    (frame : Frame) (w : World) : World :=
  set_wire (λ l, l ++ ((λ s, (s, frame)) <$> recipients w roomClients excludeUserId)) w.

Definition broadcastToRoom (roomId : string) (message : WSMessage)
    (excludeUserId : option string) (w : World) : World :=
  match roomConnections w !! roomId with
  | Some roomClients => notify roomClients excludeUserId (event message) w
  | None => w
  end.

Definition is_member (room : Room.t) (userId : string) : bool :=
  bool_decide (Room.createdBy room = userId)
  || bool_decide (Room.participant1Id room = Some userId)
  || bool_decide (Room.participant2Id room = Some userId).

Definition ensureRoomMember (w : World) (roomId userId : string) : bool :=
  match getRoomById (db w) roomId with
  | None => false
  | Some room => is_member room userId
  end.

(** The state one connection closes over. *)
Record Conn := mkConn {
  socket : WebSocket;
  authenticatedUserId : string;
  currentRoomId : option string }.

(** The body that the [leave_room] case and the [close] handler share. *)
Definition unregister (c : Conn) (w : World) : World :=
  if negb (falsy (currentRoomId c)) && truthy (authenticatedUserId c) then
    let roomId := default "" (currentRoomId c) in
    match roomConnections w !! roomId with
    | Some roomClients =>
      let roomClients := delete (authenticatedUserId c) roomClients in
      let w := set_roomConnections (insert roomId roomClients) w in
      let w := notify roomClients None (event (user_left (authenticatedUserId c))) w in
      if bool_decide (size roomClients = 0%nat)
      then set_roomConnections (delete roomId) w
      else w
    | None => w
    end
  else w.

(** [ws.on('message')], on a message that parsed. *)
Definition on_message (c : Conn) (w : World) (message : WSMessage) : Conn * World :=
  match message with
  | join_room requestedRoomId requestedUserId userName =>
    if bool_decide (requestedUserId ≠ authenticatedUserId c) then
      (c, close (socket c) (send (socket c) (error "User ID mismatch") w))
    else
      match getRoomById (db w) requestedRoomId with
      | None => (c, close (socket c) (send (socket c) (error "Room not found") w))
      | Some room =>
        if negb (is_member room (authenticatedUserId c)) then
          (c, close (socket c) (send (socket c) (error "Access denied") w))
        else
          let c := mkConn (socket c) (authenticatedUserId c) (Some requestedRoomId) in
          let roomClients := default ∅ (roomConnections w !! requestedRoomId) in
          let roomClients :=
            <[authenticatedUserId c := mkClient (socket c) userName]> roomClients in
          let w := set_roomConnections (insert requestedRoomId roomClients) w in
          (c, notify roomClients (Some (authenticatedUserId c))
                (event (user_joined (authenticatedUserId c) userName)) w)
      end
  | leave_room _ _ => (c, unregister c w)
  | _ => (c, w)
  end.

(** [ws.on('close')]: the socket is closed by the time the event fires. *)
Definition on_close (c : Conn) (w : World) : World :=
  unregister c
    (set_readyState (λ state x, if decide (x = socket c) then CLOSED else state x) w).

(** ** server/routes.ts: the request handlers *)

(** What one request reads from outside the process: the text-generation
    client ([None] without an API key), the two clocks, the identifiers
    [gen_random_uuid()] gives to the rows the request inserts, and the code
    [nanoid(6).toUpperCase()] yields.  [now] is the database's [now()], the
    default of the timestamp columns; [date] is the process's [new Date()]
    where a handler stamps something itself, and [today] is local midnight
    of the day the daily cap is checked. *)
Record Env := mkEnv {
  hf : option HfInference;
  now : Z;
  date : Z;
  today : Z;
  uuid : nat → string;
  nanoid : string }.

Inductive Body :=
| message (text : string)
| thrown (e : Exn)
| room_json (room : Room.t)
| message_json (m : Message.t)
| messages_json (l : list (Message.t * string))
| resolutions_json (l : list Resolution.t)
| vote_json (v : Vote.t).

Record Response := mkResponse { status : Z; body : Body }.

(** [res.json(x)] answers 200. *)
Definition json (b : Body) : Response := mkResponse 200 b.

(** POST /api/rooms *)
Definition create_room (e : Env) (w : World) (userId : string) : World * Response :=
  match createRoom (db w) (uuid e 0%nat) (now e)
          (InsertRoom.mk (nanoid e) userId (Some userId) None (Some "active")) with
  | Ok (room, d) => (set_db (λ _, d) w, json (room_json room))
  | Throw err => (w, mkResponse 500 (thrown err))
  end.

(** POST /api/rooms/join *)
Definition join_room_by_code (w : World) (userId code : string) : World * Response :=
  match getRoomByCode (db w) code with
  | None => (w, mkResponse 404 (message "Room not found"))
  | Some room =>
    match updateRoomParticipant (db w) (Room.id room) userId with
    | Ok d => (set_db (λ _, d) w, json (room_json room))
    | Throw err => (w, mkResponse 500 (thrown err))
    end
  end.

(** GET /api/rooms/:id *)
Definition get_room (w : World) (userId roomId : string) : World * Response :=
  if negb (ensureRoomMember w roomId userId) then
    (w, mkResponse 403 (message "Access denied"))
  else
    match getRoomById (db w) roomId with
    | None => (w, mkResponse 404 (message "Room not found"))
    | Some room => (w, json (room_json room))
    end.

(** The body of a posted message as the client sent it: the four keys that
    the schema reads, each with the value it has, [js_undefined] when the
    body has no such key.  The route sets the room and the sender itself,
    over what the body says, and the schema drops every other key. *)
Record MessageBody := mkMessageBody {
  body_text : JSValue;
  body_transcript : JSValue;
  body_isVoice : JSValue;
  body_voiceUrl : JSValue }.

(** [z.string().optional()] *)
Definition optional_string (v : JSValue) : Res (option string) :=
  match v with
  | js_undefined => Ok None
  | js_string s => Ok (Some s)
  | _ => Throw ZodError
  end.

(** [z.boolean().optional()], the schema of a column with a default *)
Definition optional_boolean (v : JSValue) : Res (option bool) :=
  match v with
  | js_undefined => Ok None
  | js_boolean b => Ok (Some b)
  | _ => Throw ZodError
  end.

(** [z.string().nullable().optional()], the schema of a nullable column *)
Definition nullish_string (v : JSValue) : Res (option string) :=
  match v with
  | js_undefined | js_null => Ok None
  | js_string s => Ok (Some s)
  | _ => Throw ZodError
  end.

(** [insertMessageSchema.parse({ ...req.body, roomId, senderId })]: the
    text, if there is one, is a string of at most 5000 code units. *)
Definition insertMessageSchema_parse (roomId senderId : string) (b : MessageBody)
  : Res InsertMessage.t :=
  match optional_string (body_text b), optional_string (body_transcript b),
        optional_boolean (body_isVoice b), nullish_string (body_voiceUrl b) with
  | Ok text, Ok transcript, Ok isVoice, Ok voiceUrl =>
    if bool_decide (5000 < from_option js_length 0 text)%nat then Throw ZodError
    else Ok (InsertMessage.mk roomId senderId text transcript isVoice voiceUrl)
  | _, _, _, _ => Throw ZodError
  end.

Definition senderName (d : Db) (userId : string) : string :=
  or_else (User.name <$> getUserById d userId) "User".

(** POST /api/rooms/:id/messages *)
Definition post_message (e : Env) (w : World) (userId roomId : string) (b : MessageBody)
  : World * Response :=
  if negb (ensureRoomMember w roomId userId) then
    (w, mkResponse 403 (message "Access denied"))
  else
    match insertMessageSchema_parse roomId userId b with
    | Throw err => (w, mkResponse 400 (thrown err))
    | Ok data =>
      match createMessage (db w) (uuid e 0%nat) (now e) data with
      | Throw err => (w, mkResponse 400 (thrown err))
      | Ok (m, d) =>
        let w := set_db (λ _, d) w in
        (broadcastToRoom roomId (new_message m (senderName (db w) userId)) None w,
         json (message_json m))
      end
    end.

(** GET /api/rooms/:id/messages *)
Definition get_messages (w : World) (userId roomId : string) : World * Response :=
  if negb (ensureRoomMember w roomId userId) then
    (w, mkResponse 403 (message "Access denied"))
  else
    (w, json (messages_json
                ((λ m, (m, senderName (db w) (Message.senderId m)))
                   <$> getRoomMessages (db w) roomId))).

(** POST /api/transcribe; [audioFile] tells whether the upload has a file. *)
Definition transcribe (e : Env) (w : World) (userId roomId : string) (audioFile : bool)
  : World * Response :=
  if negb audioFile then (w, mkResponse 400 (message "No audio file provided"))
  else if negb (ensureRoomMember w roomId userId) then
    (w, mkResponse 403 (message "Access denied"))
  else
    match createMessage (db w) (uuid e 0%nat) (now e)
            (InsertMessage.mk roomId userId (Some "")
               (Some "Voice message (transcription unavailable)") (Some true)
               (Some "/audio/placeholder.webm")) with
    | Throw err => (w, mkResponse 500 (thrown err))
    | Ok (m, d) =>
      let w := set_db (λ _, d) w in
      (broadcastToRoom roomId (new_message m (senderName (db w) userId)) None w,
       json (message_json m))
    end.

Definition to_insert (roomId : string) (r : AIResolution.t) : InsertResolution.t :=
  InsertResolution.mk roomId (AIResolution.title r) (AIResolution.description r)
    (AIResolution.ai_score r) (Some (is_one (AIResolution.suggested_best r))).

(** POST /api/rooms/:id/generate-resolutions *)
Definition generate_resolutions (e : Env) (w : World) (userId roomId : string)
  : World * Response :=
  if negb (ensureRoomMember w roomId userId) then
    (w, mkResponse 403 (message "Access denied"))
  else
    let '(limit, counts) := checkResolutionLimit (resolutionCounts w) (today e) userId in
    let w := set_resolutionCounts (λ _, counts) w in
    if negb (allowed limit) then
      (w, mkResponse 429
            (message "Daily resolution limit reached. Upgrade to PRO for unlimited resolutions."))
    else
      let messages := getRoomMessages (db w) roomId in
      if bool_decide (length messages < 4)%nat then
        (w, mkResponse 400 (message "Need at least 4 messages to generate resolutions"))
      else
        let messageTexts :=
          (λ m, or_else (Message.text m) (or_else (Message.transcript m) "")) <$> messages in
        let '(aiResponse, calls) := generateResolutions (hf e) messageTexts in
        let w := set_hfCalls (λ l, l ++ calls) w in
        match aiResponse with
        | Throw err => (w, mkResponse 500 (thrown err))
        | Ok aiResponse =>
          let resolutionsToInsert :=
            to_insert roomId <$> AIResolutionResponse.resolutions aiResponse in
          match createResolutions (db w) (uuid e) (now e) resolutionsToInsert with
          | Throw err => (w, mkResponse 500 (thrown err))
          | Ok (savedResolutions, d) =>
            let w := set_db (λ _, d) w in
            let w :=
              set_resolutionCounts (λ counts, incrementResolutionCount counts (date e) userId) w in
            (broadcastToRoom roomId (resolutions_generated savedResolutions) None w,
             json (resolutions_json savedResolutions))
          end
        end.

(** POST /api/rooms/:id/vote *)
Definition vote (e : Env) (w : World) (userId roomId resolutionId : string)
  : World * Response :=
  if negb (ensureRoomMember w roomId userId) then
    (w, mkResponse 403 (message "Access denied"))
  else
    match getUserVote (db w) roomId userId with
    | Some existingVote => (w, mkResponse 400 (message "Already voted"))
    | None =>
      match createVote (db w) (uuid e 0%nat) (now e)
              (InsertVote.mk roomId resolutionId userId) with
      | Throw err => (w, mkResponse 500 (thrown err))
      | Ok (v, d) =>
        let w := set_db (λ _, d) w in
        let w := broadcastToRoom roomId (vote_cast userId resolutionId) None w in
        let allVotes := getRoomVotes (db w) roomId in
        if bool_decide (length allVotes = 2%nat) then
          let resolution1 := Vote.resolutionId <$> allVotes !! 0%nat in
          let resolution2 := Vote.resolutionId <$> allVotes !! 1%nat in
          if bool_decide (resolution1 = resolution2) then
            let w := set_db (λ d, updateRoomStatus d roomId "resolved" (Some (date e))) w in
            let resolution := getResolutionById (db w) resolutionId in
            (broadcastToRoom roomId (room_resolved resolution) None w, json (vote_json v))
          else (w, json (vote_json v))
        else (w, json (vote_json v))
      end
    end.

(** ** The server as a transition system *)

Inductive Request :=
| POST_rooms (e : Env) (userId : string)
| POST_rooms_join (userId code : string)
| GET_room (userId roomId : string)
| POST_messages (e : Env) (userId roomId : string) (b : MessageBody)
| GET_messages (userId roomId : string)
| POST_transcribe (e : Env) (userId roomId : string) (audioFile : bool)
| POST_generate_resolutions (e : Env) (userId roomId : string)
| POST_vote (e : Env) (userId roomId resolutionId : string).

Definition handle (rq : Request) (w : World) : World * Response :=
  match rq with
  | POST_rooms e userId => create_room e w userId
  | POST_rooms_join userId code => join_room_by_code w userId code
  | GET_room userId roomId => get_room w userId roomId
  | POST_messages e userId roomId b => post_message e w userId roomId b
  | GET_messages userId roomId => get_messages w userId roomId
  | POST_transcribe e userId roomId audioFile => transcribe e w userId roomId audioFile
  | POST_generate_resolutions e userId roomId => generate_resolutions e w userId roomId
  | POST_vote e userId roomId resolutionId => vote e w userId roomId resolutionId
  end.

(** The serial server: an event, which is a request, a message on a
    connection or the close of a connection, is handled to its end before
    the next one comes in.  The server does so as long as no event reaches
    it while a handler waits at an [await]; what it does otherwise is
    [istep] below. *)
Inductive step : World → World → Prop :=
| step_request rq w : step w (handle rq w).1
| step_message c w m : step w (on_message c w m).2
| step_close c w : step w (on_close c w).

(** The writes a handler makes to the tables. *)
Inductive db_op : Db → Db → Prop :=
| op_createRoom d uuid now code userId room d' :
    createRoom d uuid now (InsertRoom.mk code userId (Some userId) None (Some "active"))
      = Ok (room, d') →
    db_op d d'
| op_updateRoomParticipant d roomId participantId d' :
    updateRoomParticipant d roomId participantId = Ok d' →
    db_op d d'
| op_updateRoomStatus d roomId status resolvedAt :
    db_op d (updateRoomStatus d roomId status resolvedAt)
| op_createMessage d uuid now m created d' :
    createMessage d uuid now m = Ok (created, d') →
    db_op d d'
| op_createResolutions d uuid now l created d' :
    createResolutions d uuid now l = Ok (created, d') →
    db_op d d'
| op_createVote d uuid now v created d' :
    getUserVote d (InsertVote.roomId v) (InsertVote.userId v) = None →
    createVote d uuid now v = Ok (created, d') →
    db_op d d'.

(** ** The server when requests overlap

    Every handler is an [async] function: it runs until it [await]s the
    database or the text-generation service, and the process serves other
    events until the answer is there.  [handle] and [step] above are the
    handlers run with nothing in between, which is how the server runs
    while no event reaches it during the handling of another.  What follows
    is the server in general.

    A [Task] is a handler at an [await]: when it is resumed in a world, the
    operation it waits for takes effect there, and the handler goes on to its
    end or to its next [await].  The calls that [generateResolutions] makes
    are taken as one such operation, and so are the reads that the listing
    of the messages puts in one [Promise.all]. *)

#[warnings="-register-all"]
Inductive Task (A : Type) :=
| finished (a : A)
| awaiting (k : World → World * Task A).
Arguments finished {A} a.
Arguments awaiting {A} k.

(** A task run to its end with nothing in between. *)
Fixpoint run_task {A} (t : Task A) (w : World) : World * A :=
  match t with
  | finished a => (w, a)
  | awaiting k => let '(w, t) := k w in run_task t w
  end.

(** POST /api/rooms *)
Definition create_room_task (e : Env) (userId : string) : Task Response :=
  awaiting (λ w,
    (* await storage.createRoom *)
    match createRoom (db w) (uuid e 0%nat) (now e)
            (InsertRoom.mk (nanoid e) userId (Some userId) None (Some "active")) with
    | Ok (room, d) => (set_db (λ _, d) w, finished (json (room_json room)))
    | Throw err => (w, finished (mkResponse 500 (thrown err)))
    end).

(** [storage.updateRoomParticipant], which reads the room and then writes
    the slot that the room it has read leaves open. *)
Definition updateRoomParticipant_task {A} (roomId participantId : string)
    (done : Res unit → Task A) : Task A :=
  awaiting (λ w,
    (* await this.getRoomById *)
    match getRoomById (db w) roomId with
    | None => (w, done (Throw (Error "Room not found")))
    | Some room =>
      if falsy (Room.participant1Id room) then
        (w, awaiting (λ w,
          (* await db.update(rooms).set({ participant1Id }) *)
          if has_id User.id (users (db w)) participantId
          then (set_db (update_room roomId (set_participant1Id participantId)) w, done (Ok ()))
          else (w, done (Throw (DatabaseError foreign_key_violation)))))
      else if falsy (Room.participant2Id room)
              && bool_decide (Room.participant1Id room ≠ Some participantId) then
        (w, awaiting (λ w,
          (* await db.update(rooms).set({ participant2Id }) *)
          if has_id User.id (users (db w)) participantId
          then (set_db (update_room roomId (set_participant2Id participantId)) w, done (Ok ()))
          else (w, done (Throw (DatabaseError foreign_key_violation)))))
      else (w, done (Ok ()))
    end).

(** POST /api/rooms/join *)
Definition join_room_by_code_task (userId code : string) : Task Response :=
  awaiting (λ w,
    (* await storage.getRoomByCode *)
    match getRoomByCode (db w) code with
    | None => (w, finished (mkResponse 404 (message "Room not found")))
    | Some room =>
      (w, updateRoomParticipant_task (Room.id room) userId
            (λ updated,
               match updated with
               | Ok _ => finished (json (room_json room))
               | Throw err => finished (mkResponse 500 (thrown err))
               end))
    end).

(** GET /api/rooms/:id *)
Definition get_room_task (userId roomId : string) : Task Response :=
  awaiting (λ w,
    (* await ensureRoomMember *)
    if negb (ensureRoomMember w roomId userId) then
      (w, finished (mkResponse 403 (message "Access denied")))
    else
      (w, awaiting (λ w,
        (* await storage.getRoomById *)
        match getRoomById (db w) roomId with
        | None => (w, finished (mkResponse 404 (message "Room not found")))
        | Some room => (w, finished (json (room_json room)))
        end))).

(** POST /api/rooms/:id/messages *)
Definition post_message_task (e : Env) (userId roomId : string) (b : MessageBody)
  : Task Response :=
  awaiting (λ w,
    (* await ensureRoomMember *)
    if negb (ensureRoomMember w roomId userId) then
      (w, finished (mkResponse 403 (message "Access denied")))
    else
      match insertMessageSchema_parse roomId userId b with
      | Throw err => (w, finished (mkResponse 400 (thrown err)))
      | Ok data =>
        (w, awaiting (λ w,
          (* await storage.createMessage *)
          match createMessage (db w) (uuid e 0%nat) (now e) data with
          | Throw err => (w, finished (mkResponse 400 (thrown err)))
          | Ok (m, d) =>
            (set_db (λ _, d) w, awaiting (λ w,
              (* await storage.getUserById *)
              (broadcastToRoom roomId (new_message m (senderName (db w) userId)) None w,
               finished (json (message_json m)))))
          end))
      end).

(** GET /api/rooms/:id/messages *)
Definition get_messages_task (userId roomId : string) : Task Response :=
  awaiting (λ w,
    (* await ensureRoomMember *)
    if negb (ensureRoomMember w roomId userId) then
      (w, finished (mkResponse 403 (message "Access denied")))
    else
      (w, awaiting (λ w,
        (* await storage.getRoomMessages *)
        let messages := getRoomMessages (db w) roomId in
        (w, awaiting (λ w,
          (* await Promise.all *)
          (w, finished (json (messages_json
                                ((λ m, (m, senderName (db w) (Message.senderId m)))
                                   <$> messages))))))))).

(** POST /api/transcribe *)
Definition transcribe_task (e : Env) (userId roomId : string) (audioFile : bool)
  : Task Response :=
  if negb audioFile then finished (mkResponse 400 (message "No audio file provided"))
  else
    awaiting (λ w,
      (* await ensureRoomMember *)
      if negb (ensureRoomMember w roomId userId) then
        (w, finished (mkResponse 403 (message "Access denied")))
      else
        (w, awaiting (λ w,
          (* await storage.createMessage *)
          match createMessage (db w) (uuid e 0%nat) (now e)
                  (InsertMessage.mk roomId userId (Some "")
                     (Some "Voice message (transcription unavailable)") (Some true)
                     (Some "/audio/placeholder.webm")) with
          | Throw err => (w, finished (mkResponse 500 (thrown err)))
          | Ok (m, d) =>
            (set_db (λ _, d) w, awaiting (λ w,
              (* await storage.getUserById *)
              (broadcastToRoom roomId (new_message m (senderName (db w) userId)) None w,
               finished (json (message_json m)))))
          end))).

(** POST /api/rooms/:id/generate-resolutions *)
Definition generate_resolutions_task (e : Env) (userId roomId : string) : Task Response :=
  awaiting (λ w,
    (* await ensureRoomMember *)
    if negb (ensureRoomMember w roomId userId) then
      (w, finished (mkResponse 403 (message "Access denied")))
    else
      let '(limit, counts) := checkResolutionLimit (resolutionCounts w) (today e) userId in
      let w := set_resolutionCounts (λ _, counts) w in
      if negb (allowed limit) then
        (w, finished (mkResponse 429
               (message "Daily resolution limit reached. Upgrade to PRO for unlimited resolutions.")))
      else
        (w, awaiting (λ w,
          (* await storage.getRoomMessages *)
          let messages := getRoomMessages (db w) roomId in
          if bool_decide (length messages < 4)%nat then
            (w, finished (mkResponse 400
                   (message "Need at least 4 messages to generate resolutions")))
          else
            let messageTexts :=
              (λ m, or_else (Message.text m) (or_else (Message.transcript m) ""))
                <$> messages in
            (w, awaiting (λ w,
              (* await generateResolutions *)
              let '(aiResponse, calls) := generateResolutions (hf e) messageTexts in
              let w := set_hfCalls (λ l, l ++ calls) w in
              match aiResponse with
              | Throw err => (w, finished (mkResponse 500 (thrown err)))
              | Ok aiResponse =>
                let resolutionsToInsert :=
                  to_insert roomId <$> AIResolutionResponse.resolutions aiResponse in
                (w, awaiting (λ w,
                  (* await storage.createResolutions *)
                  match createResolutions (db w) (uuid e) (now e) resolutionsToInsert with
                  | Throw err => (w, finished (mkResponse 500 (thrown err)))
                  | Ok (savedResolutions, d) =>
                    let w := set_db (λ _, d) w in
                    let w :=
                      set_resolutionCounts
                        (λ counts, incrementResolutionCount counts (date e) userId) w in
                    (broadcastToRoom roomId (resolutions_generated savedResolutions) None w,
                     finished (json (resolutions_json savedResolutions)))
                  end))
              end))))).

(** POST /api/rooms/:id/vote *)
Definition vote_task (e : Env) (userId roomId resolutionId : string) : Task Response :=
  awaiting (λ w,
    (* await ensureRoomMember *)
    if negb (ensureRoomMember w roomId userId) then
      (w, finished (mkResponse 403 (message "Access denied")))
    else
      (w, awaiting (λ w,
        (* await storage.getUserVote *)
        match getUserVote (db w) roomId userId with
        | Some existingVote => (w, finished (mkResponse 400 (message "Already voted")))
        | None =>
          (w, awaiting (λ w,
            (* await storage.createVote *)
            match createVote (db w) (uuid e 0%nat) (now e)
                    (InsertVote.mk roomId resolutionId userId) with
            | Throw err => (w, finished (mkResponse 500 (thrown err)))
            | Ok (v, d) =>
              let w := set_db (λ _, d) w in
              let w := broadcastToRoom roomId (vote_cast userId resolutionId) None w in
              (w, awaiting (λ w,
                (* await storage.getRoomVotes *)
                let allVotes := getRoomVotes (db w) roomId in
                if bool_decide (length allVotes = 2%nat) then
                  let resolution1 := Vote.resolutionId <$> allVotes !! 0%nat in
                  let resolution2 := Vote.resolutionId <$> allVotes !! 1%nat in
                  if bool_decide (resolution1 = resolution2) then
                    (w, awaiting (λ w,
                      (* await storage.updateRoomStatus *)
                      let w :=
                        set_db (λ d, updateRoomStatus d roomId "resolved" (Some (date e))) w in
                      (w, awaiting (λ w,
                        (* await storage.getResolutionById *)
                        let resolution := getResolutionById (db w) resolutionId in
                        (broadcastToRoom roomId (room_resolved resolution) None w,
                         finished (json (vote_json v)))))))
                  else (w, finished (json (vote_json v)))
                else (w, finished (json (vote_json v)))))
            end))
        end))).

Definition task_of (rq : Request) : Task Response :=
  match rq with
  | POST_rooms e userId => create_room_task e userId
  | POST_rooms_join userId code => join_room_by_code_task userId code
  | GET_room userId roomId => get_room_task userId roomId
  | POST_messages e userId roomId b => post_message_task e userId roomId b
  | GET_messages userId roomId => get_messages_task userId roomId
  | POST_transcribe e userId roomId audioFile => transcribe_task e userId roomId audioFile
  | POST_generate_resolutions e userId roomId => generate_resolutions_task e userId roomId
  | POST_vote e userId roomId resolutionId => vote_task e userId roomId resolutionId
  end.

(** [ws.on('message')]: what the handler does at once, and the task it
    leaves when it [await]s the room of a join. *)
Definition on_message_task (c : Conn) (message : WSMessage) (w : World) : World * Task Conn :=
  match message with
  | join_room requestedRoomId requestedUserId userName =>
    if bool_decide (requestedUserId ≠ authenticatedUserId c) then
      (close (socket c) (send (socket c) (error "User ID mismatch") w), finished c)
    else
      (w, awaiting (λ w,
        (* await storage.getRoomById *)
        match getRoomById (db w) requestedRoomId with
        | None => (close (socket c) (send (socket c) (error "Room not found") w), finished c)
        | Some room =>
          if negb (is_member room (authenticatedUserId c)) then
            (close (socket c) (send (socket c) (error "Access denied") w), finished c)
          else
            let c := mkConn (socket c) (authenticatedUserId c) (Some requestedRoomId) in
            let roomClients := default ∅ (roomConnections w !! requestedRoomId) in
            let roomClients :=
              <[authenticatedUserId c := mkClient (socket c) userName]> roomClients in
            let w := set_roomConnections (insert requestedRoomId roomClients) w in
            (notify roomClients (Some (authenticatedUserId c))
               (event (user_joined (authenticatedUserId c) userName)) w,
             finished c)
        end))
  | leave_room _ _ => (unregister c w, finished c)
  | _ => (w, finished c)
  end.

(** A handler that has been started: of a request, or of a message on a
    connection. *)
Inductive Handler :=
| serving (t : Task Response)
| receiving (t : Task Conn).

(** The handler goes on from its [await], if it is at one. *)
Definition resume (h : Handler) (w : World) : World * Handler :=
  match h with
  | serving (awaiting k) => let '(w, t) := k w in (w, serving t)
  | receiving (awaiting k) => let '(w, t) := k w in (w, receiving t)
  | _ => (w, h)
  end.

(** What happens to the server: a request or a message comes in and its
    handler is started, a connection closes, or the handler at some position
    among the started ones is resumed. *)
Inductive Event :=
| requested (rq : Request)
| received (c : Conn) (m : WSMessage)
| closed (c : Conn)
| resumed (i : nat).

Definition occur (s : World * list Handler) (ev : Event) : World * list Handler :=
  let '(w, hs) := s in
  match ev with
  | requested rq => (w, hs ++ [serving (task_of rq)])
  | received c m => let '(w, t) := on_message_task c m w in (w, hs ++ [receiving t])
  | closed c => (on_close c w, hs)
  | resumed i =>
    match hs !! i with
    | Some h => let '(w, h) := resume h w in (w, <[i := h]> hs)
    | None => (w, hs)
    end
  end.

(** The state of the server, the world and the handlers started so far,
    moves by one event at a time. *)
Inductive istep : World * list Handler → World * list Handler → Prop :=
| istep_occur s ev : istep s (occur s ev).

(** The server after a list of events, oldest first. *)
Definition play (events : list Event) (s : World * list Handler) : World * list Handler :=
  foldl occur s events.

(** The answers given so far, by position of the handler. *)
Definition answers (s : World * list Handler) : list (option Response) :=
  (λ h, match h with serving (finished r) => Some r | _ => None end) <$> s.2.

(** ** The vocabulary of the properties *)

(** The frames one [broadcastToRoom] writes. *)
Definition fanout (w : World) (roomId : string) (m : WSMessage)
    (excludeUserId : option string) : list (WebSocket * Frame) :=
  match roomConnections w !! roomId with
  | Some roomClients =>
    (λ s, (s, event m)) <$> recipients w roomClients excludeUserId
  | None => []
  end.

(** The live connection of a (room, user) pair, if any. *)
Definition registered (w : World) (roomId userId : string) : option Client :=
  roomConnections w !! roomId ≫= (λ roomClients, roomClients !! userId).

(** The registry keeps no room without clients. *)
Definition registry_ok (w : World) : Prop :=
  ∀ roomId roomClients, roomConnections w !! roomId = Some roomClients → roomClients ≠ ∅.

(** At most one vote per (room, identity) pair. *)
Definition vote_key (v : Vote.t) : string * string := (Vote.roomId v, Vote.userId v).

Definition one_vote_each (d : Db) : Prop := NoDup (vote_key <$> votes d).

(** The identities in the two slots of a room. *)
Definition occupants (r : Room.t) : list string :=
  omap (λ slot, slot) [Room.participant1Id r; Room.participant2Id r].

Definition occupants_of (d : Db) (roomId : string) : list string :=
  from_option occupants [] (getRoomById d roomId).

(** A room as [create_room] makes it and [updateRoomParticipant] keeps it: the
    creator holds slot 1, and slot 2 is empty or holds somebody else. *)
Definition room_ok (r : Room.t) : Prop :=
  Room.participant1Id r = Some (Room.createdBy r)
  ∧ Room.createdBy r ≠ ""
  ∧ Room.participant2Id r ≠ Some ""
  ∧ Room.participant2Id r ≠ Some (Room.createdBy r).

(** A database whose identifiers are as the schema makes them: primary keys
    are unique, no user has the empty identifier, and every room is
    [room_ok]. *)
Definition db_ok (d : Db) : Prop :=
  NoDup (Room.id <$> rooms d)
  ∧ ("" ∉ User.id <$> users d)
  ∧ Forall room_ok (rooms d).

(** A serial run of the server: consecutive worlds are one [step] apart. *)
Inductive run : list World → Prop :=
| run_one w : run [w]
| run_cons w w' l : step w w' → run (w' :: l) → run (w :: w' :: l).


(** A reply the service's client cannot turn into a batch. *)
Definition failed (t : TextGeneration) : Prop :=
  match t with
  | resolves (parses _) => False
  | _ => True
  end.

(** The reading of the HTTP answers in the specification's taxonomy. *)
Inductive Failure :=
| AccessDenied | NotFound | AlreadyVoted | QuotaExceeded | InsufficientContext | InternalError.

Definition failure (r : Response) : option Failure :=
  match status r, body r with
  | 403, _ => Some AccessDenied
  | 404, _ => Some NotFound
  | 429, _ => Some QuotaExceeded
  | 400, message "Already voted" => Some AlreadyVoted
  | 400, message "Need at least 4 messages to generate resolutions" => Some InsufficientContext
  | 500, _ => Some InternalError
  | _, _ => None
  end.

(** An update of a room row that leaves its identifier alone. *)
Definition keep_id (f : Room.t → Room.t) : Prop := ∀ r, Room.id (f r) = Room.id r.

(** A later state of a room keeps who sits in it: the creator and the first
    slot for good, the second slot once it is taken. *)
Definition keeps_seats (r r' : Room.t) : Prop :=
  Room.id r' = Room.id r
  ∧ Room.code r' = Room.code r
  ∧ Room.createdBy r' = Room.createdBy r
  ∧ Room.participant1Id r' = Room.participant1Id r
  ∧ (is_Some (Room.participant2Id r) → Room.participant2Id r' = Room.participant2Id r).

(** A transition that only writes frames: the tables, the registry, the
    counters, the sockets and the log of requests stay as they are. *)
Definition only_writes (w w' : World) : Prop :=
  ∃ frames, w' = set_wire (λ l, l ++ frames) w.

(** What the generate-resolutions route passes to [generateResolutions]:
    the text of each message of the room, or else its transcript. *)
Definition messageTexts (d : Db) (roomId : string) : list string :=
  (λ m, or_else (Message.text m) (or_else (Message.transcript m) ""))
    <$> getRoomMessages d roomId.

(** The messages of a room that the database holds. *)
Definition persisted (d : Db) (roomId : string) : list Message.t :=
  filter (λ m, Message.roomId m = roomId) (messages d).

(** ** A concrete session

    Ann (u1) created room r0 with code AB12CD and Bob (u2) joined it; Cy (u3)
    is registered but belongs to no room of theirs; room r1 is Cy's own.
    The worlds below are the inputs of the examples. *)

Definition user (id name : string) : User.t :=
  User.mk id name 30 "Prefer not to say" (name +:+ "@example.org") None None 0 0 0.

Definition text_message (id roomId senderId text : string) (t : Z) : Message.t :=
  Message.mk id roomId senderId (Some text) None false None t.

Definition room_r0 : Room.t :=
  Room.mk "r0" "AB12CD" "u1" (Some "u1") (Some "u2") "active" None 1.

Definition room_r1 : Room.t :=
  Room.mk "r1" "ZZ99ZZ" "u3" (Some "u3") None "active" None 2.

Definition three_messages : list Message.t :=
  [ text_message "m1" "r0" "u1" "You never do the dishes." 10;
    text_message "m2" "r0" "u2" "I cooked all week." 11;
    text_message "m3" "r0" "u1" "Cooking is not cleaning." 12 ].

Definition four_messages : list Message.t :=
  three_messages ++ [ text_message "m4" "r0" "u2" "Then let us split both." 13 ].

Definition session_resolutions : list Resolution.t :=
  [ Resolution.mk "x1" "r0" "Split chores" "Alternate cooking and dishes." 85 true 20;
    Resolution.mk "x2" "r0" "Rota" "Write a weekly rota." 75 false 20;
    Resolution.mk "x3" "r0" "Dishwasher" "Buy a dishwasher." 65 false 20;
    Resolution.mk "y1" "r1" "Elsewhere" "A resolution of another room." 50 true 21 ].

Definition session_db (msgs : list Message.t) (vs : list Vote.t) : Db :=
  mkDb [user "u1" "Ann"; user "u2" "Bob"; user "u3" "Cy"]
    [room_r0; room_r1] msgs session_resolutions vs.

(** Ann on socket 1 and Bob on socket 2 are both connected to r0. *)
Definition both_connected : gmap string (gmap string Client) :=
  {[ "r0" := {[ "u1" := mkClient 1%nat "Ann"; "u2" := mkClient 2%nat "Bob" ]} ]}.

Definition session (msgs : list Message.t) (vs : list Vote.t) : World :=
  mkWorld (session_db msgs vs) both_connected ∅ (λ _, OPEN) [] [].

Definition ann_conn : Conn := mkConn 1%nat "u1" (Some "r0").

(** A service that answers with prose and no braces. *)
Definition prose_only : HfInference := λ _, resolves no_match.



Definition session_env (h : option HfInference) (tag : string) : Env :=
  mkEnv h 100 101 0 (λ i, tag +:+ String (Ascii.ascii_of_nat (48 + i)) "") "QW34ER".

(** Ann has voted for the rota. *)
Definition ann_vote : Vote.t := Vote.mk "v1" "r0" "x2" "u1" 50.

(** ** The end-to-end scenario of the specification

    Ann creates a room with code AB12CD, Bob joins by the code, both connect
    and post two messages each, Ann requests resolutions from a service that
    answers in prose, and both vote for the second resolution. *)

Definition scenario_env (tag : string) (t : Z) : Env :=
  mkEnv (Some prose_only) t (t + 1) 0
    (λ i, tag +:+ String (Ascii.ascii_of_nat (48 + i)) "") "AB12CD".

Definition scenario_start : World :=
  mkWorld (mkDb [user "u1" "Ann"; user "u2" "Bob"; user "u3" "Cy"] [] [] [] [])
    ∅ ∅ (λ _, OPEN) [] [].

Definition say (text : string) : MessageBody :=
  mkMessageBody (js_string text) js_undefined (js_boolean false) js_undefined.

Definition scenario_generated : World :=
  let w := (create_room (scenario_env "r" 1) scenario_start "u1").1 in
  let w := (join_room_by_code w "u2" "AB12CD").1 in
  let w := (on_message (mkConn 1%nat "u1" None) w (join_room "r0" "u1" "Ann")).2 in
  let w := (on_message (mkConn 2%nat "u2" None) w (join_room "r0" "u2" "Bob")).2 in
  let w := (post_message (scenario_env "a" 2) w "u1" "r0" (say "You never do the dishes.")).1 in
  let w := (post_message (scenario_env "b" 3) w "u2" "r0" (say "I cooked all week.")).1 in
  let w := (post_message (scenario_env "c" 4) w "u1" "r0" (say "Cooking is not cleaning.")).1 in
  let w := (post_message (scenario_env "d" 5) w "u2" "r0" (say "Then let us split both.")).1 in
  (generate_resolutions (scenario_env "x" 6) w "u1" "r0").1.

Definition scenario_voted : World :=
  let w := (vote (scenario_env "v" 7) scenario_generated "u1" "r0" "x1").1 in
  (vote (scenario_env "w" 8) w "u2" "r0" "x1").1.

(** ** The vocabulary of the further properties *)

(** What a user has used of the daily cap, as a check on [today] sees it: a
    counter of an earlier day counts for nothing. *)
Definition used_today (resolutionCounts : gmap string Limit) (today : Z) (userId : string) : Z :=
  match resolutionCounts !! userId with
  | Some userLimit => if bool_decide (resetDate userLimit < today) then 0 else count userLimit
  | None => 0
  end.

(** The counters after the generations recorded at the times [nows]. *)
Definition record_generations (resolutionCounts : gmap string Limit) (userId : string)
    (nows : list Z) : gmap string Limit :=
  foldl (λ counts now, incrementResolutionCount counts now userId) resolutionCounts nows.

(** Requests for resolutions by one user, one after the other; each comes
    with its own [Env] and names its room.  The result is the last world and
    the number of requests that were answered with a batch. *)
Fixpoint request_resolutions (w : World) (userId : string) (requests : list (Env * string))
  : World * nat :=
  match requests with
  | [] => (w, 0%nat)
  | (e, roomId) :: requests =>
    let answer := generate_resolutions e w userId roomId in
    let rest := request_resolutions answer.1 userId requests in
    (rest.1, (if bool_decide (status answer.2 = 200) then S rest.2 else rest.2))
  end.

(** Four requests of Ann for resolutions in r0, all on one day. *)
Definition four_requests : list (Env * string) :=
  [ (session_env (Some prose_only) "a", "r0"); (session_env (Some prose_only) "b", "r0");
    (session_env (Some prose_only) "c", "r0"); (session_env (Some prose_only) "d", "r0") ].

(** Bob on socket 2, before he joins a room. *)
Definition bob_conn : Conn := mkConn 2%nat "u2" None.

(** Ann on another socket, 5, before she joins a room. *)
Definition ann_again : Conn := mkConn 5%nat "u1" None.

(** A world where nobody is connected. *)
Definition nobody_connected (msgs : list Message.t) (vs : list Vote.t) : World :=
  mkWorld (session_db msgs vs) ∅ ∅ (λ _, OPEN) [] [].

(** The text a message adds to the conversation that is sent to the model. *)
Definition spoken (m : Message.t) : string :=
  or_else (Message.text m) (or_else (Message.transcript m) "").

(** [s.repeat(n)] *)
Definition repeated (n : N) (s : string) : string := N.iter n (String.append s) "".

(** The string and the boolean that a value is, if it is one. *)
Definition as_string (v : JSValue) : option string :=
  match v with
  | js_string s => Some s
  | _ => None
  end.

Definition as_boolean (v : JSValue) : option bool :=
  match v with
  | js_boolean b => Some b
  | _ => None
  end.

(** The message that [post_message] stores for a body. *)
Definition posted (e : Env) (userId roomId : string) (b : MessageBody) : Message.t :=
  Message.mk (uuid e 0%nat) roomId userId (as_string (body_text b))
    (as_string (body_transcript b)) (default false (as_boolean (body_isVoice b)))
    (as_string (body_voiceUrl b)) (now e).

(** What the schema of a message accepts. *)
Definition message_schema (b : MessageBody) : Prop :=
  (body_text b = js_undefined
   ∨ ∃ t, body_text b = js_string t ∧ (js_length t ≤ 5000)%nat)
  ∧ (body_transcript b = js_undefined ∨ ∃ t, body_transcript b = js_string t)
  ∧ (body_isVoice b = js_undefined ∨ ∃ v, body_isVoice b = js_boolean v)
  ∧ (body_voiceUrl b = js_undefined ∨ body_voiceUrl b = js_null
     ∨ ∃ u, body_voiceUrl b = js_string u).

(** The texts of a body that the table of messages would hold. *)
Definition message_texts (b : MessageBody) : list string :=
  omap as_string [body_text b; body_transcript b; body_voiceUrl b].

(** The room that [create_room] stores. *)
Definition created_room (e : Env) (userId : string) : Room.t :=
  Room.mk (uuid e 0%nat) (nanoid e) userId (Some userId) None "active" None (now e).

(** No two rooms share a code. *)
Definition codes_ok (d : Db) : Prop := NoDup (Room.code <$> rooms d).

(** Every vote is by somebody who sits in the room it is for. *)
Definition votes_by_members (d : Db) : Prop :=
  ∀ v, v ∈ votes d → Vote.userId v ∈ occupants_of d (Vote.roomId v).

(** The two votes of a room name the same resolution. *)
Definition agreed (allVotes : list Vote.t) : bool :=
  bool_decide (length allVotes = 2%nat)
  && bool_decide (Vote.resolutionId <$> allVotes !! 0%nat
                  = Vote.resolutionId <$> allVotes !! 1%nat).

(** What one event writes to the tables: nothing, or the write of one route.
    The vote route writes the vote and, when the vote completes an agreement,
    the status of the room. *)
Inductive db_write : Db → Db → Prop :=
| write_nothing d : db_write d d
| write_room d uuid now code userId room d' :
    createRoom d uuid now (InsertRoom.mk code userId (Some userId) None (Some "active"))
      = Ok (room, d') →
    db_write d d'
| write_participant d roomId participantId d' :
    updateRoomParticipant d roomId participantId = Ok d' →
    db_write d d'
| write_message d uuid now m created d' :
    createMessage d uuid now m = Ok (created, d') →
    db_write d d'
| write_resolutions d uuid now l created d' :
    createResolutions d uuid now l = Ok (created, d') →
    db_write d d'
| write_vote d uuid now date roomId resolutionId userId room created d' :
    getRoomById d roomId = Some room →
    is_member room userId = true →
    getUserVote d roomId userId = None →
    createVote d uuid now (InsertVote.mk roomId resolutionId userId) = Ok (created, d') →
    db_write d (if agreed (getRoomVotes d' roomId)
                then updateRoomStatus d' roomId "resolved" (Some date) else d').

(** A resolved room has exactly two votes, by two users, for one resolution. *)
Definition resolved_by_agreement (d : Db) : Prop :=
  ∀ room,
    room ∈ rooms d → Room.status room = "resolved" →
    ∃ a b,
      getRoomVotes d (Room.id room) = [a; b]
      ∧ Vote.resolutionId a = Vote.resolutionId b
      ∧ Vote.userId a ≠ Vote.userId b.

(** The tables as the routes keep them. *)
Definition tables_ok (d : Db) : Prop :=
  db_ok d ∧ one_vote_each d ∧ votes_by_members d.

(** ** server/storage.ts and server/routes.ts: the account *)

Record Stats := mkStats {
  totalArguments : nat;
  resolvedCount : nat;
  resolutionsToday : Z }.

Definition getUserStats (d : Db) (userId : string) : Stats :=
  let userRooms := getUserRooms d userId in
  let resolvedRooms := filter (λ r, Room.status r = "resolved") userRooms in
  match getUserById d userId with
  | None => mkStats 0 0 0
  | Some user =>
    mkStats (length userRooms) (length resolvedRooms) (User.resolutionsUsedToday user)
  end.

(** The rows that refer to a user: the creator and the two slots of a room,
    the sender of a message, the user of a vote.  schema.ts declares these
    references without [onDelete], so the database refuses to delete a user
    while such a row exists. *)
Definition referenced (d : Db) (userId : string) : bool :=
  existsb (λ r, is_member r userId) (rooms d)
  || existsb (λ m, bool_decide (Message.senderId m = userId)) (messages d)
  || existsb (λ v, bool_decide (Vote.userId v = userId)) (votes d).

(** [db.delete(users).where(eq(users.id, userId))] *)
Definition deleteUser (d : Db) (userId : string) : Res Db :=
  if referenced d userId then Throw (DatabaseError foreign_key_violation)
  else Ok (set_users (filter (λ u, User.id u ≠ userId)) d).

(** What the routes of the account answer: the listing or the statistics,
    with status 200, or a [Response]. *)
Inductive AccountResponse :=
| rooms_json (l : list Room.t)
| stats_json (s : Stats)
| answered (r : Response).

(** GET /api/rooms *)
Definition get_rooms (w : World) (userId : string) : World * AccountResponse :=
  (w, rooms_json (getUserRooms (db w) userId)).

(** GET /api/stats *)
Definition get_stats (w : World) (userId : string) : World * AccountResponse :=
  (w, stats_json (getUserStats (db w) userId)).

(** DELETE /api/user/delete; the answer also clears the cookie of the
    token. *)
Definition delete_user (w : World) (userId : string) : World * AccountResponse :=
  match deleteUser (db w) userId with
  | Ok d => (set_db (λ _, d) w, answered (json (message "Account deleted successfully")))
  | Throw err => (w, answered (mkResponse 500 (thrown err)))
  end.

(** ** server/routes.ts: registration and login *)

(** What the two routes take from their libraries: [bcrypt.hash] with the
    salt it draws, [bcrypt.compare], [jwt.sign] on the identifier and the
    address of a user at the time of issue, and the test of
    [z.string().email()]. *)
Record Auth := mkAuth {
  bcrypt_hash : string → string → string;
  bcrypt_compare : string → string → bool;
  jwt_sign : string → string → Z → string;
  is_email : string → bool }.

Module InsertUser.
Record t := mk {
  name : string;
  age : Q;
  gender : string;
  email : string;
  passwordHash : option string;
  googleId : option string }.
End InsertUser.

Module RegisterData.
Record t := mk {
  name : string;
  age : Q;
  gender : string;
  email : string;
  password : string }.
End RegisterData.

Module LoginData.
Record t := mk {
  email : string;
  password : string }.
End LoginData.

(** A user without the [passwordHash] key. *)
Module UserWithoutPassword.
Record t := mk {
  id : string;
  name : string;
  age : Z;
  gender : string;
  email : string;
  googleId : option string;
  resolutionsUsedToday : Z;
  lastResolutionReset : Z;
  createdAt : Z }.
End UserWithoutPassword.

Definition userWithoutPassword (user : User.t) : UserWithoutPassword.t :=
  UserWithoutPassword.mk (User.id user) (User.name user) (User.age user) (User.gender user)
    (User.email user) (User.googleId user) (User.resolutionsUsedToday user)
    (User.lastResolutionReset user) (User.createdAt user).

(** The body of a registration as the client sent it: the five keys that
    the schema reads, each with the value it has. *)
Record RegisterBody := mkRegisterBody {
  body_name : JSValue;
  body_age : JSValue;
  body_gender : JSValue;
  body_email : JSValue;
  body_password : JSValue }.

(** [registerSchema.parse(req.body)]: [z.number()] takes any number, whole
    or not, and the lengths are counted in code units. *)
Definition registerSchema_parse (a : Auth) (b : RegisterBody) : Res RegisterData.t :=
  match body_name b, body_age b, body_gender b, body_email b, body_password b with
  | js_string name, js_number age, js_string gender, js_string email, js_string password =>
    if bool_decide (1 ≤ js_length name ≤ 100)%nat
       && Qle_bool 13 age && Qle_bool age 120
       && bool_decide (gender ∈ ["Male"; "Female"; "Prefer not to say"])
       && is_email a email
       && bool_decide (8 ≤ js_length password)%nat
    then Ok (RegisterData.mk name age gender email password) else Throw ZodError
  | _, _, _, _, _ => Throw ZodError
  end.

Definition loginSchema_parse (a : Auth) (data : LoginData.t) : Res LoginData.t :=
  if is_email a (LoginData.email data)
     && bool_decide (1 ≤ js_length (LoginData.password data))%nat
  then Ok data else Throw ZodError.

Definition user_parameters (u : InsertUser.t) : list (option Exn) :=
  [ refusal (text_column (InsertUser.name u));
    refusal (integer_column (InsertUser.age u));
    refusal (text_column (InsertUser.gender u));
    refusal (text_column (InsertUser.email u));
    refusal (nullable_text_column (InsertUser.passwordHash u));
    refusal (nullable_text_column (InsertUser.googleId u)) ].

(** [db.insert(users).values(insertUser).returning()]: the database reads
    the values, an age with a fraction is none that the [integer] column
    reads, and then checks the keys. *)
Definition createUser (d : Db) (uuid : string) (now : Z) (insertUser : InsertUser.t)
  : Res (User.t * Db) :=
  match first_refused (user_parameters insertUser) with
  | Some err => Throw err
  | None =>
    if has_id User.id (users d) uuid then Throw (DatabaseError unique_violation)
    else if bool_decide (InsertUser.email insertUser ∈ User.email <$> users d)
    then Throw (DatabaseError unique_violation)
    else if bool_decide (is_Some (InsertUser.googleId insertUser)
                         ∧ InsertUser.googleId insertUser ∈ User.googleId <$> users d)
    then Throw (DatabaseError unique_violation)
    else
      let user :=
        User.mk uuid (InsertUser.name insertUser) (Qfloor (InsertUser.age insertUser))
          (InsertUser.gender insertUser) (InsertUser.email insertUser)
          (InsertUser.passwordHash insertUser) (InsertUser.googleId insertUser) 0 now now in
      Ok (user, set_users (λ t, t ++ [user]) d)
  end.

Definition getUserByEmail (d : Db) (email : string) : option User.t :=
  head (filter (λ u, User.email u = email) (users d)).

Inductive AuthBody :=
| user_json (user : UserWithoutPassword.t)
| auth_message (text : string)
| auth_thrown (e : Exn).

(** The status, the body and the token that [res.cookie] sets, if any. *)
Record AuthResponse := mkAuthResponse {
  auth_status : Z;
  auth_body : AuthBody;
  token : option string }.

Definition generateToken (a : Auth) (now : Z) (user : User.t) : string :=
  jwt_sign a (User.id user) (User.email user) now.

(** POST /api/auth/register; [salt] is what [bcrypt.hash] draws. *)
Definition register (a : Auth) (e : Env) (salt : string) (w : World) (body : RegisterBody)
  : World * AuthResponse :=
  match registerSchema_parse a body with
  | Throw err => (w, mkAuthResponse 400 (auth_thrown err) None)
  | Ok data =>
    match getUserByEmail (db w) (RegisterData.email data) with
    | Some existingUser => (w, mkAuthResponse 400 (auth_message "Email already registered") None)
    | None =>
      let passwordHash := bcrypt_hash a (RegisterData.password data) salt in
      match createUser (db w) (uuid e 0%nat) (now e)
              (InsertUser.mk (RegisterData.name data) (RegisterData.age data)
                 (RegisterData.gender data) (RegisterData.email data)
                 (Some passwordHash) None) with
      | Throw err => (w, mkAuthResponse 400 (auth_thrown err) None)
      | Ok (user, d) =>
        (set_db (λ _, d) w,
         mkAuthResponse 200 (user_json (userWithoutPassword user))
           (Some (generateToken a (date e) user)))
      end
    end
  end.

(** POST /api/auth/login; [now] is the time of the request. *)
Definition login (a : Auth) (now : Z) (w : World) (body : LoginData.t)
  : World * AuthResponse :=
  match loginSchema_parse a body with
  | Throw err => (w, mkAuthResponse 400 (auth_thrown err) None)
  | Ok data =>
    match getUserByEmail (db w) (LoginData.email data) with
    | None => (w, mkAuthResponse 401 (auth_message "Invalid email or password") None)
    | Some user =>
      if falsy (User.passwordHash user) then
        (w, mkAuthResponse 401 (auth_message "Invalid email or password") None)
      else if negb (bcrypt_compare a (LoginData.password data)
                      (default "" (User.passwordHash user))) then
        (w, mkAuthResponse 401 (auth_message "Invalid email or password") None)
      else
        (w, mkAuthResponse 200 (user_json (userWithoutPassword user))
              (Some (generateToken a now user)))
    end
  end.

(** No two users share an address. *)
Definition emails_ok (d : Db) : Prop := NoDup (User.email <$> users d).

(** The body that holds the data of a registration, each under its key. *)
Definition register_body (data : RegisterData.t) : RegisterBody :=
  mkRegisterBody (js_string (RegisterData.name data)) (js_number (RegisterData.age data))
    (js_string (RegisterData.gender data)) (js_string (RegisterData.email data))
    (js_string (RegisterData.password data)).

(** What the schema of a registration accepts. *)
Definition register_schema (a : Auth) (data : RegisterData.t) : Prop :=
  (1 ≤ js_length (RegisterData.name data) ≤ 100)%nat
  ∧ (13 <= RegisterData.age data <= 120)%Q
  ∧ RegisterData.gender data ∈ ["Male"; "Female"; "Prefer not to say"]
  ∧ is_email a (RegisterData.email data) = true
  ∧ (8 ≤ js_length (RegisterData.password data))%nat.

(** The user that an accepted registration stores. *)
Definition registered_user (a : Auth) (e : Env) (salt : string) (data : RegisterData.t)
  : User.t :=
  User.mk (uuid e 0%nat) (RegisterData.name data) (Qfloor (RegisterData.age data))
    (RegisterData.gender data) (RegisterData.email data)
    (Some (bcrypt_hash a (RegisterData.password data) salt)) None 0 (now e) (now e).

(** A concrete [Auth] for the examples. *)
Definition toy_auth : Auth :=
  mkAuth (λ password salt, "$2a$" +:+ password)
    (λ password h, bool_decide (h = "$2a$" +:+ password))
    (λ id email now, "jwt." +:+ id +:+ "." +:+ email)
    (λ email, bool_decide (email ≠ "")).

(** * Properties *)

(** ** The serial server and the server in general *)

Lemma Task_induction {A} (P : Task A → Prop) :
  (∀ a, P (finished a)) →
  (∀ k, (∀ w, P (k w).2) → P (awaiting k)) →
  ∀ t, P t.
Proof.
  intros Hfinished Hawaiting. fix IH 1. intros [a|k].
  - apply Hfinished.
  - apply Hawaiting. intros w. apply IH.
Qed.

(** A handler that nothing interrupts is the handler of the serial server. *)
Lemma run_task_of rq w : run_task (task_of rq) w = handle rq w.
Proof.
  destruct rq; cbn [task_of handle].
  - unfold create_room_task, create_room. cbn.
    by destruct (createRoom _ _ _ _) as [[room d]|].
  - unfold join_room_by_code_task, join_room_by_code, updateRoomParticipant_task,
      updateRoomParticipant. cbn.
    destruct (getRoomByCode _ _) as [room|]; [|done]. cbn.
    destruct (getRoomById _ _) as [room'|]; [|done].
    destruct (falsy (Room.participant1Id room')); cbn.
    { by destruct (has_id _ _ _). }
    destruct (_ && _); cbn; [|by destruct w]. by destruct (has_id _ _ _).
  - unfold get_room_task, get_room. cbn.
    destruct (negb _); [done|]. cbn. by destruct (getRoomById _ _).
  - unfold post_message_task, post_message. cbn.
    destruct (negb _); [done|].
    destruct (insertMessageSchema_parse _ _ _); [|done]. cbn.
    by destruct (createMessage _ _ _ _) as [[m d]|].
  - unfold get_messages_task, get_messages. cbn. by destruct (negb _).
  - unfold transcribe_task, transcribe.
    destruct (negb audioFile); [done|]. cbn.
    destruct (negb _); [done|]. cbn.
    by destruct (createMessage _ _ _ _) as [[m d]|].
  - unfold generate_resolutions_task, generate_resolutions. cbn.
    destruct (negb _); [done|].
    destruct (checkResolutionLimit _ _ _) as [limit counts].
    destruct (negb _); [done|]. cbn.
    case_bool_decide; [done|]. cbn.
    destruct (generateResolutions _ _) as [[aiResponse|err] calls]; [|done]. cbn.
    by destruct (createResolutions _ _ _ _) as [[savedResolutions d]|].
  - unfold vote_task, vote. cbn.
    destruct (negb _); [done|]. cbn.
    destruct (getUserVote _ _ _); [done|]. cbn.
    destruct (createVote _ _ _ _) as [[v d]|]; [|done]. cbn.
    case_bool_decide; [|done]. by case_bool_decide.
Qed.

Lemma run_on_message_task c m w :
  run_task (on_message_task c m w).2 (on_message_task c m w).1
  = ((on_message c w m).2, (on_message c w m).1).
Proof.
  destruct m; try done. cbn.
  case_bool_decide; [done|]. cbn.
  destruct (getRoomById _ _) as [room|]; [|done].
  by destruct (negb _).
Qed.

(** A list of events is a run of the server. *)
Lemma play_istep events s : rtc istep s (play events s).
Proof.
  revert s. induction events as [|ev events IH]; intros s; [done|].
  eapply rtc_l; [apply (istep_occur s ev)|]. apply IH.
Qed.

(** A handler resumed until it ends, with nothing in between, leaves the
    world and the answer of the handler run at once. *)
Lemma served_alone (t : Task Response) :
  ∀ w hs i, hs !! i = Some (serving t) →
    rtc istep (w, hs) ((run_task t w).1, <[i := serving (finished (run_task t w).2)]> hs).
Proof.
  induction t as [r|k IH] using Task_induction; intros w hs i Hi.
  - cbn. by rewrite list_insert_id.
  - eapply rtc_l; [apply (istep_occur _ (resumed i))|].
    cbn. rewrite Hi. cbn. destruct (k w) as [w' t] eqn:Hk.
    specialize (IH w). rewrite Hk in IH. cbn in IH.
    specialize (IH w' (<[i := serving t]> hs) i).
    rewrite list_insert_insert_eq in IH. apply IH.
    apply list_lookup_insert_eq. by eapply lookup_lt_Some.
Qed.

Lemma received_alone (t : Task Conn) :
  ∀ w hs i, hs !! i = Some (receiving t) →
    rtc istep (w, hs) ((run_task t w).1, <[i := receiving (finished (run_task t w).2)]> hs).
Proof.
  induction t as [r|k IH] using Task_induction; intros w hs i Hi.
  - cbn. by rewrite list_insert_id.
  - eapply rtc_l; [apply (istep_occur _ (resumed i))|].
    cbn. rewrite Hi. cbn. destruct (k w) as [w' t] eqn:Hk.
    specialize (IH w). rewrite Hk in IH. cbn in IH.
    specialize (IH w' (<[i := receiving t]> hs) i).
    rewrite list_insert_insert_eq in IH. apply IH.
    apply list_lookup_insert_eq. by eapply lookup_lt_Some.
Qed.

(** The serial server is the server in general when every handler ends
    before the next event: each [step] is a run of [istep], whatever
    handlers are waiting, and those are left as they are. *)
Lemma step_istep w w' :
  step w w' → ∀ hs, ∃ h, rtc istep (w, hs) (w', hs ++ h).
Proof.
  intros Hstep hs. destruct Hstep as [rq w|c w m|c w].
  - exists [serving (finished (handle rq w).2)].
    eapply rtc_l; [apply (istep_occur _ (requested rq))|]. cbn.
    rewrite <- run_task_of.
    pose proof (served_alone (task_of rq) w (hs ++ [serving (task_of rq)]) (length hs)) as Hrun.
    rewrite insert_app_r_alt, Nat.sub_diag in Hrun by lia. cbn in Hrun.
    apply Hrun. by rewrite lookup_app_r, Nat.sub_diag by lia.
  - exists [receiving (finished (on_message c w m).1)].
    eapply rtc_l; [apply (istep_occur _ (received c m))|]. cbn.
    destruct (on_message_task c m w) as [w1 t] eqn:Ht.
    pose proof (run_on_message_task c m w) as Hsame. rewrite Ht in Hsame. cbn in Hsame.
    pose proof (received_alone t w1 (hs ++ [receiving t]) (length hs)) as Hrun.
    rewrite insert_app_r_alt, Nat.sub_diag, Hsame in Hrun by lia. cbn in Hrun.
    apply Hrun. by rewrite lookup_app_r, Nat.sub_diag by lia.
  - exists []. rewrite app_nil_r. apply rtc_once, (istep_occur (w, hs) (closed c)).
Qed.

Lemma rtc_step_istep w w' :
  rtc step w w' → ∀ hs, ∃ h, rtc istep (w, hs) (w', hs ++ h).
Proof.
  induction 1 as [w|w w1 w' Hstep _ IH]; intros hs.
  - exists []. by rewrite app_nil_r.
  - destruct (step_istep _ _ Hstep hs) as [h1 Hfirst].
    destruct (IH (hs ++ h1)) as [h2 Hrest].
    exists (h1 ++ h2). rewrite app_assoc. by etrans.
Qed.

(** ** The real-time channel *)

Lemma wire_notify roomClients excludeUserId frame w :
  wire (notify roomClients excludeUserId frame w)
  = wire w ++ ((λ s, (s, frame)) <$> recipients w roomClients excludeUserId).
Proof. reflexivity. Qed.

Lemma wire_broadcastToRoom roomId m excludeUserId w :
  wire (broadcastToRoom roomId m excludeUserId w) = wire w ++ fanout w roomId m excludeUserId.
Proof.
  unfold broadcastToRoom, fanout.
  destruct (roomConnections w !! roomId); [reflexivity|].
  by rewrite app_nil_r.
Qed.

(** A broadcast writes nothing but frames: the tables, the registry, the
    counters and the sockets stay as they are. *)
Lemma broadcastToRoom_frame roomId m excludeUserId w :
  broadcastToRoom roomId m excludeUserId w
  = set_wire (λ l, l ++ fanout w roomId m excludeUserId) w.
Proof.
  unfold broadcastToRoom, fanout, notify.
  destruct (roomConnections w !! roomId); [reflexivity|].
  destruct w; unfold set_wire; cbn. by rewrite app_nil_r.
Qed.

(** Every open connection of the room, but the excluded one, gets the frame. *)
Lemma fanout_reaches w roomId m excludeUserId roomClients userId client :
  roomConnections w !! roomId = Some roomClients →
  roomClients !! userId = Some client →
  Some userId ≠ excludeUserId →
  readyState w (ws client) = OPEN →
  (ws client, event m) ∈ fanout w roomId m excludeUserId.
Proof.
  intros Hroom Hclient Hother Hopen. unfold fanout, recipients. rewrite Hroom.
  apply list_elem_of_fmap. exists (ws client). split; [done|].
  apply list_elem_of_fmap. exists (userId, client). split; [done|].
  apply list_elem_of_filter. split; [by split|].
  by apply elem_of_map_to_list.
Qed.

Lemma elem_of_recipients w roomClients excludeUserId s :
  s ∈ recipients w roomClients excludeUserId
  ↔ ∃ userId client,
      roomClients !! userId = Some client ∧ ws client = s
      ∧ Some userId ≠ excludeUserId ∧ readyState w s = OPEN.
Proof.
  unfold recipients. rewrite list_elem_of_fmap. split.
  - intros ([userId client] & -> & Hin). apply list_elem_of_filter in Hin as [[Hother Hopen] Hin].
    apply elem_of_map_to_list in Hin. by exists userId, client.
  - intros (userId & client & Hin & <- & Hother & Hopen). exists (userId, client).
    split; [done|]. apply list_elem_of_filter. split; [done|]. by apply elem_of_map_to_list.
Qed.

Lemma elem_of_frames w roomClients excludeUserId (frame : Frame) s f :
  (s, f) ∈ (λ s, (s, frame)) <$> recipients w roomClients excludeUserId
  ↔ f = frame
    ∧ ∃ userId client,
        roomClients !! userId = Some client ∧ ws client = s
        ∧ Some userId ≠ excludeUserId ∧ readyState w s = OPEN.
Proof.
  rewrite list_elem_of_fmap. setoid_rewrite elem_of_recipients. split.
  - intros (s' & [= -> ->] & Hs). done.
  - intros (-> & Hs). by exists s.
Qed.

Lemma broadcast_reaches_exactly w roomId m excludeUserId :
  ∃ frames,
    broadcastToRoom roomId m excludeUserId w = set_wire (λ l, l ++ frames) w
    ∧ ∀ s f, (s, f) ∈ frames
             ↔ f = event m
               ∧ ∃ userId client,
                   registered w roomId userId = Some client ∧ ws client = s
                   ∧ Some userId ≠ excludeUserId ∧ readyState w s = OPEN.
Proof.
  exists (fanout w roomId m excludeUserId). split; [apply broadcastToRoom_frame|].
  unfold fanout, registered.
  destruct (roomConnections w !! roomId) as [roomClients|]; cbn.
  - intros s f. apply elem_of_frames.
  - intros s f. rewrite elem_of_nil. split; [done|].
    by intros (_ & ? & ? & ? & _).
Qed.

Lemma registry_ok_unregister c w : registry_ok w → registry_ok (unregister c w).
Proof.
  intros Hok. unfold unregister.
  destruct (negb (falsy (currentRoomId c)) && truthy (authenticatedUserId c)); [|done].
  set (roomId := default "" (currentRoomId c)).
  destruct (roomConnections w !! roomId) as [roomClients|] eqn:Hroom; [|done].
  case_bool_decide as Hsize; intros r rc; cbn.
  - rewrite lookup_delete. case_decide; [done|].
    rewrite lookup_insert_ne by done. apply Hok.
  - rewrite lookup_insert. case_decide.
    + intros [= <-]. by apply map_size_non_empty_iff.
    + apply Hok.
Qed.

Lemma registry_ok_on_message c w m : registry_ok w → registry_ok (on_message c w m).2.
Proof.
  intros Hok. destruct m; try done; cbn.
  - case_bool_decide; [done|].
    destruct (getRoomById (db w) roomId); [|done].
    destruct (negb (is_member t (authenticatedUserId c))); [done|].
    intros r rc; cbn. rewrite lookup_insert. case_decide.
    + intros [= <-]. apply insert_non_empty.
    + apply Hok.
  - by apply registry_ok_unregister.
Qed.

Lemma only_writes_refl w : only_writes w w.
Proof. exists []. destruct w; unfold set_wire; cbn. by rewrite app_nil_r. Qed.

Lemma only_writes_keeps w w' :
  only_writes w w' →
  roomConnections w' = roomConnections w
  ∧ db w' = db w
  ∧ resolutionCounts w' = resolutionCounts w
  ∧ readyState w' = readyState w
  ∧ hfCalls w' = hfCalls w.
Proof. by intros [frames ->]. Qed.

(** After an unregister the pair of the connection is not registered. *)
Lemma unregister_self c w :
  (∀ w', unregister c w' = w')
  ∨ (∀ roomId, currentRoomId c = Some roomId →
               registered (unregister c w) roomId (authenticatedUserId c) = None).
Proof.
  unfold unregister.
  destruct (currentRoomId c) as [roomId|] eqn:Hcur; cbn; [|by left].
  destruct (negb (negb (truthy roomId)) && truthy (authenticatedUserId c)); [|by left].
  right. intros ? [= <-]. unfold registered.
  destruct (roomConnections w !! roomId) as [roomClients|] eqn:Hroom.
  - case_bool_decide; cbn.
    + by rewrite lookup_delete_eq.
    + rewrite lookup_insert_eq. cbn. apply lookup_delete_eq.
  - by rewrite Hroom.
Qed.

(** Unregistering a pair that is not registered writes frames at most. *)
Lemma unregister_absent c w :
  registry_ok w →
  (∀ roomId, currentRoomId c = Some roomId →
             registered w roomId (authenticatedUserId c) = None) →
  only_writes w (unregister c w).
Proof.
  intros Hok Habsent. unfold unregister.
  pose proof (only_writes_refl w) as Hsame.
  destruct (currentRoomId c) as [roomId|] eqn:Hcur; cbn; [|done].
  specialize (Habsent roomId eq_refl). unfold registered in Habsent.
  destruct (negb (negb (truthy roomId)) && truthy (authenticatedUserId c)); [|done].
  destruct (roomConnections w !! roomId) as [roomClients|] eqn:Hroom; [|done].
  cbn in Habsent. rewrite (delete_id _ _ Habsent).
  rewrite bool_decide_eq_false_2 by (apply map_size_non_empty_iff; by eapply Hok).
  eexists. unfold notify, set_roomConnections, set_wire; cbn.
  rewrite insert_id by done. reflexivity.
Qed.

(** With no entry for the room, unregistering does nothing at all. *)
Lemma unregister_no_room c w :
  (∀ roomId, currentRoomId c = Some roomId → roomConnections w !! roomId = None) →
  unregister c w = w.
Proof.
  intros Hnone. unfold unregister.
  destruct (currentRoomId c) as [roomId|]; cbn; [|done].
  rewrite (Hnone roomId eq_refl). by destruct (_ && _).
Qed.

Lemma unregister_twice c w f :
  registry_ok w →
  let w1 := set_readyState f (unregister c w) in
  only_writes w1 (unregister c w1).
Proof.
  intros Hok w1. destruct (unregister_self c w) as [Hsame|Hgone].
  - rewrite Hsame. apply only_writes_refl.
  - apply unregister_absent; [|done].
    by apply (registry_ok_unregister c w).
Qed.

(** C9 (as amended): unregistering a (room, user) pair that has no live
    connection leaves the Connection Registry, and everything but the wire,
    unchanged, for [leave_room] and for the close of the connection alike; so
    does a second unregister after a first one; and where the registry has no
    entry for the room, which is the case once its last connection has left,
    nothing is written either. *)
Theorem unregister_absent_keeps_registry (c : Conn) (w : World) (roomId userId : string) :
  registry_ok w →
  let leave w := (on_message c w (leave_room roomId userId)).2 in
  let closed w :=
    set_readyState (λ state x, if decide (x = socket c) then CLOSED else state x) w in
  ((∀ r, currentRoomId c = Some r → registered w r (authenticatedUserId c) = None) →
     only_writes w (leave w)
     ∧ roomConnections (leave w) = roomConnections w
     ∧ only_writes (closed w) (on_close c w)
     ∧ roomConnections (on_close c w) = roomConnections w)
  ∧ only_writes (leave w) (leave (leave w))
  ∧ roomConnections (leave (leave w)) = roomConnections (leave w)
  ∧ only_writes (closed (leave w)) (on_close c (leave w))
  ∧ roomConnections (on_close c (leave w)) = roomConnections (leave w)
  ∧ ((∀ r, currentRoomId c = Some r → roomConnections w !! r = None) →
     leave w = w ∧ on_close c w = closed w).
Proof.
  intros Hok leave closed. cbn in leave. subst leave. cbn beta.
  assert (Hleave : only_writes (unregister c w) (unregister c (unregister c w))).
  { destruct (unregister_twice c w (λ state, state) Hok) as [frames Hframes].
    exists frames. etrans; [|exact Hframes]. by destruct (unregister c w). }
  pose proof (unregister_twice c w _ Hok : only_writes (closed (unregister c w)) _) as Hclose.
  split; [|split; [|split; [|split; [|split]]]]; try done.
  - intros Habsent.
    pose proof (unregister_absent c w Hok Habsent) as Hleave1.
    pose proof (unregister_absent c (closed w) Hok Habsent) as Hclose1.
    split; [done|]. split; [by apply only_writes_keeps in Hleave1 as [? _]|].
    split; [done|]. by apply only_writes_keeps in Hclose1 as [? _].
  - by apply only_writes_keeps in Hleave as [? _].
  - by apply only_writes_keeps in Hclose as [? _].
  - intros Hnone. split; by apply unregister_no_room.
Qed.

Lemma registry_ok_session msgs vs : registry_ok (session msgs vs).
Proof.
  intros roomId roomClients. cbn. unfold both_connected.
  intros [_ <-]%lookup_singleton_Some. apply insert_non_empty.
Qed.

Lemma unregister_absent_keeps_registry_witness :
  registry_ok (session four_messages [])
  ∧ let w1 := (on_message ann_conn (session four_messages []) (leave_room "r0" "u1")).2 in
    roomConnections (on_message ann_conn w1 (leave_room "r0" "u1")).2 = roomConnections w1.
Proof.
  split; [apply registry_ok_session|].
  exact (proj1 (proj2 (proj2 (unregister_absent_keeps_registry ann_conn
                                (session four_messages []) "r0" "u1"
                                (registry_ok_session four_messages []))))).
Defined.

(** C9 (as stated) fails: Ann leaves r0 while Bob stays connected; her pair is
    then absent from the registry, and yet a second [leave_room], or the close
    of her connection, writes [user_left] to Bob's socket once more. *)
Lemma second_unregister_notifies_again :
  let w := session four_messages [] in
  let w1 := (on_message ann_conn w (leave_room "r0" "u1")).2 in
  wire w1 = [(2%nat, event (user_left "u1"))]
  ∧ registered w1 "r0" "u1" = None
  ∧ wire (on_message ann_conn w1 (leave_room "r0" "u1")).2
    = wire w1 ++ [(2%nat, event (user_left "u1"))]
  ∧ wire (on_close ann_conn w1) = wire w1 ++ [(2%nat, event (user_left "u1"))].
Proof. vm_compute. repeat split. Qed.

(** C6: a [join_room] whose user differs from the authenticated one is
    refused: the connection gets the error frame and is closed, it keeps the
    room it had, the registry and every table stay as they are, and no
    [user_joined] is written, the error frame being the only one. *)
Theorem join_room_mismatch_is_rejected (c : Conn) (w : World)
    (roomId userId userName : string) :
  userId ≠ authenticatedUserId c →
  let r := on_message c w (join_room roomId userId userName) in
  r.1 = c
  ∧ roomConnections r.2 = roomConnections w
  ∧ (∀ room user, registered r.2 room user = registered w room user)
  ∧ db r.2 = db w
  ∧ wire r.2 = wire w ++ [(socket c, error "User ID mismatch")]
  ∧ readyState r.2 (socket c) ≠ OPEN
  ∧ (readyState w (socket c) = OPEN → readyState r.2 (socket c) = CLOSING)
  ∧ (∀ s, s ≠ socket c → readyState r.2 s = readyState w s).
Proof.
  intros Hmismatch r. subst r. cbn.
  rewrite bool_decide_eq_true_2 by done. cbn.
  repeat split; try done.
  - rewrite decide_True by done. by destruct (readyState w (socket c)).
  - intros ->. by rewrite decide_True.
  - intros s Hs. by rewrite decide_False.
Qed.

Lemma join_room_mismatch_is_rejected_witness :
  "u1" ≠ authenticatedUserId (mkConn 3%nat "u3" None)
  ∧ let r := on_message (mkConn 3%nat "u3" None) (session four_messages [])
               (join_room "r0" "u1" "Ann") in
    roomConnections r.2 = both_connected
    ∧ wire r.2 = [(3%nat, error "User ID mismatch")]
    ∧ readyState r.2 3%nat = CLOSING.
Proof.
  assert (Hne : "u1" ≠ authenticatedUserId (mkConn 3%nat "u3" None)) by done.
  split; [exact Hne|].
  destruct (join_room_mismatch_is_rejected (mkConn 3%nat "u3" None)
              (session four_messages []) "r0" "u1" "Ann" Hne)
    as (_ & Hreg & _ & _ & Hwire & _ & Hclosing & _).
  split; [exact Hreg|]. split; [exact Hwire|]. by apply Hclosing.
Defined.

(** ** The tables *)

Section head_filter.
Context {A : Type} (P : A → Prop) `{!∀ x, Decision (P x)}.

Lemma head_filter_elem_of (l : list A) (x : A) :
  head (filter P l) = Some x → x ∈ l ∧ P x.
Proof.
  intros Hhead. apply head_Some_elem_of in Hhead.
  apply list_elem_of_filter in Hhead. tauto.
Qed.

Lemma head_filter_None (l : list A) :
  head (filter P l) = None ↔ ∀ x, x ∈ l → ¬ P x.
Proof.
  rewrite head_None. split.
  - intros Hnil x Hx HP. by eapply filter_nil_not_elem_of.
  - intros Hnone. induction l as [|y l IH]; [done|].
    rewrite filter_cons_False by (apply Hnone; left).
    apply IH. intros x Hx. apply Hnone. by right.
Qed.

(** A row appended to the table is found only if no older row matches. *)
Lemma head_filter_snoc (l : list A) (x : A) :
  head (filter P (l ++ [x]))
  = match head (filter P l) with
    | Some y => Some y
    | None => if decide (P x) then Some x else None
    end.
Proof.
  rewrite filter_app, filter_cons, filter_nil, head_app.
  destruct (filter P l); [|done]. by case_decide.
Qed.

(** An update that keeps what the query reads keeps which row it finds. *)
Lemma head_filter_fmap (g : A → A) (l : list A) :
  (∀ x, P (g x) ↔ P x) →
  head (filter P (g <$> l)) = g <$> head (filter P l).
Proof.
  intros Hkeep. induction l as [|x l IH]; [done|].
  rewrite fmap_cons, !filter_cons.
  destruct (decide (P x)) as [HP|HP].
  - by rewrite decide_True by by apply Hkeep.
  - by rewrite decide_False by by rewrite Hkeep.
Qed.
End head_filter.

Lemma has_id_true {A} (key : A → string) (table : list A) (k : string) :
  has_id key table k = true ↔ ∃ x, x ∈ table ∧ key x = k.
Proof.
  unfold has_id. rewrite bool_decide_eq_true, list_elem_of_fmap.
  split; intros (x & ? & ?); by exists x.
Qed.

Lemma getRoomById_Some d id r :
  getRoomById d id = Some r → r ∈ rooms d ∧ Room.id r = id.
Proof. intros Hr. by apply (head_filter_elem_of (λ r, Room.id r = id)) in Hr. Qed.

Lemma getRoomById_has_id d id r : getRoomById d id = Some r → has_id Room.id (rooms d) id = true.
Proof. intros Hr. apply has_id_true. exists r. by apply getRoomById_Some. Qed.

(** With unique identifiers a row is the one its identifier finds. *)
Lemma getRoomById_unique d r :
  NoDup (Room.id <$> rooms d) → r ∈ rooms d → getRoomById d (Room.id r) = Some r.
Proof.
  unfold getRoomById. induction (rooms d) as [|x l IH]; intros Hnodup Hin.
  - by apply elem_of_nil in Hin.
  - rewrite fmap_cons in Hnodup. apply NoDup_cons in Hnodup as [Hfresh Hnodup].
    rewrite filter_cons. apply elem_of_cons in Hin as [->|Hin].
    + by rewrite decide_True.
    + rewrite decide_False; [by apply IH|].
      intros Heq. apply Hfresh. rewrite Heq. by apply list_elem_of_fmap_2.
Qed.

Lemma getRoomById_update_room d roomId f id :
  keep_id f →
  getRoomById (update_room roomId f d) id
  = (λ r, if decide (Room.id r = roomId) then f r else r) <$> getRoomById d id.
Proof.
  intros Hkeep. unfold getRoomById, update_room. cbn.
  apply (head_filter_fmap (λ r, Room.id r = id)).
  intros r. case_decide; [by rewrite Hkeep|done].
Qed.

Lemma keep_id_set_participant1Id p : keep_id (set_participant1Id p).
Proof. done. Qed.
Lemma keep_id_set_participant2Id p : keep_id (set_participant2Id p).
Proof. done. Qed.
Lemma keep_id_set_status s t : keep_id (set_status s t).
Proof. done. Qed.

Lemma update_room_ids d roomId f :
  keep_id f → Room.id <$> rooms (update_room roomId f d) = Room.id <$> rooms d.
Proof.
  intros Hkeep. cbn. rewrite <- list_fmap_compose. apply list_fmap_ext.
  intros _ r _. cbn. case_decide; [apply Hkeep|done].
Qed.

(** *** What one write keeps *)

Ltac split_op H :=
  unfold createRoom, createMessage, createResolutions, createVote, updateRoomParticipant in H;
  repeat (case_match; try discriminate H); simplify_eq.

Ltac split_ops :=
  repeat match goal with
         | H : _ = Ok _ |- _ => progress (split_op H)
         end.

Lemma db_op_users d d' : db_op d d' → users d' = users d.
Proof. intros Hop. destruct Hop; split_ops; done. Qed.

Lemma db_op_resolutions_prefix d d' : db_op d d' → resolutions d `prefix_of` resolutions d'.
Proof.
  intros Hop. destruct Hop; split_ops; try done.
  cbn. by apply prefix_app_r.
Qed.

Lemma getUserVote_None d roomId userId :
  getUserVote d roomId userId = None ↔ (roomId, userId) ∉ vote_key <$> votes d.
Proof.
  unfold getUserVote.
  rewrite (head_filter_None (λ v, Vote.roomId v = roomId ∧ Vote.userId v = userId)).
  rewrite list_elem_of_fmap. unfold vote_key. split.
  - intros Hnone (v & [= -> ->] & Hv). by eapply Hnone.
  - intros Hnone v Hv [<- <-]. apply Hnone. by exists v.
Qed.

Lemma db_op_votes d d' :
  db_op d d' → votes d `prefix_of` votes d' ∧ (one_vote_each d → one_vote_each d').
Proof.
  intros Hop. destruct Hop as [| | | | |d uuid now v created d' Hnone Hnew];
    split_ops; try done.
  cbn. split; [by apply prefix_app_r|].
  unfold one_vote_each. cbn. rewrite fmap_app. intros Hnodup.
  apply NoDup_app. split; [done|]. split; [|apply NoDup_singleton].
  intros key Hkey [= ->]%list_elem_of_singleton.
  by apply getUserVote_None in Hnone.
Qed.

Lemma keeps_seats_refl r : keeps_seats r r.
Proof. by repeat split. Qed.

Lemma keeps_seats_trans r1 r2 r3 : keeps_seats r1 r2 → keeps_seats r2 r3 → keeps_seats r1 r3.
Proof.
  intros (? & ? & ? & ? & H12) (? & ? & ? & ? & H23).
  repeat split; try congruence.
  intros Hsome. rewrite H23; [by apply H12|]. by rewrite H12.
Qed.

Lemma room_ok_slot1 r : room_ok r → falsy (Room.participant1Id r) = false.
Proof.
  intros (-> & Hcreator & _). cbn. unfold truthy.
  by rewrite bool_decide_eq_true_2.
Qed.

Lemma room_ok_slot2 r : room_ok r → falsy (Room.participant2Id r) = true → Room.participant2Id r = None.
Proof.
  intros (_ & _ & Hempty & _). destruct (Room.participant2Id r) as [p|]; [|done].
  cbn. unfold truthy. case_bool_decide; [done|].
  intros _. destruct Hempty. f_equal. by destruct (decide (p = "")).
Qed.

Lemma db_ok_room d id r : db_ok d → getRoomById d id = Some r → room_ok r.
Proof.
  intros (_ & _ & Hrooms) [Hin _]%getRoomById_Some.
  by eapply Forall_forall in Hrooms.
Qed.

(** Taking the second slot, the one write [updateRoomParticipant] makes to a
    room of a well-formed database. *)
Lemma updateRoomParticipant_Ok d roomId participantId d' :
  db_ok d →
  updateRoomParticipant d roomId participantId = Ok d' →
  d' = d
  ∨ ∃ room, getRoomById d roomId = Some room
            ∧ Room.participant2Id room = None
            ∧ Room.participant1Id room ≠ Some participantId
            ∧ has_id User.id (users d) participantId = true
            ∧ d' = update_room roomId (set_participant2Id participantId) d.
Proof.
  intros Hok Hupdate. unfold updateRoomParticipant in Hupdate.
  destruct (getRoomById d roomId) as [room|] eqn:Hroom; [|done].
  rewrite (room_ok_slot1 room) in Hupdate by by eapply db_ok_room.
  destruct (falsy (Room.participant2Id room)) eqn:Hslot2; cbn in Hupdate.
  - case_bool_decide; cbn in Hupdate; [|left; congruence].
    destruct (has_id User.id (users d) participantId) eqn:Huser; [|done].
    right. exists room. repeat split; try done; [|congruence].
    apply room_ok_slot2; [|done]. by eapply db_ok_room.
  - left. congruence.
Qed.

(** What a successful insert has checked and written. *)
Lemma createRoom_Ok d uuid now insertRoom room d' :
  createRoom d uuid now insertRoom = Ok (room, d') →
  has_id Room.id (rooms d) uuid = false
  ∧ has_id User.id (users d) (InsertRoom.createdBy insertRoom) = true
  ∧ room = Room.mk uuid (InsertRoom.code insertRoom) (InsertRoom.createdBy insertRoom)
             (InsertRoom.participant1Id insertRoom) (InsertRoom.participant2Id insertRoom)
             (default "active" (InsertRoom.status insertRoom)) None now
  ∧ d' = set_rooms (λ t, t ++ [room]) d.
Proof.
  intros Hnew. unfold createRoom in Hnew.
  destruct (has_id Room.id (rooms d) uuid); [done|].
  repeat (case_bool_decide; [done|]).
  destruct (has_id User.id (users d) (InsertRoom.createdBy insertRoom)); [|done].
  destruct (negb _); [done|]. simplify_eq. by repeat (split; [reflexivity|]).
Qed.

Lemma createVote_Ok d uuid now insertVote v d' :
  createVote d uuid now insertVote = Ok (v, d') →
  has_id Vote.id (votes d) uuid = false
  ∧ has_id Room.id (rooms d) (InsertVote.roomId insertVote) = true
  ∧ has_id Resolution.id (resolutions d) (InsertVote.resolutionId insertVote) = true
  ∧ has_id User.id (users d) (InsertVote.userId insertVote) = true
  ∧ v = Vote.mk uuid (InsertVote.roomId insertVote) (InsertVote.resolutionId insertVote)
          (InsertVote.userId insertVote) now
  ∧ d' = set_votes (λ t, t ++ [v]) d.
Proof.
  intros Hnew. unfold createVote in Hnew.
  destruct (has_id Vote.id (votes d) uuid); [done|].
  destruct (has_id Room.id _ _); [|done].
  destruct (has_id Resolution.id _ _); [|done].
  destruct (has_id User.id _ _); [|done].
  cbn in Hnew. simplify_eq. by repeat (split; [reflexivity|]).
Qed.

Lemma db_op_room d d' id r :
  db_op d d' → db_ok d → getRoomById d id = Some r →
  ∃ r', getRoomById d' id = Some r' ∧ keeps_seats r r'.
Proof.
  intros Hop Hok Hr.
  destruct Hop as [d uuid now code userId room d' Hnew|d roomId p d' Hjoin|
                   d roomId status resolvedAt| | |].
  - split_op Hnew. exists r. split; [|apply keeps_seats_refl].
    unfold getRoomById in *. cbn.
    rewrite (head_filter_snoc (λ r, Room.id r = id)). by rewrite Hr.
  - apply (updateRoomParticipant_Ok _ _ _ _ Hok) in Hjoin
      as [->|(room & Hroom & Hfree & _ & _ & ->)];
      [exists r; split; [done|apply keeps_seats_refl]|].
    rewrite getRoomById_update_room, Hr by done. cbn.
    eexists. split; [done|]. case_decide as Hid; [|apply keeps_seats_refl].
    apply getRoomById_Some in Hr as Hr'. destruct Hr' as [_ Hid'].
    assert (r = room) as -> by congruence.
    repeat split; try done. rewrite Hfree. by intros [? ?].
  - unfold updateRoomStatus. rewrite getRoomById_update_room, Hr by done. cbn.
    eexists. split; [done|]. case_decide; [|apply keeps_seats_refl]. by repeat split.
  - split_ops. exists r. split; [done|apply keeps_seats_refl].
  - split_ops. exists r. split; [done|apply keeps_seats_refl].
  - split_ops. exists r. split; [done|apply keeps_seats_refl].
Qed.

Lemma db_op_ok d d' : db_op d d' → db_ok d → db_ok d'.
Proof.
  intros Hop Hok.
  destruct Hop as [d uuid now code userId room d' Hnew|d roomId p d' Hjoin|
                   d roomId status resolvedAt| | |].
  - destruct Hok as (Hids & Husers & Hrooms).
    apply createRoom_Ok in Hnew as (Hfresh & Huser & -> & ->). cbn in Huser.
    repeat split; try done; cbn.
    + rewrite fmap_app. apply NoDup_app. split; [done|]. split; [|apply NoDup_singleton].
      intros k Hk [= ->]%list_elem_of_singleton.
      apply not_true_iff_false in Hfresh. apply Hfresh.
      unfold has_id. by apply bool_decide_eq_true.
    + apply Forall_app. split; [done|]. apply Forall_singleton.
      repeat split; try done. cbn. intros ->.
      apply Husers. unfold has_id in Huser. by apply bool_decide_eq_true in Huser.
  - pose proof Hok as (Hids & Husers & Hrooms).
    apply (updateRoomParticipant_Ok _ _ _ _ Hok) in Hjoin
      as [->|(room & Hroom & Hfree & Hother & Huser & ->)]; [done|].
    repeat split; try done.
    + by rewrite update_room_ids.
    + cbn. apply Forall_fmap, Forall_forall. intros r Hr. cbn.
      pose proof (proj1 (Forall_forall _ _) Hrooms r Hr) as Hrok.
      case_decide as Hid; [|done].
      assert (r = room) as ->.
      { pose proof (getRoomById_unique d r Hids Hr). congruence. }
      destruct Hrok as (Hslot1 & Hcreator & _ & _). repeat split; cbn; try done.
      * intros [= ->]. apply Husers.
        unfold has_id in Huser. by apply bool_decide_eq_true in Huser.
      * intros [= ->]. apply Hother. by rewrite Hslot1.
  - destruct Hok as (Hids & Husers & Hrooms). unfold updateRoomStatus.
    repeat split; try done.
    + by rewrite update_room_ids.
    + cbn. apply Forall_fmap. eapply Forall_impl; [exact Hrooms|].
      intros r Hr. cbn. by case_decide.
  - destruct Hok as (Hids & Husers & Hrooms). by split_ops.
  - destruct Hok as (Hids & Husers & Hrooms). by split_ops.
  - destruct Hok as (Hids & Husers & Hrooms). by split_ops.
Qed.

(** *** What one step of the server writes *)

Lemma db_broadcastToRoom roomId m excludeUserId w :
  db (broadcastToRoom roomId m excludeUserId w) = db w.
Proof. by rewrite broadcastToRoom_frame. Qed.

Lemma db_unregister c w : db (unregister c w) = db w.
Proof.
  unfold unregister. destruct (_ && _); [|done].
  destruct (roomConnections w !! _); [|done]. by case_bool_decide.
Qed.

Lemma db_on_message c w m : db (on_message c w m).2 = db w.
Proof.
  destruct m; try done; cbn.
  - case_bool_decide; [done|]. destruct (getRoomById (db w) roomId); [|done].
    by destruct (negb _).
  - apply db_unregister.
Qed.

Lemma db_vote e w userId roomId resolutionId :
  rtc db_op (db w) (db (vote e w userId roomId resolutionId).1).
Proof.
  unfold vote. destruct (negb _); [done|].
  destruct (getUserVote (db w) roomId userId) eqn:Hnone; [done|].
  destruct (createVote _ _ _ _) as [[v d]|] eqn:Hnew; [|done].
  eapply rtc_l; [eapply op_createVote; [|exact Hnew]; exact Hnone|].
  cbn. repeat case_bool_decide; repeat first [rewrite db_broadcastToRoom | progress cbn]; try done.
  apply rtc_once, op_updateRoomStatus.
Qed.

Lemma db_generate_resolutions e w userId roomId :
  rtc db_op (db w) (db (generate_resolutions e w userId roomId).1).
Proof.
  unfold generate_resolutions. destruct (negb _); [done|].
  destruct (checkResolutionLimit _ _ _) as [limit counts].
  destruct (negb _); [done|]. case_bool_decide; [done|].
  destruct (generateResolutions _ _) as [[aiResponse|err] calls]; [|done].
  cbn. destruct (createResolutions _ _ _ _) as [[saved d]|] eqn:Hnew; [|done].
  cbn. rewrite db_broadcastToRoom. cbn. by eapply rtc_once, op_createResolutions.
Qed.

Lemma db_handle rq w : rtc db_op (db w) (db (handle rq w).1).
Proof.
  destruct rq; cbn.
  - unfold create_room.
    destruct (createRoom _ _ _ _) as [[room d]|] eqn:Hnew; [|done].
    by eapply rtc_once, op_createRoom.
  - unfold join_room_by_code. destruct (getRoomByCode _ _); [|done].
    destruct (updateRoomParticipant _ _ _) eqn:Hjoin; [|done].
    by eapply rtc_once, op_updateRoomParticipant.
  - unfold get_room. destruct (negb _); [done|]. by destruct (getRoomById _ _).
  - unfold post_message. destruct (negb _); [done|].
    destruct (insertMessageSchema_parse _); [|done].
    destruct (createMessage _ _ _ _) as [[m d]|] eqn:Hnew; [|done].
    cbn. rewrite db_broadcastToRoom. by eapply rtc_once, op_createMessage.
  - unfold get_messages. by destruct (negb _).
  - unfold transcribe. destruct (negb audioFile); [done|]. destruct (negb _); [done|].
    destruct (createMessage _ _ _ _) as [[m d]|] eqn:Hnew; [|done].
    cbn. rewrite db_broadcastToRoom. by eapply rtc_once, op_createMessage.
  - apply db_generate_resolutions.
  - apply db_vote.
Qed.

Lemma step_db w w' : step w w' → rtc db_op (db w) (db w').
Proof.
  intros [rq ?|c ? m|c ?].
  - apply db_handle.
  - by rewrite db_on_message.
  - unfold on_close. by rewrite db_unregister.
Qed.

Lemma rtc_db_op_ok d d' : rtc db_op d d' → db_ok d → db_ok d'.
Proof. induction 1; eauto using db_op_ok. Qed.

Lemma rtc_db_op_room d d' id r :
  rtc db_op d d' → db_ok d → getRoomById d id = Some r →
  ∃ r', getRoomById d' id = Some r' ∧ keeps_seats r r'.
Proof.
  intros Hops. revert r. induction Hops as [d|d d1 d' Hop _ IH]; intros r Hok Hr.
  - exists r. split; [done|apply keeps_seats_refl].
  - destruct (db_op_room _ _ _ _ Hop Hok Hr) as (r1 & Hr1 & Hkeep1).
    destruct (IH r1 (db_op_ok _ _ Hop Hok) Hr1) as (r' & Hr' & Hkeep).
    exists r'. split; [done|]. by eapply keeps_seats_trans.
Qed.

Lemma rtc_db_op_votes d d' :
  rtc db_op d d' → votes d `prefix_of` votes d' ∧ (one_vote_each d → one_vote_each d').
Proof.
  induction 1 as [d|d d1 d' Hop _ [IHprefix IH]]; [done|].
  destruct (db_op_votes _ _ Hop) as [Hprefix Hone].
  split; [by etrans|]. auto.
Qed.

Lemma rtc_db_op_users d d' : rtc db_op d d' → users d' = users d.
Proof.
  induction 1 as [d|d d1 d' Hop _ IH]; [done|].
  by rewrite IH, (db_op_users _ _ Hop).
Qed.

(** ** Slots *)

Lemma occupants_length r : (length (occupants r) ≤ 2)%nat.
Proof.
  unfold occupants. destruct (Room.participant1Id r), (Room.participant2Id r); cbn; lia.
Qed.

Lemma elem_of_occupants r p :
  p ∈ occupants r ↔ Room.participant1Id r = Some p ∨ Room.participant2Id r = Some p.
Proof.
  unfold occupants.
  destruct (Room.participant1Id r), (Room.participant2Id r); cbn;
    rewrite ?elem_of_cons, ?elem_of_nil; intuition congruence.
Qed.

Lemma keeps_seats_occupants r r' : keeps_seats r r' → occupants r ⊆ occupants r'.
Proof.
  intros (_ & _ & _ & Hslot1 & Hslot2) p. rewrite !elem_of_occupants.
  intros [Hp|Hp]; [left; congruence|right].
  rewrite Hslot2; [done|]. by rewrite Hp.
Qed.

(** Slot 1 empty: the participant takes it. *)
Lemma updateRoomParticipant_slot1 d roomId room p :
  getRoomById d roomId = Some room →
  falsy (Room.participant1Id room) = true →
  has_id User.id (users d) p = true →
  updateRoomParticipant d roomId p = Ok (update_room roomId (set_participant1Id p) d)
  ∧ getRoomById (update_room roomId (set_participant1Id p) d) roomId
    = Some (set_participant1Id p room).
Proof.
  intros Hroom Hempty Huser. unfold updateRoomParticipant.
  rewrite Hroom, Hempty, Huser. split; [done|].
  rewrite getRoomById_update_room, Hroom by done. cbn.
  apply getRoomById_Some in Hroom as [_ Hid]. by rewrite decide_True.
Qed.

(** Slot 1 taken, slot 2 empty: any other participant takes slot 2. *)
Lemma updateRoomParticipant_slot2 d roomId room p :
  db_ok d →
  getRoomById d roomId = Some room →
  Room.participant2Id room = None →
  p ∉ occupants room →
  has_id User.id (users d) p = true →
  updateRoomParticipant d roomId p = Ok (update_room roomId (set_participant2Id p) d)
  ∧ getRoomById (update_room roomId (set_participant2Id p) d) roomId
    = Some (set_participant2Id p room).
Proof.
  intros Hok Hroom Hfree Hother Huser. unfold updateRoomParticipant.
  rewrite Hroom, (room_ok_slot1 room) by by eapply db_ok_room.
  rewrite Hfree. cbn. rewrite bool_decide_eq_true_2.
  - rewrite Huser. split; [done|].
    rewrite getRoomById_update_room, Hroom by done. cbn.
    apply getRoomById_Some in Hroom as [_ Hid]. by rewrite decide_True.
  - intros Hp. apply Hother, elem_of_occupants. by left.
Qed.

(** Assigning somebody who sits in the room already changes nothing. *)
Lemma updateRoomParticipant_seated d roomId room p :
  db_ok d →
  getRoomById d roomId = Some room →
  p ∈ occupants room →
  updateRoomParticipant d roomId p = Ok d.
Proof.
  intros Hok Hroom Hp. unfold updateRoomParticipant.
  pose proof (db_ok_room _ _ _ Hok Hroom) as Hrok.
  rewrite Hroom, (room_ok_slot1 room) by done.
  apply elem_of_occupants in Hp as [Hp|Hp].
  - rewrite (bool_decide_eq_false_2 (_ ≠ _)) by (intros Hne; by apply Hne).
    by rewrite andb_false_r.
  - destruct (falsy (Room.participant2Id room)) eqn:Hfalsy; [|done].
    apply room_ok_slot2 in Hfalsy; [congruence|done].
Qed.

(** With both slots taken nobody is assigned. *)
Lemma updateRoomParticipant_full d roomId room p :
  db_ok d →
  getRoomById d roomId = Some room →
  is_Some (Room.participant2Id room) →
  updateRoomParticipant d roomId p = Ok d.
Proof.
  intros Hok Hroom [b Hb]. unfold updateRoomParticipant.
  pose proof (db_ok_room _ _ _ Hok Hroom) as Hrok.
  rewrite Hroom, (room_ok_slot1 room) by done.
  destruct (falsy (Room.participant2Id room)) eqn:Hfalsy; [|done].
  apply room_ok_slot2 in Hfalsy; [congruence|done].
Qed.

(** Along a run every world leads to the last one. *)
Lemma run_last ws w0 :
  run ws → head ws = Some w0 → db_ok (db w0) →
  ∃ wl, ∀ w, w ∈ ws → db_ok (db w) ∧ rtc db_op (db w) (db wl).
Proof.
  intros Hrun. revert w0. induction Hrun as [w|w w' l Hstep Hrun IH]; intros w0 [= <-] Hok.
  - exists w. by intros w' ->%list_elem_of_singleton.
  - pose proof (step_db _ _ Hstep) as Hops.
    destruct (IH w' eq_refl (rtc_db_op_ok _ _ Hops Hok)) as [wl Hwl].
    exists wl. intros w'' [->|Hin]%elem_of_cons; [|by apply Hwl].
    split; [done|]. etrans; [exact Hops|]. apply Hwl. by left.
Qed.

Lemma run_seats ws w0 roomId :
  run ws → head ws = Some w0 → db_ok (db w0) →
  ∃ seats, (length seats ≤ 2)%nat ∧ ∀ w, w ∈ ws → occupants_of (db w) roomId ⊆ seats.
Proof.
  intros Hrun Hhead Hok. destruct (run_last ws w0 Hrun Hhead Hok) as [wl Hwl].
  exists (occupants_of (db wl) roomId). split.
  - unfold occupants_of. destruct (getRoomById (db wl) roomId); cbn; [|lia].
    apply occupants_length.
  - intros w [Hwok Hops]%Hwl. unfold occupants_of at 1.
    destruct (getRoomById (db w) roomId) as [r|] eqn:Hr; cbn; [|by intros ? ?%elem_of_nil].
    destruct (rtc_db_op_room _ _ _ _ Hops Hwok Hr) as (r' & Hr' & Hkeep).
    unfold occupants_of. rewrite Hr'. cbn. by apply keeps_seats_occupants.
Qed.

Lemma db_ok_session msgs vs : db_ok (session_db msgs vs).
Proof.
  split; [|split].
  - apply (bool_decide_unpack _). by vm_compute.
  - apply (bool_decide_unpack _). by vm_compute.
  - repeat constructor; cbn; congruence.
Qed.

Lemma has_id_false_getRoomById d id : has_id Room.id (rooms d) id = false → getRoomById d id = None.
Proof.
  intros Hfresh. destruct (getRoomById d id) as [r|] eqn:Hr; [|done].
  apply getRoomById_has_id in Hr. congruence.
Qed.

(** A created room is found under its identifier, with its creator in slot 1
    and slot 2 empty. *)
Lemma create_room_Ok e w userId w' created :
  create_room e w userId = (w', json (room_json created)) →
  Room.createdBy created = userId
  ∧ Room.participant1Id created = Some userId
  ∧ Room.participant2Id created = None
  ∧ Room.status created = "active"
  ∧ getRoomById (db w') (Room.id created) = Some created
  ∧ db_op (db w) (db w').
Proof.
  unfold create_room. intros Hcreate.
  destruct (createRoom _ _ _ _) as [[room d]|] eqn:Hnew; [|done].
  injection Hcreate as <- <-.
  pose proof (op_createRoom _ _ _ _ _ _ _ Hnew) as Hop.
  apply createRoom_Ok in Hnew as (Hfresh & _ & -> & ->). cbn.
  repeat (split; [done|]). split; [|done].
  unfold getRoomById. cbn. rewrite (head_filter_snoc (λ r, Room.id r = uuid e 0%nat)).
  apply has_id_false_getRoomById in Hfresh. unfold getRoomById in Hfresh.
  rewrite Hfresh. by rewrite decide_True.
Qed.

(** The two slots of a room when every assignment ends before the next
    event.  In a well-formed database the creator holds slot 1 of every
    room; then
    assigning somebody who sits in the room already, the creator above all,
    changes nothing, the first other participant takes the empty slot 2, and
    once both slots are taken nobody else is assigned.  An empty slot 1
    goes to the first participant assigned.  Along every serial run of the
    server from a well-formed database, two identities cover all that the
    two slots of a room ever hold.  A room is created with its creator in
    slot 1, and assigning the creator to it leaves it so. *)
Theorem two_slots_first_empty_wins (d : Db) (roomId : string) (room : Room.t) (p : string) :
  getRoomById d roomId = Some room →
  (∀ e w w' created,
     db w = d → db_ok d → create_room e w p = (w', json (room_json created)) →
     occupants created = [Room.createdBy created]
     ∧ Room.createdBy created = p
     ∧ updateRoomParticipant (db w') (Room.id created) p = Ok (db w'))
  ∧ (falsy (Room.participant1Id room) = true → has_id User.id (users d) p = true →
   ∃ d', updateRoomParticipant d roomId p = Ok d'
         ∧ getRoomById d' roomId = Some (set_participant1Id p room))
  ∧ (db_ok d →
     Room.participant1Id room = Some (Room.createdBy room)
     ∧ (p ∈ occupants room → updateRoomParticipant d roomId p = Ok d)
     ∧ (p = Room.createdBy room → updateRoomParticipant d roomId p = Ok d)
     ∧ (is_Some (Room.participant2Id room) → updateRoomParticipant d roomId p = Ok d)
     ∧ (Room.participant2Id room = None → p ∉ occupants room →
        has_id User.id (users d) p = true →
        ∃ d', updateRoomParticipant d roomId p = Ok d'
              ∧ getRoomById d' roomId = Some (set_participant2Id p room))
     ∧ (∀ ws w0, run ws → head ws = Some w0 → db w0 = d →
        ∃ seats, (length seats ≤ 2)%nat
                 ∧ ∀ w, w ∈ ws → occupants_of (db w) roomId ⊆ seats)).
Proof.
  intros Hroom. split; [|split].
  - intros e w w' created <- Hok Hcreate.
    apply create_room_Ok in Hcreate as (Hcreator & Hslot1 & Hslot2 & _ & Hfound & Hop).
    split; [|split; [done|]].
    + unfold occupants. by rewrite Hslot1, Hslot2, Hcreator.
    + eapply updateRoomParticipant_seated; [by eapply db_op_ok|done|].
      apply elem_of_occupants. by left.
  - intros Hempty Huser. eexists. by apply updateRoomParticipant_slot1.
  - intros Hok. pose proof (db_ok_room _ _ _ Hok Hroom) as Hrok.
    split; [apply Hrok|]. split; [|split; [|split; [|split]]].
    + by apply updateRoomParticipant_seated.
    + intros ->. eapply updateRoomParticipant_seated; [done..|].
      apply elem_of_occupants. left. apply Hrok.
    + by apply updateRoomParticipant_full.
    + intros Hfree Hother Huser. eexists. by apply updateRoomParticipant_slot2.
    + intros ws w0 Hrun Hhead <-. by apply (run_seats ws w0).
Qed.

Lemma two_slots_first_empty_wins_witness :
  getRoomById (session_db four_messages []) "r0" = Some room_r0
  ∧ db_ok (session_db four_messages [])
  ∧ "u1" = Room.createdBy room_r0
  ∧ updateRoomParticipant (session_db four_messages []) "r0" "u1"
    = Ok (session_db four_messages []).
Proof.
  assert (Hroom : getRoomById (session_db four_messages []) "r0" = Some room_r0)
    by reflexivity.
  split; [exact Hroom|]. split; [apply db_ok_session|]. split; [reflexivity|].
  destruct (two_slots_first_empty_wins _ "r0" room_r0 "u1" Hroom) as (_ & _ & Hrest).
  destruct (Hrest (db_ok_session _ _)) as (_ & _ & Hcreator & _).
  by apply Hcreator.
Defined.

(** C7: a slot that is empty when it is read need not be empty when it is
    written.  Room r1 has Cy in slot 1 and nobody in slot 2; Ann and Bob
    join it by its code and Bob's request comes in while Ann's is being
    handled: either handler reads the room before the other has written,
    each finds slot 2 empty, Ann is written to it and then Bob over her.
    Three identities have been assigned to the two slots of the room, the
    slot was not empty when Bob got it, and Ann, who was answered with the
    room like Bob, is no member of it.  Were Ann's request handled to its
    end before Bob's came in, Ann would keep the slot. *)
Theorem overlapping_joins_assign_a_third_identity :
  let w := session four_messages [] in
  let ann := POST_rooms_join "u1" "ZZ99ZZ" in
  let bob := POST_rooms_join "u2" "ZZ99ZZ" in
  let ann_written :=
    play [ requested ann; requested bob;
           resumed 0; resumed 1; resumed 0; resumed 1; resumed 0 ]%nat (w, []) in
  let bob_written := occur ann_written (resumed 1%nat) in
  let one_by_one := handle bob (handle ann w).1 in
  rtc istep (w, []) ann_written
  ∧ istep ann_written bob_written
  ∧ occupants_of (db w) "r1" = ["u3"]
  ∧ occupants_of (db ann_written.1) "r1" = ["u3"; "u1"]
  ∧ occupants_of (db bob_written.1) "r1" = ["u3"; "u2"]
  ∧ answers bob_written = [Some (json (room_json room_r1)); Some (json (room_json room_r1))]
  ∧ ensureRoomMember bob_written.1 "r1" "u1" = false
  ∧ occupants_of (db one_by_one.1) "r1" = ["u3"; "u1"].
Proof.
  intros w ann bob ann_written bob_written one_by_one.
  split; [apply play_istep|].
  split; [apply istep_occur|].
  repeat split; vm_compute; reflexivity.
Qed.


(** ** The guard of the room-scoped operations *)


Lemma elem_of_rooms_getRoomById d room : room ∈ rooms d → is_Some (getRoomById d (Room.id room)).
Proof.
  intros Hin. unfold getRoomById. apply head_is_Some.
  intros Hnil. by eapply (filter_nil_not_elem_of (λ r, Room.id r = Room.id room)).
Qed.



Lemma rtc_step_db w w' : rtc step w w' → rtc db_op (db w) (db w').
Proof.
  induction 1 as [|w w1 w' Hstep _ IH]; [done|].
  etrans; [by apply step_db|done].
Qed.



(** ** Votes *)

Lemma getResolutionById_has_id d id :
  has_id Resolution.id (resolutions d) id = true →
  ∃ resolution, getResolutionById d id = Some resolution ∧ Resolution.id resolution = id.
Proof.
  intros (r & Hin & Hid)%has_id_true. unfold getResolutionById.
  destruct (head (filter _ _)) as [found|] eqn:Hhead.
  - exists found. split; [done|].
    by apply (head_filter_elem_of (λ r, Resolution.id r = id)) in Hhead as [_ ?].
  - destruct (proj1 (head_filter_None (λ r, Resolution.id r = id) _) Hhead r Hin Hid).
Qed.

(** The two votes of a room agree. *)
Lemma agreed_iff (allVotes : list Vote.t) :
  (length allVotes = 2%nat
   ∧ Vote.resolutionId <$> allVotes !! 0%nat = Vote.resolutionId <$> allVotes !! 1%nat)
  ↔ ∃ a b, allVotes = [a; b] ∧ Vote.resolutionId a = Vote.resolutionId b.
Proof.
  split.
  - intros [Hlen Hsame]. destruct allVotes as [|a [|b [|]]]; try done.
    exists a, b. split; [done|]. by injection Hsame.
  - intros (a & b & -> & Hsame). split; [done|]. cbn. by rewrite Hsame.
Qed.

(** What a vote that is recorded has passed, and what it leaves behind. *)
Lemma vote_recorded e w userId roomId resolutionId w' v :
  vote e w userId roomId resolutionId = (w', json (vote_json v)) →
  ∃ d1,
    ensureRoomMember w roomId userId = true
    ∧ getUserVote (db w) roomId userId = None
    ∧ createVote (db w) (uuid e 0%nat) (now e) (InsertVote.mk roomId resolutionId userId)
      = Ok (v, d1)
    ∧ let w1 := broadcastToRoom roomId (vote_cast userId resolutionId) None
                  (set_db (λ _, d1) w) in
      let allVotes := getRoomVotes d1 roomId in
      w' = if bool_decide (length allVotes = 2%nat)
              && bool_decide (Vote.resolutionId <$> allVotes !! 0%nat
                              = Vote.resolutionId <$> allVotes !! 1%nat)
           then
             let w2 := set_db (λ d, updateRoomStatus d roomId "resolved" (Some (date e))) w1 in
             broadcastToRoom roomId (room_resolved (getResolutionById (db w2) resolutionId))
               None w2
           else w1.
Proof.
  unfold vote. intros Hvote.
  destruct (ensureRoomMember w roomId userId); [|done]. cbn in Hvote.
  destruct (getUserVote (db w) roomId userId); [done|].
  destruct (createVote _ _ _ _) as [[v1 d1]|] eqn:Hnew; [|done].
  exists d1. repeat (split; [done|]). cbn in Hvote.
  rewrite db_broadcastToRoom in Hvote. cbn in Hvote.
  cbn. rewrite ?db_broadcastToRoom. cbn.
  destruct (bool_decide (length _ = _)), (bool_decide (_ <$> _ = _));
    cbn in *; by simplify_eq.
Qed.

Lemma fanout_set_db f w roomId m excludeUserId :
  fanout (set_db f w) roomId m excludeUserId = fanout w roomId m excludeUserId.
Proof. done. Qed.

Lemma fanout_set_wire f w roomId m excludeUserId :
  fanout (set_wire f w) roomId m excludeUserId = fanout w roomId m excludeUserId.
Proof. done. Qed.

Lemma getRoomById_set_votes f d id : getRoomById (set_votes f d) id = getRoomById d id.
Proof. done. Qed.

Lemma getResolutionById_set_votes f d id :
  getResolutionById (set_votes f d) id = getResolutionById d id.
Proof. done. Qed.

Lemma getResolutionById_updateRoomStatus d roomId status resolvedAt id :
  getResolutionById (updateRoomStatus d roomId status resolvedAt) id = getResolutionById d id.
Proof. done. Qed.

Lemma getRoomById_updateRoomStatus d roomId status resolvedAt room :
  getRoomById d roomId = Some room →
  getRoomById (updateRoomStatus d roomId status resolvedAt) roomId
  = Some (set_status status resolvedAt room).
Proof.
  intros Hroom. unfold updateRoomStatus. rewrite getRoomById_update_room, Hroom by done.
  cbn. apply getRoomById_Some in Hroom as [_ Hid]. by rewrite decide_True.
Qed.

Lemma db_set_db f w : db (set_db f w) = f (db w).
Proof. done. Qed.

Lemma wire_set_db f w : wire (set_db f w) = wire w.
Proof. done. Qed.

Lemma fanout_broadcastToRoom roomId m excludeUserId w roomId' m' excludeUserId' :
  fanout (broadcastToRoom roomId m excludeUserId w) roomId' m' excludeUserId'
  = fanout w roomId' m' excludeUserId'.
Proof. by rewrite broadcastToRoom_frame. Qed.

Create Rewrite HintDb world.
#[local] Hint Rewrite db_broadcastToRoom wire_broadcastToRoom db_set_db wire_set_db
  fanout_broadcastToRoom fanout_set_db fanout_set_wire : world.

Lemma elem_of_fanout w roomId m s f :
  (s, f) ∈ fanout w roomId m None
  ↔ f = event m
    ∧ ∃ user client,
        registered w roomId user = Some client ∧ ws client = s ∧ readyState w s = OPEN.
Proof.
  destruct (broadcast_reaches_exactly w roomId m None) as (frames & Hsent & Hframes).
  rewrite broadcastToRoom_frame in Hsent.
  assert (frames = fanout w roomId m None) as <-.
  { apply (f_equal wire) in Hsent. cbn in Hsent. by apply app_inv_head in Hsent. }
  rewrite Hframes. split.
  - intros (-> & user & client & ? & ? & _ & ?). split; [done|]. by exists user, client.
  - intros (-> & user & client & ? & ? & ?). split; [done|]. by exists user, client.
Qed.

(** C1: once a vote, handled with no other event in between, is recorded in
    an active room, the room is resolved, with the time at which the second
    vote was counted as its resolved timestamp and its other columns
    untouched, and every open connection registered in the room is sent
    [vote_cast] and then [room_resolved] with the agreed resolution, if and
    only if the room then has exactly two votes, both for the same
    resolution; otherwise, and so when the two votes differ, the room stays
    as it was, still active, and [vote_cast] is all that is sent.  The vote
    recorded is the caller's, for the resolution asked for, stamped by the
    database and added after the votes there were. *)
Theorem resolved_iff_two_matching_votes (e : Env) (w w' : World)
    (userId roomId resolutionId : string) (v : Vote.t) (room : Room.t) :
  vote e w userId roomId resolutionId = (w', json (vote_json v)) →
  getRoomById (db w) roomId = Some room →
  Room.status room = "active" →
  let allVotes := getRoomVotes (db w') roomId in
  let agreed := ∃ a b, allVotes = [a; b] ∧ Vote.resolutionId a = Vote.resolutionId b in
  let reached (m : WSMessage) (frames : list (WebSocket * Frame)) :=
    ∀ s f, (s, f) ∈ frames
           ↔ f = event m
             ∧ ∃ user client,
                 registered w roomId user = Some client ∧ ws client = s
                 ∧ readyState w s = OPEN in
  let cast := fanout w roomId (vote_cast userId resolutionId) None in
  let resolved_room :=
    Room.mk (Room.id room) (Room.code room) (Room.createdBy room)
      (Room.participant1Id room) (Room.participant2Id room)
      "resolved" (Some (date e)) (Room.createdAt room) in
  let resolved resolution :=
    getRoomById (db w') roomId = Some resolved_room
    ∧ getResolutionById (db w') resolutionId = Some resolution
    ∧ (∀ a, a ∈ allVotes → Vote.resolutionId a = Resolution.id resolution)
    ∧ ∃ announced,
        wire w' = wire w ++ cast ++ announced
        ∧ reached (room_resolved (Some resolution)) announced in
  v ∈ allVotes
  ∧ v = Vote.mk (uuid e 0%nat) roomId resolutionId userId (now e)
  ∧ votes (db w') = votes (db w) ++ [v]
  ∧ reached (vote_cast userId resolutionId) cast
  ∧ (agreed ↔ ∃ resolution, resolved resolution)
  ∧ (agreed ↔ Room.status <$> getRoomById (db w') roomId = Some "resolved")
  ∧ (¬ agreed → db w' = set_votes (λ t, t ++ [v]) (db w) ∧ wire w' = wire w ++ cast)
  ∧ (∀ a b, allVotes = [a; b] → Vote.resolutionId a ≠ Vote.resolutionId b →
     getRoomById (db w') roomId = Some room).
Proof.
  intros Hvote Hroom Hactive allVotes agreed reached cast resolved_room resolved.
  apply vote_recorded in Hvote as (d1 & _ & _ & Hnew & Hw'). cbv zeta in Hw'.
  apply createVote_Ok in Hnew as (_ & _ & Hresolution & _ & Hv & ->).
  cbn in Hresolution, Hv.
  assert (Hvr : Vote.resolutionId v = resolutionId) by by rewrite Hv.
  assert (Hvroom : Vote.roomId v = roomId) by by rewrite Hv.
  apply getResolutionById_has_id in Hresolution as (resolution & Hfound & Hid).
  remember (set_votes (λ t, t ++ [v]) (db w)) as d1 eqn:Hd1.
  assert (Hroom1 : getRoomById d1 roomId = Some room) by by rewrite Hd1.
  assert (Hfound1 : getResolutionById d1 resolutionId = Some resolution) by by rewrite Hd1.
  assert (Hin : v ∈ getRoomVotes d1 roomId).
  { unfold getRoomVotes. apply list_elem_of_filter. split; [done|].
    rewrite Hd1. cbn. apply elem_of_app. right. by left. }
  assert (Hvotes : allVotes = getRoomVotes d1 roomId).
  { subst allVotes. rewrite Hw'. case_match; [|by rewrite db_broadcastToRoom].
    by repeat first [rewrite db_broadcastToRoom | progress cbn]. }
  assert (Hagreed : agreed ↔
            bool_decide (length (getRoomVotes d1 roomId) = 2%nat)
            && bool_decide (Vote.resolutionId <$> getRoomVotes d1 roomId !! 0%nat
                            = Vote.resolutionId <$> getRoomVotes d1 roomId !! 1%nat) = true).
  { subst agreed. rewrite Hvotes, <- agreed_iff.
    by rewrite andb_true_iff, !bool_decide_eq_true. }
  assert (Hyes : agreed → resolved resolution).
  { intros Hyes. pose proof Hyes as (a & b & Hab & Hsame).
    apply Hagreed in Hyes. rewrite Hyes in Hw'. subst resolved. cbn beta.
    split; [|split; [|split]].
    - rewrite Hw'. cbv zeta. autorewrite with world.
      rewrite (getRoomById_updateRoomStatus _ _ _ _ room) by done. by destruct room.
    - rewrite Hw'. cbv zeta. autorewrite with world.
      by rewrite getResolutionById_updateRoomStatus.
    - rewrite Hvotes in Hab. rewrite Hab in Hin. rewrite Hvotes, Hab.
      intros c Hc. rewrite Hid, <- Hvr.
      assert (Vote.resolutionId v = Vote.resolutionId a) as ->.
      { apply elem_of_cons in Hin as [->|Hin]; [done|].
        apply list_elem_of_singleton in Hin as ->. done. }
      apply elem_of_cons in Hc as [->|Hc]; [done|].
      apply list_elem_of_singleton in Hc as ->. done.
    - exists (fanout w roomId (room_resolved (Some resolution)) None).
      split; [|intros s f; apply elem_of_fanout].
      rewrite Hw'. cbv zeta. autorewrite with world.
      by rewrite getResolutionById_updateRoomStatus, Hfound1, <- app_assoc. }
  assert (Hno : ¬ agreed → db w' = d1 ∧ wire w' = wire w ++ cast).
  { intros Hno. rewrite Hagreed in Hno. apply not_true_is_false in Hno.
    rewrite Hno in Hw'. by rewrite Hw', db_broadcastToRoom, wire_broadcastToRoom. }
  assert (Hdec : agreed ∨ ¬ agreed).
  { rewrite Hagreed. destruct (_ && _); [by left|by right]. }
  assert (Hadded : votes (db w') = votes (db w) ++ [v]).
  { rewrite Hw'. case_match; autorewrite with world; by rewrite Hd1. }
  split; [by rewrite Hvotes|]. split; [done|]. split; [done|].
  split; [intros s f; apply elem_of_fanout|].
  split; [|split; [|split; [done|]]].
  - split; [by eexists; apply Hyes|].
    intros (r & Hr & _). destruct Hdec as [|Hno']; [done|].
    destruct (Hno Hno') as [Hsame _]. rewrite Hsame, Hroom1 in Hr.
    injection Hr as Hr. apply (f_equal Room.status) in Hr. cbn in Hr. congruence.
  - split.
    + intros Hyes'. destruct (Hyes Hyes') as (-> & _). done.
    + intros Hr. destruct Hdec as [|Hno']; [done|].
      destruct (Hno Hno') as [Hsame _]. rewrite Hsame, Hroom1 in Hr. cbn in Hr. congruence.
  - intros a b Hab Hdiffer.
    assert (Hno' : ¬ agreed) by (intros (a' & b' & Hab' & Hsame); congruence).
    destruct (Hno Hno') as [-> _]. done.
Qed.

Lemma resolved_iff_two_matching_votes_witness :
  let e := session_env None "w" in
  let w := session four_messages [ann_vote] in
  let bob_vote := Vote.mk "w0" "r0" "x2" "u2" 100 in
  let w' := (vote e w "u2" "r0" "x2").1 in
  let rota := Resolution.mk "x2" "r0" "Rota" "Write a weekly rota." 75 false 20 in
  (vote e w "u2" "r0" "x2").2 = json (vote_json bob_vote)
  ∧ getRoomById (db w) "r0" = Some room_r0
  ∧ Room.status room_r0 = "active"
  ∧ getRoomById (db w') "r0"
    = Some (Room.mk "r0" "AB12CD" "u1" (Some "u1") (Some "u2") "resolved" (Some 101) 1)
  ∧ votes (db w') = [ann_vote; bob_vote]
  ∧ ∃ announced,
      wire w' = fanout w "r0" (vote_cast "u2" "x2") None ++ announced
      ∧ (1%nat, event (vote_cast "u2" "x2")) ∈ fanout w "r0" (vote_cast "u2" "x2") None
      ∧ (1%nat, event (room_resolved (Some rota))) ∈ announced
      ∧ (2%nat, event (room_resolved (Some rota))) ∈ announced.
Proof.
  intros e w bob_vote w' rota.
  assert (Hanswer : (vote e w "u2" "r0" "x2").2 = json (vote_json bob_vote))
    by (vm_compute; reflexivity).
  assert (Hvote : vote e w "u2" "r0" "x2" = (w', json (vote_json bob_vote)))
    by (rewrite <- Hanswer; apply surjective_pairing).
  assert (Hroom : getRoomById (db w) "r0" = Some room_r0) by reflexivity.
  assert (Hactive : Room.status room_r0 = "active") by reflexivity.
  split; [exact Hanswer|]. split; [exact Hroom|]. split; [exact Hactive|].
  destruct (resolved_iff_two_matching_votes e w _ "u2" "r0" "x2" bob_vote room_r0
              Hvote Hroom Hactive) as (_ & _ & Hadded & Hcast & Hiff & _).
  destruct (proj1 Hiff) as (resolution & Hresolved & Hfound & _ & announced & Hwire & Hsent).
  { exists ann_vote, bob_vote. split; [vm_compute; reflexivity|reflexivity]. }
  assert (resolution = rota) as ->.
  { assert (Hrota : getResolutionById (db w') "x2" = Some rota) by (vm_compute; reflexivity).
    congruence. }
  split; [exact Hresolved|]. split; [exact Hadded|].
  exists announced. split; [exact Hwire|].
  split; [|split].
  - apply Hcast. split; [reflexivity|].
    exists "u1", (mkClient 1%nat "Ann"). vm_compute. repeat split.
  - apply Hsent. split; [reflexivity|].
    exists "u1", (mkClient 1%nat "Ann"). vm_compute. repeat split.
  - apply Hsent. split; [reflexivity|].
    exists "u2", (mkClient 2%nat "Bob"). vm_compute. repeat split.
Defined.

(** A vote of a member who has a vote in the room, handled with nothing in
    between, is answered [Already voted], and the world stays as it is: no
    table is written and no frame is sent.  Along every serial run the votes
    recorded stay in place, new ones come after them, and no (room,
    identity) pair gets a second one. *)
Theorem already_voted_changes_nothing (e : Env) (w : World)
    (userId roomId resolutionId : string) (existingVote : Vote.t) :
  ensureRoomMember w roomId userId = true →
  getUserVote (db w) roomId userId = Some existingVote →
  vote e w userId roomId resolutionId = (w, mkResponse 400 (message "Already voted"))
  ∧ failure (mkResponse 400 (message "Already voted")) = Some AlreadyVoted
  ∧ ∀ w', rtc step w w' →
      votes (db w) `prefix_of` votes (db w')
      ∧ getUserVote (db w') roomId userId = Some existingVote
      ∧ (one_vote_each (db w) → one_vote_each (db w')).
Proof.
  intros Hmember Hvoted. unfold vote. rewrite Hmember, Hvoted. cbn.
  split; [done|]. split; [done|].
  intros w' Hsteps. apply rtc_step_db, rtc_db_op_votes in Hsteps as [Hprefix Hone].
  split; [done|]. split; [|done].
  destruct Hprefix as [new Hnew]. unfold getUserVote in *.
  rewrite Hnew, filter_app, head_app. by rewrite Hvoted.
Qed.

Lemma already_voted_changes_nothing_witness :
  let w := session four_messages [ann_vote] in
  ensureRoomMember w "r0" "u1" = true
  ∧ getUserVote (db w) "r0" "u1" = Some ann_vote
  ∧ vote (session_env None "w") w "u1" "r0" "x3"
    = (w, mkResponse 400 (message "Already voted")).
Proof.
  intros w.
  assert (Hmember : ensureRoomMember w "r0" "u1" = true) by reflexivity.
  assert (Hvoted : getUserVote (db w) "r0" "u1" = Some ann_vote) by reflexivity.
  split; [exact Hmember|]. split; [exact Hvoted|].
  exact (proj1 (already_voted_changes_nothing (session_env None "w") w "u1" "r0" "x3"
                  ann_vote Hmember Hvoted)).
Defined.

(** C3: the check for an earlier vote does not hold when two requests of one
    member overlap.  Ann sends two votes in room r0, one for x2 and one for
    x3, and the second comes in while the first is being handled: either
    handler looks for a vote of hers before the other has written one, each
    finds none, and both votes are recorded and answered with 200; none is
    refused as [Already voted].  Were the first handled to its end before
    the second came in, the second would be refused and one vote recorded. *)
Theorem overlapping_votes_are_both_recorded :
  let w := session four_messages [] in
  let first := POST_vote (session_env None "a") "u1" "r0" "x2" in
  let second := POST_vote (session_env None "b") "u1" "r0" "x3" in
  let overlapping :=
    play [ requested first; requested second;
           resumed 0; resumed 1; resumed 0; resumed 1; resumed 0; resumed 1;
           resumed 0; resumed 1 ]%nat (w, []) in
  let one_by_one := handle second (handle first w).1 in
  let first_vote := Vote.mk "a0" "r0" "x2" "u1" 100 in
  let second_vote := Vote.mk "b0" "r0" "x3" "u1" 100 in
  rtc istep (w, []) overlapping
  ∧ votes (db w) = []
  ∧ answers overlapping
    = [Some (json (vote_json first_vote)); Some (json (vote_json second_vote))]
  ∧ votes (db overlapping.1) = [first_vote; second_vote]
  ∧ ¬ one_vote_each (db overlapping.1)
  ∧ one_by_one.2 = mkResponse 400 (message "Already voted")
  ∧ votes (db one_by_one.1) = [first_vote].
Proof.
  intros w first second overlapping one_by_one first_vote second_vote.
  split; [apply play_istep|].
  split; [reflexivity|].
  split; [vm_compute; reflexivity|].
  assert (Hvotes : votes (db overlapping.1) = [first_vote; second_vote])
    by (vm_compute; reflexivity).
  split; [exact Hvotes|].
  split.
  - unfold one_vote_each. rewrite Hvotes. cbn. intros Hnodup.
    apply NoDup_cons in Hnodup as [Hnotin _]. apply Hnotin. by left.
  - split; vm_compute; reflexivity.
Qed.


(** Every single step keeps the votes in place and keeps them one per
    (room, identity) pair. *)
Lemma step_one_vote_each w w' :
  step w w' →
  votes (db w) `prefix_of` votes (db w') ∧ (one_vote_each (db w) → one_vote_each (db w')).
Proof. intros Hstep. by apply rtc_db_op_votes, step_db. Qed.





(** ** Resolution requests *)

Lemma getRoomMessages_length d roomId :
  length (getRoomMessages d roomId) = length (persisted d roomId).
Proof. unfold getRoomMessages. by rewrite merge_sort_Permutation. Qed.

Lemma set_resolutionCounts_same w : set_resolutionCounts (λ _, resolutionCounts w) w = w.
Proof. by destruct w. Qed.

(** A refusal by the cap leaves the counters as they are. *)
Lemma checkResolutionLimit_refused counts today userId :
  allowed (checkResolutionLimit counts today userId).1 = false →
  (checkResolutionLimit counts today userId).2 = counts.
Proof.
  unfold checkResolutionLimit. destruct (counts !! userId); [|done].
  by repeat case_bool_decide.
Qed.

(** With a client the first request is always made. *)
Lemma generateResolutions_calls h texts :
  ∃ more,
    (generateResolutions (Some h) texts).2
    = first_request (buildResolutionPrompt (join newline texts)) :: more.
Proof.
  unfold generateResolutions.
  destruct (h (first_request _)) as [err|[| |parsed]]; try by eexists.
  all: destruct (h (retry_request _)) as [err'|[| |parsed']]; by eexists.
Qed.

(** C4: the generate-resolutions route checks membership, then the daily cap,
    then the number of messages, and each check fails in its own way.  A
    non-member is denied whatever the cap and the messages are, and nothing
    is read or written for them; a member over the cap is refused whatever
    the messages are.  A member under the cap is refused for lack of context
    exactly when the room has fewer than 4 messages; from 4 messages on the
    text-generation service is asked. *)
Theorem generate_resolutions_checks_in_order (e : Env) (w : World) (userId roomId : string) :
  let answer := generate_resolutions e w userId roomId in
  let limit := (checkResolutionLimit (resolutionCounts w) (today e) userId).1 in
  let n := length (persisted (db w) roomId) in
  (ensureRoomMember w roomId userId = false →
   answer = (w, mkResponse 403 (message "Access denied"))
   ∧ failure answer.2 = Some AccessDenied)
  ∧ (ensureRoomMember w roomId userId = true → allowed limit = false →
     answer.1 = w
     ∧ status answer.2 = 429
     ∧ failure answer.2 = Some QuotaExceeded)
  ∧ (ensureRoomMember w roomId userId = true → allowed limit = true →
     (failure answer.2 = Some InsufficientContext ↔ (n < 4)%nat)
     ∧ ((n < 4)%nat →
        answer.2 = mkResponse 400 (message "Need at least 4 messages to generate resolutions")
        ∧ db answer.1 = db w ∧ wire answer.1 = wire w ∧ hfCalls answer.1 = hfCalls w)
     ∧ ((4 ≤ n)%nat →
        hfCalls answer.1 = hfCalls w ++ (generateResolutions (hf e) (messageTexts (db w) roomId)).2
        ∧ (is_Some (hf e) →
           first_request (buildResolutionPrompt (join newline (messageTexts (db w) roomId)))
           ∈ hfCalls answer.1))).
Proof.
  intros answer limit n. subst answer limit n. unfold generate_resolutions.
  rewrite <- getRoomMessages_length.
  destruct (ensureRoomMember w roomId userId); cbn; [|by repeat split].
  split; [done|].
  destruct (checkResolutionLimit (resolutionCounts w) (today e) userId)
    as [limit counts] eqn:Hlimit. cbn.
  split.
  - intros _ Hrefused. rewrite Hrefused. cbn. split; [|done].
    pose proof (checkResolutionLimit_refused (resolutionCounts w) (today e) userId) as Hsame.
    rewrite Hlimit in Hsame. cbn in Hsame. rewrite Hsame by done.
    apply set_resolutionCounts_same.
  - intros _ Hallowed. rewrite Hallowed. cbn.
    fold (messageTexts (db w) roomId).
    case_bool_decide as Hfew; cbn.
    + split; [done|]. split; [done|]. lia.
    + assert (Hasked : is_Some (hf e) →
               first_request (buildResolutionPrompt (join newline (messageTexts (db w) roomId)))
               ∈ hfCalls w ++ (generateResolutions (hf e) (messageTexts (db w) roomId)).2).
      { intros [h ->].
        destruct (generateResolutions_calls h (messageTexts (db w) roomId)) as [more ->].
        apply elem_of_app. right. by left. }
      destruct (generateResolutions (hf e) (messageTexts (db w) roomId))
        as [[aiResponse|err] calls] eqn:Hgen; cbn.
      * destruct (createResolutions _ _ _ _) as [[saved d]|]; cbn;
          rewrite ?broadcastToRoom_frame; cbn;
          (split; [split; [done|lia]|]); (split; [lia|]); done.
      * (split; [split; [done|lia]|]); (split; [lia|]); done.
Qed.

Lemma generate_resolutions_checks_in_order_witness :
  let e := session_env (Some prose_only) "g" in
  let three := session three_messages [] in
  let four := session four_messages [] in
  (generate_resolutions e three "u1" "r0").2
  = mkResponse 400 (message "Need at least 4 messages to generate resolutions")
  ∧ hfCalls (generate_resolutions e three "u1" "r0").1 = []
  ∧ first_request (buildResolutionPrompt (join newline (messageTexts (db four) "r0")))
    ∈ hfCalls (generate_resolutions e four "u1" "r0").1.
Proof.
  intros e three four.
  assert (Hallowed : ∀ w, resolutionCounts w = ∅ →
            allowed (checkResolutionLimit (resolutionCounts w) (today e) "u1").1 = true)
    by (by intros w ->).
  destruct (generate_resolutions_checks_in_order e three "u1" "r0") as (_ & _ & Hthree).
  destruct (Hthree eq_refl (Hallowed three eq_refl)) as (_ & Hfew & _).
  destruct Hfew as (Hanswer & _ & _ & Hcalls); [apply (bool_decide_unpack _); by vm_compute|].
  destruct (generate_resolutions_checks_in_order e four "u1" "r0") as (_ & _ & Hfour).
  destruct (Hfour eq_refl (Hallowed four eq_refl)) as (_ & _ & Henough).
  destruct Henough as (_ & Hasked); [apply (bool_decide_unpack _); by vm_compute|].
  split; [exact Hanswer|]. split; [exact Hcalls|]. apply Hasked. by eexists.
Defined.

(** C5 (as stated) fails: a reply in prose, with no braces to match, is
    unparsable, and yet the fallback batch is returned after that one request,
    with no retry.  And without an API key [generateResolutions] throws, which
    the route answers with 500. *)
Lemma unparsable_reply_is_not_retried :
  let texts := messageTexts (session_db four_messages []) "r0" in
  let prompt := buildResolutionPrompt (join newline texts) in
  prose_only (first_request prompt) = resolves no_match
  ∧ generateResolutions (Some prose_only) texts
    = (Ok generateFallbackResolutions, [first_request prompt])
  ∧ (generate_resolutions (session_env None "g") (session four_messages []) "u1" "r0").2
    = mkResponse 500 (thrown (Error "Hugging Face API key not configured")).
Proof. repeat split; vm_compute; reflexivity. Qed.

(** C5 (as amended): with a client, [generateResolutions] never throws and
    asks the service once or twice.  When the first call rejects, or what it
    matches is not JSON, it asks exactly once more, at temperature 0.5 instead
    of 0.7, and returns what the retry parses to, or else the fixed fallback
    batch of a compromise, a trial period and an alternative perspective.
    When the first reply has nothing to match, it returns the fallback batch
    at once.  Without a client it throws before asking. *)
Theorem generateResolutions_retry_and_fallback (h : HfInference) (texts : list string) :
  let prompt := buildResolutionPrompt (join newline texts) in
  let first := h (first_request prompt) in
  let retry := h (retry_request prompt) in
  let r := generateResolutions (Some h) texts in
  (∃ batch, r.1 = Ok batch)
  ∧ (∀ parsed, first = resolves (parses parsed) → r = (Ok parsed, [first_request prompt]))
  ∧ (first = resolves no_match → r = (Ok generateFallbackResolutions, [first_request prompt]))
  ∧ ((∃ err, first = rejects err) ∨ first = resolves not_json →
     r.2 = [first_request prompt; retry_request prompt]
     ∧ (temperature (parameters (retry_request prompt))
        < temperature (parameters (first_request prompt)))%Q
     ∧ (failed retry → r.1 = Ok generateFallbackResolutions)
     ∧ (∀ parsed, retry = resolves (parses parsed) → r.1 = Ok parsed))
  ∧ AIResolution.title <$> AIResolutionResponse.resolutions generateFallbackResolutions
    = ["Compromise Solution"; "Time-Based Trial"; "Alternative Perspective"]
  ∧ generateResolutions None texts
    = (Throw (Error "Hugging Face API key not configured"), []).
Proof.
  intros prompt first retry r. subst first retry r. unfold generateResolutions.
  fold prompt. split; [|split; [|split; [|split; [|done]]]].
  - destruct (h (first_request prompt)) as [err|[| |parsed]]; try by eexists.
    all: destruct (h (retry_request prompt)) as [err'|[| |parsed']]; by eexists.
  - by intros parsed ->.
  - by intros ->.
  - intros [[err ->]| ->].
    all: split; [by destruct (h (retry_request prompt)) as [?|[| |?]]|].
    all: split; [done|].
    all: split; [|by intros parsed ->].
    all: by destruct (h (retry_request prompt)) as [?|[| |?]].
Qed.

Lemma generateResolutions_retry_and_fallback_witness :
  let h : HfInference := λ _, resolves not_json in
  let prompt := buildResolutionPrompt (join newline ["a"; "b"; "c"; "d"]) in
  h (first_request prompt) = resolves not_json
  ∧ failed (h (retry_request prompt))
  ∧ generateResolutions (Some h) ["a"; "b"; "c"; "d"]
    = (Ok generateFallbackResolutions, [first_request prompt; retry_request prompt]).
Proof.
  intros h prompt. split; [reflexivity|]. split; [exact I|].
  destruct (generateResolutions_retry_and_fallback h ["a"; "b"; "c"; "d"])
    as (_ & _ & _ & Hretry & _).
  destruct Hretry as (Hcalls & _ & Hfallback & _); [by right|].
  fold prompt in Hcalls. rewrite <- Hcalls, <- (Hfallback I).
  apply surjective_pairing.
Defined.

Lemma createResolutions_Ok d uuid now l created d' :
  createResolutions d uuid now l = Ok (created, d') →
  created = imap (λ i r, new_resolution (uuid i) now r) l
  ∧ d' = set_resolutions (λ t, t ++ created) d.
Proof.
  unfold createResolutions. intros Hnew.
  repeat (case_match; try discriminate Hnew). by simplify_eq.
Qed.

(** A column of the saved rows is the column of the rows to insert. *)
Lemma saved_column {C} (column : Resolution.t → C) (column' : InsertResolution.t → C)
    uuid now (l : list InsertResolution.t) :
  (∀ id r, column (new_resolution id now r) = column' r) →
  column <$> imap (λ i r, new_resolution (uuid i) now r) l = column' <$> l.
Proof.
  intros Hcolumn. rewrite fmap_imap, <- imap_const. apply imap_ext.
  intros i r _. apply Hcolumn.
Qed.

(** What a request that is answered with a batch has done. *)
Lemma generate_resolutions_answered e w userId roomId w' saved :
  generate_resolutions e w userId roomId = (w', json (resolutions_json saved)) →
  ∃ batch calls,
    generateResolutions (hf e) (messageTexts (db w) roomId) = (Ok batch, calls)
    ∧ saved = imap (λ i r, new_resolution (uuid e i) (now e) r)
                (to_insert roomId <$> AIResolutionResponse.resolutions batch)
    ∧ db w' = set_resolutions (λ t, t ++ saved) (db w)
    ∧ wire w' = wire w ++ fanout w roomId (resolutions_generated saved) None
    ∧ hfCalls w' = hfCalls w ++ calls.
Proof.
  unfold generate_resolutions. intros Hanswer.
  destruct (negb _); [done|].
  destruct (checkResolutionLimit _ _ _) as [limit counts].
  destruct (negb _); [done|]. case_bool_decide; [done|].
  cbn in Hanswer. fold (messageTexts (db w) roomId) in Hanswer.
  destruct (generateResolutions _ _) as [[batch|err] calls]; [|done].
  cbn in Hanswer.
  destruct (createResolutions _ _ _ _) as [[saved' d]|] eqn:Hnew; [|done].
  apply createResolutions_Ok in Hnew as [Hsaved ->].
  injection Hanswer as <- <-. exists batch, calls.
  rewrite broadcastToRoom_frame. cbn. by rewrite <- Hsaved.
Qed.









(** ** The scenario, run *)

Example scenario_three_resolutions :
  Resolution.title <$> resolutions (db scenario_generated)
  = ["Compromise Solution"; "Time-Based Trial"; "Alternative Perspective"]
  ∧ Resolution.id <$> resolutions (db scenario_generated) = ["x0"; "x1"; "x2"]
  ∧ drop 9 (wire scenario_generated)
    = [ (1%nat, event (resolutions_generated (resolutions (db scenario_generated))));
        (2%nat, event (resolutions_generated (resolutions (db scenario_generated)))) ].
Proof. repeat split; vm_compute; reflexivity. Qed.

Example scenario_resolved :
  Room.status <$> getRoomById (db scenario_voted) "r0" = Some "resolved"
  ∧ Room.resolvedAt <$> getRoomById (db scenario_voted) "r0" = Some (Some 9)
  ∧ last (wire scenario_voted)
    = Some (2%nat, event (room_resolved (getResolutionById (db scenario_voted) "x1")))
  ∧ Resolution.title <$> getResolutionById (db scenario_voted) "x1" = Some "Time-Based Trial"
  ∧ (vote (scenario_env "y" 9) scenario_voted "u1" "r0" "x0").2
    = mkResponse 400 (message "Already voted")
  ∧ (vote (scenario_env "z" 9) scenario_voted "u2" "r0" "x2").2
    = mkResponse 400 (message "Already voted").
Proof. repeat split; vm_compute; reflexivity. Qed.

(** ** What a run keeps *)

(** A request leaves the registry and the sockets alone. *)
Lemma roomConnections_handle rq w :
  roomConnections (handle rq w).1 = roomConnections w
  ∧ readyState (handle rq w).1 = readyState w.
Proof.
  destruct rq; cbn.
  - unfold create_room. by destruct (createRoom _ _ _ _) as [[room d]|].
  - unfold join_room_by_code. destruct (getRoomByCode _ _); [|done].
    by destruct (updateRoomParticipant _ _ _).
  - unfold get_room. destruct (negb _); [done|]. by destruct (getRoomById _ _).
  - unfold post_message. destruct (negb _); [done|].
    destruct (insertMessageSchema_parse _); [|done].
    destruct (createMessage _ _ _ _) as [[m d]|]; [|done].
    cbn. by rewrite broadcastToRoom_frame.
  - unfold get_messages. by destruct (negb _).
  - unfold transcribe. destruct (negb audioFile); [done|]. destruct (negb _); [done|].
    destruct (createMessage _ _ _ _) as [[m d]|]; [|done].
    cbn. by rewrite broadcastToRoom_frame.
  - unfold generate_resolutions. destruct (negb _); [done|].
    destruct (checkResolutionLimit _ _ _) as [limit counts].
    destruct (negb _); [done|]. case_bool_decide; [done|].
    destruct (generateResolutions _ _) as [[aiResponse|err] calls]; [|done].
    cbn. destruct (createResolutions _ _ _ _) as [[saved d]|]; [|done].
    cbn. by rewrite broadcastToRoom_frame.
  - unfold vote. destruct (negb _); [done|].
    destruct (getUserVote _ _ _); [done|].
    destruct (createVote _ _ _ _) as [[v d]|]; [|done].
    cbn. repeat case_bool_decide; cbn; by rewrite ?broadcastToRoom_frame.
Qed.

Lemma step_registry_ok w w' : step w w' → registry_ok w → registry_ok w'.
Proof.
  intros Hstep Hok. destruct Hstep as [rq w|c w m|c w].
  - unfold registry_ok. by rewrite (proj1 (roomConnections_handle rq w)).
  - by apply registry_ok_on_message.
  - by apply registry_ok_unregister.
Qed.

(** From a world with an empty registry and a well-formed database every
    world the server reaches has a registry without empty rooms and a
    well-formed database. *)
Lemma reachable_ok w w' :
  rtc step w w' → registry_ok w → db_ok (db w) → registry_ok w' ∧ db_ok (db w').
Proof.
  induction 1 as [|w w1 w' Hstep _ IH]; [done|]. intros Hreg Hdb.
  apply IH; [by eapply step_registry_ok|].
  eapply rtc_db_op_ok; [by apply step_db|done].
Qed.

Lemma scenario_start_ok : registry_ok scenario_start ∧ db_ok (db scenario_start).
Proof.
  split.
  - intros roomId roomClients. cbn. by rewrite lookup_empty.
  - split; [|split]; cbn.
    + constructor.
    + apply (bool_decide_unpack _). by vm_compute.
    + constructor.
Qed.

(** The fallback batch passes every check of the resolutions table, so with
    fresh identifiers a room that exists gets its three rows. *)
Lemma createResolutions_fallback d uuid now roomId :
  has_id Room.id (rooms d) roomId = true →
  NoDup [uuid 0%nat; uuid 1%nat; uuid 2%nat] →
  (∀ i, has_id Resolution.id (resolutions d) (uuid i) = false) →
  ∃ saved d',
    createResolutions d uuid now
      (to_insert roomId <$> AIResolutionResponse.resolutions generateFallbackResolutions)
    = Ok (saved, d')
    ∧ length saved = 3%nat.
Proof.
  intros Hroom Hfresh Hnew. unfold createResolutions. cbn.
  rewrite bool_decide_eq_true_2 by done. rewrite !Hnew, Hroom. cbn.
  by eexists _, _.
Qed.

(** With a client whose replies all fail, a member under the cap with enough
    messages is still answered with a batch: the failure of the service does
    not reach the caller. *)
Lemma generation_failure_is_answered e w userId roomId h :
  ensureRoomMember w roomId userId = true →
  allowed (checkResolutionLimit (resolutionCounts w) (today e) userId).1 = true →
  (4 ≤ length (persisted (db w) roomId))%nat →
  hf e = Some h → (∀ rq, failed (h rq)) →
  NoDup [uuid e 0%nat; uuid e 1%nat; uuid e 2%nat] →
  (∀ i, has_id Resolution.id (resolutions (db w)) (uuid e i) = false) →
  ∃ saved,
    (generate_resolutions e w userId roomId).2 = json (resolutions_json saved)
    ∧ length saved = 3%nat.
Proof.
  intros Hmember Hallowed Henough Hclient Hfailed Hfresh Hnew.
  unfold generate_resolutions. rewrite Hmember. cbn.
  destruct (checkResolutionLimit _ _ _) as [limit counts]. cbn in Hallowed.
  rewrite Hallowed. cbn. rewrite bool_decide_eq_false_2
    by (rewrite getRoomMessages_length; lia).
  fold (messageTexts (db w) roomId).
  assert (Hgen : (generateResolutions (hf e) (messageTexts (db w) roomId)).1
                 = Ok generateFallbackResolutions).
  { rewrite Hclient. unfold generateResolutions.
    pose proof (Hfailed (first_request
                  (buildResolutionPrompt (join newline (messageTexts (db w) roomId))))) as Hfirst.
    pose proof (Hfailed (retry_request
                  (buildResolutionPrompt (join newline (messageTexts (db w) roomId))))) as Hretry.
    destruct (h (first_request _)) as [?|[| |?]]; try done.
    all: by destruct (h (retry_request _)) as [?|[| |?]]. }
  destruct (generateResolutions _ _) as [aiResponse calls]. cbn in Hgen. subst aiResponse.
  cbn -[createResolutions generateFallbackResolutions].
  unfold ensureRoomMember in Hmember.
  destruct (getRoomById (db w) roomId) as [room|] eqn:Hroom; [|done].
  destruct (createResolutions_fallback (db w) (uuid e) (now e) roomId)
    as (saved & d' & -> & Hlen); [by eapply getRoomById_has_id|done..|].
  by exists saved.
Qed.

(** * Further properties

    A run of the server is a sequence of [step]s: requests to the routes of
    the rooms, the messages, the resolutions and the votes, messages on a
    connection and closes of connections.  Registration, login, the listing
    of rooms, the statistics and the deletion of an account are no steps;
    they are treated on their own below. *)

(** ** The daily cap *)

Lemma used_today_check counts today userId :
  used_today (checkResolutionLimit counts today userId).2 today userId
  = used_today counts today userId
  ∧ ∃ userLimit,
      (checkResolutionLimit counts today userId).2 !! userId = Some userLimit
      ∧ ¬ resetDate userLimit < today.
Proof.
  unfold used_today, checkResolutionLimit.
  destruct (counts !! userId) as [userLimit|] eqn:Hentry.
  - case_bool_decide as Hstale; cbn.
    + rewrite lookup_insert_eq. cbn. rewrite bool_decide_eq_false_2 by lia.
      split; [done|]. eexists. split; [done|]. cbn. lia.
    + case_bool_decide; cbn; rewrite Hentry, bool_decide_eq_false_2 by done;
        (split; [done|]); by exists userLimit.
  - cbn. rewrite lookup_insert_eq. cbn. rewrite bool_decide_eq_false_2 by lia.
    split; [done|]. eexists. split; [done|]. cbn. lia.
Qed.

Lemma used_today_increment counts today now userId userLimit :
  counts !! userId = Some userLimit → ¬ resetDate userLimit < today →
  used_today (incrementResolutionCount counts now userId) today userId
  = used_today counts today userId + 1
  ∧ ∃ userLimit',
      incrementResolutionCount counts now userId !! userId = Some userLimit'
      ∧ ¬ resetDate userLimit' < today.
Proof.
  intros Hentry Hfresh. unfold used_today, incrementResolutionCount.
  rewrite Hentry, lookup_insert_eq. cbn. rewrite !bool_decide_eq_false_2 by done.
  split; [done|]. by eexists.
Qed.

Lemma used_today_record counts today userId nows userLimit :
  counts !! userId = Some userLimit → ¬ resetDate userLimit < today →
  used_today (record_generations counts userId nows) today userId
  = used_today counts today userId + Z.of_nat (length nows).
Proof.
  revert counts userLimit. induction nows as [|now nows IH]; intros counts userLimit Hentry Hfresh.
  - cbn. lia.
  - cbn [record_generations foldl length].
    destruct (used_today_increment counts today now userId userLimit Hentry Hfresh)
      as (Hone & userLimit' & Hentry' & Hfresh').
    unfold record_generations in IH. rewrite (IH _ userLimit') by done. lia.
Qed.

Lemma other_user_check counts today userId other :
  other ≠ userId → (checkResolutionLimit counts today userId).2 !! other = counts !! other.
Proof.
  intros Hother. unfold checkResolutionLimit.
  destruct (counts !! userId); repeat case_bool_decide; cbn;
    by rewrite ?lookup_insert_ne.
Qed.

Lemma other_user_increment counts now userId other :
  other ≠ userId → incrementResolutionCount counts now userId !! other = counts !! other.
Proof.
  intros Hother. unfold incrementResolutionCount.
  destruct (counts !! userId); by rewrite lookup_insert_ne.
Qed.

Lemma other_user_record counts userId nows other :
  other ≠ userId → record_generations counts userId nows !! other = counts !! other.
Proof.
  intros Hother. revert counts. induction nows as [|now nows IH]; intros counts; [done|].
  cbn. unfold record_generations in IH. by rewrite IH, other_user_increment.
Qed.

Lemma checkResolutionLimit_allowed counts today userId :
  allowed (checkResolutionLimit counts today userId).1
  = bool_decide (used_today counts today userId < 3)
  ∧ remaining (checkResolutionLimit counts today userId).1
    = (if allowed (checkResolutionLimit counts today userId).1
       then 3 - used_today counts today userId else 0).
Proof.
  unfold checkResolutionLimit, used_today.
  destruct (counts !! userId) as [userLimit|]; [|done].
  case_bool_decide; [done|]. case_bool_decide; cbn.
  - by rewrite bool_decide_eq_false_2 by lia.
  - by rewrite bool_decide_eq_true_2 by lia.
Qed.

(** X1: the check allows a request exactly while fewer than 3 generations of
    the day are recorded, and what it reports as remaining is 3 less those.  A
    counter of an earlier day counts as zero.  After a check, every recorded
    generation of the day adds one, so the next check of the day allows
    exactly when the earlier use and the new generations stay below 3; the
    counters of the other users are never touched. *)
Theorem daily_cap_counts_generations (counts : gmap string Limit) (today : Z)
    (userId : string) (nows : list Z) :
  let checked := checkResolutionLimit counts today userId in
  let used := used_today counts today userId in
  let recorded := record_generations checked.2 userId nows in
  allowed checked.1 = bool_decide (used < 3)
  ∧ remaining checked.1 = (if allowed checked.1 then 3 - used else 0)
  ∧ used_today recorded today userId = used + Z.of_nat (length nows)
  ∧ allowed (checkResolutionLimit recorded today userId).1
    = bool_decide (used + Z.of_nat (length nows) < 3)
  ∧ (∀ other, other ≠ userId →
       (checkResolutionLimit recorded today userId).2 !! other = counts !! other).
Proof.
  intros checked used recorded.
  pose proof (λ counts', checkResolutionLimit_allowed counts' today userId) as Hallowed.
  destruct (used_today_check counts today userId) as (Hsame & userLimit & Hentry & Hfresh).
  assert (Hrecorded : used_today recorded today userId = used + Z.of_nat (length nows)).
  { subst recorded checked used. by rewrite (used_today_record _ _ _ _ userLimit), Hsame. }
  split; [apply Hallowed|]. split; [apply Hallowed|]. split; [done|].
  split; [by rewrite (proj1 (Hallowed recorded)), Hrecorded|].
  intros other Hother. subst recorded checked.
  by rewrite other_user_check, other_user_record, other_user_check.
Qed.

Ltac not_answered :=
  cbn -[used_today]; (rewrite ?bool_decide_eq_false_2 by lia); repeat split;
  first [done | congruence | by auto].

(** What an answered request adds to the use of the day. *)
Lemma generate_resolutions_used e w userId roomId :
  used_today (resolutionCounts (generate_resolutions e w userId roomId).1) (today e) userId
  = (if bool_decide (status (generate_resolutions e w userId roomId).2 = 200)
     then used_today (resolutionCounts w) (today e) userId + 1
     else used_today (resolutionCounts w) (today e) userId)
  ∧ (status (generate_resolutions e w userId roomId).2 = 200 →
     used_today (resolutionCounts w) (today e) userId < 3).
Proof.
  unfold generate_resolutions.
  destruct (negb _); [not_answered|].
  pose proof (checkResolutionLimit_allowed (resolutionCounts w) (today e) userId) as [Hallowed _].
  destruct (used_today_check (resolutionCounts w) (today e) userId)
    as (Hsame & userLimit & Hentry & Hfresh).
  destruct (checkResolutionLimit _ _ _) as [limit counts]. cbn [fst snd] in *.
  destruct (allowed limit); cbn -[used_today]; [|not_answered].
  destruct (bool_decide (length _ < 4)%nat); cbn -[used_today]; [not_answered|].
  destruct (generateResolutions _ _) as [[aiResponse|err] calls]; cbn -[used_today]; [|not_answered].
  destruct (createResolutions _ _ _ _) as [[saved d]|]; cbn -[used_today]; [|not_answered].
  rewrite broadcastToRoom_frame. cbn -[used_today].
  destruct (used_today_increment counts (today e) (date e) userId userLimit Hentry Hfresh)
    as [-> _].
  rewrite bool_decide_eq_true_2 by done.
  split; [by rewrite Hsame|].
  intros _. symmetry in Hallowed. by apply bool_decide_eq_true in Hallowed.
Qed.

(** X2: a request for resolutions uses one unit of the user's daily cap
    exactly when it is answered with a batch, and it is answered only while
    fewer than 3 units of the day are used; a request that is denied, refused
    or fails, the failure of the service or of the database included, uses
    none.  The counters of the other users stay as they are. *)
Theorem generation_uses_one_unit (e : Env) (w : World) (userId roomId : string) :
  let answer := generate_resolutions e w userId roomId in
  let used w := used_today (resolutionCounts w) (today e) userId in
  used answer.1 = (if bool_decide (status answer.2 = 200) then used w + 1 else used w)
  ∧ (status answer.2 = 200 → used w < 3)
  ∧ (∀ other, other ≠ userId →
       resolutionCounts answer.1 !! other = resolutionCounts w !! other).
Proof.
  intros answer used. subst answer used. cbn beta.
  destruct (generate_resolutions_used e w userId roomId) as [Hused Hbelow].
  split; [done|]. split; [done|].
  intros other Hother. unfold generate_resolutions.
  destruct (negb _); [done|].
  pose proof (other_user_check (resolutionCounts w) (today e) userId other Hother) as Hothers.
  destruct (checkResolutionLimit _ _ _) as [limit counts]. cbn [fst snd] in *.
  destruct (allowed limit); cbn; [|done].
  destruct (bool_decide (length _ < 4)%nat); cbn; [done|].
  destruct (generateResolutions _ _) as [[aiResponse|err] calls]; cbn; [|done].
  destruct (createResolutions _ _ _ _) as [[saved d]|]; cbn; [|done].
  rewrite broadcastToRoom_frame. cbn.
  by rewrite other_user_increment, Hothers.
Qed.

(** X3: however many requests for resolutions a user makes on one day, in
    whatever rooms, each answered before the next comes in, the batches they
    are answered add up with what they had used to at most 3: a user who had
    used nothing is answered at most 3 batches a day.  (The cap is checked
    before the batch is generated and counted after it is saved, so this
    holds of requests that do not overlap.) *)
Theorem at_most_three_batches_a_day (w : World) (userId : string)
    (requests : list (Env * string)) (day : Z) :
  Forall (λ request, today request.1 = day) requests →
  let result := request_resolutions w userId requests in
  let used w := used_today (resolutionCounts w) day userId in
  used result.1 = used w + Z.of_nat result.2
  ∧ (result.2 ≠ 0%nat → used result.1 ≤ 3)
  ∧ (0 ≤ used w → (result.2 ≤ 3)%nat).
Proof.
  intros Hday. cbn zeta.
  assert (Hsum : used_today (resolutionCounts (request_resolutions w userId requests).1)
                   day userId
                 = used_today (resolutionCounts w) day userId
                   + Z.of_nat (request_resolutions w userId requests).2
                 ∧ ((request_resolutions w userId requests).2 ≠ 0%nat →
                    used_today (resolutionCounts (request_resolutions w userId requests).1)
                      day userId ≤ 3)).
  { revert w. induction Hday as [|[e roomId] requests He _ IH]; intros w.
    - cbn. split; [lia|done].
    - cbn in He. subst day. cbn [request_resolutions fst snd].
      destruct (generate_resolutions_used e w userId roomId) as [Hused Hbelow].
      destruct (IH (generate_resolutions e w userId roomId).1) as [IHsum IHcap].
      case_bool_decide as Hanswered; cbn [fst snd].
      + rewrite IHsum, Hused. split; [lia|]. intros _.
        destruct (decide ((request_resolutions (generate_resolutions e w userId roomId).1
                             userId requests).2 = 0%nat)) as [Hnone|Hsome].
        * rewrite Hnone in *. specialize (Hbelow Hanswered). lia.
        * specialize (IHcap Hsome). lia.
      + rewrite IHsum, Hused. split; [lia|]. intros Hsome. specialize (IHcap Hsome). lia. }
  destruct Hsum as [Hsum Hcap]. split; [done|]. split; [done|].
  intros Hnonneg.
  destruct (decide ((request_resolutions w userId requests).2 = 0%nat)) as [->|Hsome]; [lia|].
  specialize (Hcap Hsome). lia.
Qed.

Lemma at_most_three_batches_a_day_witness :
  Forall (λ request : Env * string, today request.1 = 0) four_requests
  ∧ ((request_resolutions (session four_messages []) "u1" four_requests).2 ≤ 3)%nat.
Proof.
  assert (Hday : Forall (λ request : Env * string, today request.1 = 0) four_requests)
    by (repeat constructor).
  split; [exact Hday|].
  destruct (at_most_three_batches_a_day (session four_messages []) "u1" four_requests 0 Hday)
    as (_ & _ & Hcap).
  apply Hcap. by vm_compute.
Defined.

(** The daily cap is checked before the batch is generated and counted after
    it is saved: four requests of Ann that overlap all pass the check, and
    she is answered four batches on one day. *)
Example overlapping_requests_pass_the_cap :
  let w := session four_messages [] in
  let overlapping :=
    play (((λ request : Env * string,
              requested (POST_generate_resolutions request.1 "u1" request.2))
             <$> four_requests)
          ++ (resumed <$> [0; 1; 2; 3; 0; 1; 2; 3; 0; 1; 2; 3; 0; 1; 2; 3]%nat)) (w, []) in
  rtc istep (w, []) overlapping
  ∧ omap (fmap status) (answers overlapping) = [200; 200; 200; 200]
  ∧ used_today (resolutionCounts overlapping.1) 0 "u1" = 4
  ∧ length (resolutions (db overlapping.1)) = (length (resolutions (db w)) + 12)%nat
  ∧ (request_resolutions w "u1" four_requests).2 = 3%nat.
Proof.
  intros w overlapping. split; [apply play_istep|].
  repeat split; vm_compute; reflexivity.
Qed.

(** ** The registry and the broadcasts *)


(** X4: a broadcast changes nothing but the wire, and the frames it writes
    are the event, once for every connection that is registered for the room
    and open, but for the excluded user's: a socket gets the event exactly
    when it is the open socket of such a registration.  A room without
    connections gets nothing. *)
Theorem broadcast_reaches_the_open_connections (w : World) (roomId : string)
    (m : WSMessage) (excludeUserId : option string) :
  ∃ frames,
    broadcastToRoom roomId m excludeUserId w = set_wire (λ l, l ++ frames) w
    ∧ (∀ s f, (s, f) ∈ frames
              ↔ f = event m
                ∧ ∃ userId client,
                    registered w roomId userId = Some client ∧ ws client = s
                    ∧ Some userId ≠ excludeUserId ∧ readyState w s = OPEN)
    ∧ (roomConnections w !! roomId = None → frames = []).
Proof.
  exists (fanout w roomId m excludeUserId). split; [apply broadcastToRoom_frame|].
  unfold fanout, registered.
  destruct (roomConnections w !! roomId) as [roomClients|]; cbn.
  - split; [|done]. intros s f. apply elem_of_frames.
  - split; [|done]. intros s f. rewrite elem_of_nil. split; [done|].
    by intros (_ & ? & ? & ? & _).
Qed.

(** X5: a [join_room] by a member under their own identity registers the
    connection for the room: the pair's entry holds this socket and name,
    whatever it held before, so a pair never has two; every other entry stays
    as it was.  [user_joined] is written to the open sockets that the other
    users have registered for the room and to no other, so never to a socket
    of the user who joins.  The connection remembers the room. *)
Theorem join_room_registers_the_connection (c : Conn) (w : World)
    (roomId userName : string) (room : Room.t) :
  getRoomById (db w) roomId = Some room →
  is_member room (authenticatedUserId c) = true →
  let userId := authenticatedUserId c in
  let r := on_message c w (join_room roomId userId userName) in
  r.1 = mkConn (socket c) userId (Some roomId)
  ∧ registered r.2 roomId userId = Some (mkClient (socket c) userName)
  ∧ (∀ room' user, (room', user) ≠ (roomId, userId) →
       registered r.2 room' user = registered w room' user)
  ∧ db r.2 = db w
  ∧ readyState r.2 = readyState w
  ∧ ∃ frames,
      wire r.2 = wire w ++ frames
      ∧ ∀ s f, (s, f) ∈ frames
               ↔ f = event (user_joined userId userName)
                 ∧ ∃ other client,
                     other ≠ userId ∧ registered w roomId other = Some client
                     ∧ ws client = s ∧ readyState w s = OPEN.
Proof.
  intros Hroom Hmember userId r. subst r userId. cbn.
  rewrite bool_decide_eq_false_2 by (intros Hne; by apply Hne).
  rewrite Hroom, Hmember. cbn.
  set (userId := authenticatedUserId c).
  set (roomClients := <[userId := mkClient (socket c) userName]>
                        (default ∅ (roomConnections w !! roomId))).
  split; [done|]. split; [|split; [|split; [done|split; [done|]]]].
  - unfold registered. cbn. rewrite lookup_insert_eq. cbn. subst roomClients.
    by rewrite lookup_insert_eq.
  - intros room' user Hother. unfold registered. cbn. rewrite lookup_insert.
    case_decide as Hsame; [|done]. subst room'. cbn. subst roomClients.
    rewrite lookup_insert_ne by congruence.
    destruct (roomConnections w !! roomId); [done|]. cbn. by rewrite lookup_empty.
  - eexists. split; [reflexivity|]. intros s f. rewrite elem_of_frames. cbn.
    split.
    + intros (-> & other & client & Hin & <- & Hother & Hopen). split; [done|].
      assert (other ≠ userId) by congruence.
      exists other, client. split; [done|]. split; [|done].
      subst roomClients. rewrite lookup_insert_ne in Hin by done.
      unfold registered. destruct (roomConnections w !! roomId); [done|].
      cbn in Hin. by rewrite lookup_empty in Hin.
    + intros (-> & other & client & Hother & Hin & <- & Hopen). split; [done|].
      exists other, client. split; [|split; [done|split; [congruence|done]]].
      subst roomClients. rewrite lookup_insert_ne by done.
      unfold registered in Hin. by destruct (roomConnections w !! roomId).
Qed.

Lemma join_room_registers_the_connection_witness :
  getRoomById (db (nobody_connected four_messages [])) "r0" = Some room_r0
  ∧ is_member room_r0 (authenticatedUserId bob_conn) = true
  ∧ registered (on_message bob_conn (nobody_connected four_messages [])
                  (join_room "r0" "u2" "Bob")).2 "r0" "u2"
    = Some (mkClient 2%nat "Bob").
Proof.
  assert (Hroom : getRoomById (db (nobody_connected four_messages [])) "r0" = Some room_r0)
    by reflexivity.
  assert (Hmember : is_member room_r0 (authenticatedUserId bob_conn) = true) by reflexivity.
  split; [exact Hroom|]. split; [exact Hmember|].
  exact (proj1 (proj2 (join_room_registers_the_connection bob_conn
                         (nobody_connected four_messages []) "r0" "Bob" room_r0
                         Hroom Hmember))).
Defined.

Lemma roomConnections_unregister_readyState c f w :
  roomConnections (unregister c (set_readyState f w)) = roomConnections (unregister c w).
Proof.
  unfold unregister. destruct (_ && _); [|done]. cbn.
  destruct (roomConnections w !! _); [|done]. by case_bool_decide.
Qed.

(** X6: [leave_room], whatever room and user the message names, and the close
    of a connection both unregister the connection's user from the room the
    connection joined last: the pair's entry is gone, whichever socket it
    held, and every other entry stays.  [user_left] is written to the open
    sockets still registered for the room and to no other.  The room keeps
    an entry in the registry exactly when another user is still registered
    for it. *)
Theorem unregister_removes_the_pair (c : Conn) (w : World) (roomId : string) :
  currentRoomId c = Some roomId → roomId ≠ "" → authenticatedUserId c ≠ "" →
  let userId := authenticatedUserId c in
  let w' := unregister c w in
  (∀ named_room named_user, (on_message c w (leave_room named_room named_user)).2 = w')
  ∧ roomConnections (on_close c w) = roomConnections w'
  ∧ registered w' roomId userId = None
  ∧ (∀ room' user, (room', user) ≠ (roomId, userId) →
       registered w' room' user = registered w room' user)
  ∧ (roomConnections w' !! roomId = None
     ↔ ∀ other, other ≠ userId → registered w roomId other = None)
  ∧ db w' = db w
  ∧ readyState w' = readyState w
  ∧ ∃ frames,
      wire w' = wire w ++ frames
      ∧ ∀ s f, (s, f) ∈ frames
               ↔ f = event (user_left userId)
                 ∧ ∃ other client,
                     other ≠ userId ∧ registered w roomId other = Some client
                     ∧ ws client = s ∧ readyState w s = OPEN.
Proof.
  intros Hcur Hroom Huser userId w'. subst w'.
  split; [done|]. split; [apply roomConnections_unregister_readyState|].
  unfold unregister. rewrite Hcur. cbn.
  unfold truthy. rewrite !bool_decide_eq_true_2 by done. cbn. fold userId.
  unfold registered.
  destruct (roomConnections w !! roomId) as [roomClients|] eqn:Hclients.
  - assert (Hothers : delete userId roomClients = ∅
                      ↔ ∀ other, other ≠ userId → roomClients !! other = None).
    { split.
      - intros Hempty other Hother.
        rewrite <- (lookup_delete_ne roomClients userId other) by done.
        by rewrite Hempty.
      - intros Hnone. apply map_eq. intros other. rewrite lookup_empty.
        destruct (decide (other = userId)) as [->|Hother].
        + apply lookup_delete_eq.
        + rewrite lookup_delete_ne by done. by apply Hnone. }
    assert (Hframes : ∀ s f,
              (s, f) ∈ (λ s, (s, event (user_left userId)))
                         <$> recipients w (delete userId roomClients) None
              ↔ f = event (user_left userId)
                ∧ ∃ other client,
                    other ≠ userId ∧ roomClients !! other = Some client
                    ∧ ws client = s ∧ readyState w s = OPEN).
    { intros s f. rewrite elem_of_frames. split.
      - intros (-> & other & client & Hin & <- & _ & Hopen). split; [done|].
        apply lookup_delete_Some in Hin as [Hother Hin]. by exists other, client.
      - intros (-> & other & client & Hother & Hin & <- & Hopen). split; [done|].
        exists other, client. split; [|done]. by apply lookup_delete_Some. }
    case_bool_decide as Hsize; cbn.
    + apply map_size_empty_iff in Hsize.
      rewrite lookup_delete_eq. cbn.
      split; [done|]. split.
      { intros room' user Hother. rewrite lookup_delete.
        case_decide as Hsame; [|by rewrite lookup_insert_ne].
        subst room'. rewrite Hclients. cbn.
        symmetry. apply Hothers; [done|congruence]. }
      split; [by split; [intros _; apply Hothers|]|].
      split; [done|]. split; [done|]. eexists. split; [reflexivity|]. apply Hframes.
    + rewrite lookup_insert_eq. cbn. rewrite lookup_delete_eq.
      split; [done|]. split.
      { intros room' user Hother. rewrite lookup_insert.
        case_decide as Hsame; [|done]. subst room'. rewrite Hclients. cbn.
        apply lookup_delete_ne. congruence. }
      split.
      { split; [done|]. intros Hnone. destruct Hsize.
        apply map_size_empty_iff. by apply Hothers. }
      split; [done|]. split; [done|]. eexists. split; [reflexivity|]. apply Hframes.
  - cbn. rewrite Hclients. cbn. repeat split; try done.
    exists []. split; [by rewrite app_nil_r|]. intros s f. rewrite elem_of_nil.
    split; [done|]. by intros (_ & ? & ? & _ & ? & _).
Qed.

Lemma unregister_removes_the_pair_witness :
  currentRoomId ann_conn = Some "r0" ∧ "r0" ≠ "" ∧ authenticatedUserId ann_conn ≠ ""
  ∧ registered (session four_messages []) "r0" "u1" = Some (mkClient 1%nat "Ann")
  ∧ registered (unregister ann_conn (session four_messages [])) "r0" "u1" = None.
Proof.
  assert (Hcur : currentRoomId ann_conn = Some "r0") by reflexivity.
  assert (Hroom : "r0" ≠ "") by done.
  assert (Huser : authenticatedUserId ann_conn ≠ "") by done.
  split; [exact Hcur|]. split; [exact Hroom|]. split; [exact Huser|].
  split; [reflexivity|].
  exact (proj1 (proj2 (proj2 (unregister_removes_the_pair ann_conn
                                (session four_messages []) "r0" Hcur Hroom Huser)))).
Defined.

(** The accepted join, as one equation. *)
Lemma on_message_join_member c w roomId userName room :
  getRoomById (db w) roomId = Some room →
  is_member room (authenticatedUserId c) = true →
  let userId := authenticatedUserId c in
  let roomClients :=
    <[userId := mkClient (socket c) userName]> (default ∅ (roomConnections w !! roomId)) in
  on_message c w (join_room roomId userId userName)
  = (mkConn (socket c) userId (Some roomId),
     notify roomClients (Some userId) (event (user_joined userId userName))
       (set_roomConnections (insert roomId roomClients) w)).
Proof.
  intros Hroom Hmember. cbn.
  rewrite bool_decide_eq_false_2 by (intros Hne; by apply Hne).
  by rewrite Hroom, Hmember.
Qed.

Lemma registered_unregister_other c w room user :
  (currentRoomId c = Some room → user ≠ authenticatedUserId c) →
  registered (unregister c w) room user = registered w room user.
Proof.
  intros Hother. unfold unregister.
  destruct (currentRoomId c) as [roomId|] eqn:Hcur; cbn; [|done].
  destruct (_ && _); [|done].
  destruct (roomConnections w !! roomId) as [roomClients|] eqn:Hclients; [|done].
  unfold registered.
  destruct (decide (room = roomId)) as [->|Hroom].
  - specialize (Hother eq_refl). case_bool_decide as Hsize; cbn.
    + rewrite lookup_delete_eq, Hclients. cbn.
      apply map_size_empty_iff in Hsize.
      rewrite <- (lookup_delete_ne roomClients (authenticatedUserId c) user) by done.
      by rewrite Hsize.
    + rewrite lookup_insert_eq, Hclients. cbn. by apply lookup_delete_ne.
  - case_bool_decide; cbn.
    + rewrite lookup_delete_ne by done. by rewrite lookup_insert_ne.
    + by rewrite lookup_insert_ne.
Qed.

Lemma readyState_unregister c w : readyState (unregister c w) = readyState w.
Proof.
  unfold unregister. destruct (_ && _); [|done].
  destruct (roomConnections w !! _); [|done]. by case_bool_decide.
Qed.

Lemma registered_unregister_gone c w roomId :
  currentRoomId c = Some roomId → roomId ≠ "" → authenticatedUserId c ≠ "" →
  registered (unregister c w) roomId (authenticatedUserId c) = None.
Proof.
  intros Hcur Hroom Huser. unfold unregister. rewrite Hcur. cbn.
  unfold truthy. rewrite !bool_decide_eq_true_2 by done. cbn. unfold registered.
  destruct (roomConnections w !! roomId) as [roomClients|] eqn:Hclients.
  - case_bool_decide; cbn.
    + by rewrite lookup_delete_eq.
    + rewrite lookup_insert_eq. cbn. apply lookup_delete_eq.
  - by rewrite Hclients.
Qed.

(** X7: when a user joins a room on a second connection, the second
    connection takes the place of the first in the registry; when the first
    connection then closes, the pair is unregistered, although the second
    connection is open and its socket untouched: broadcasts to the room no
    longer reach that user. *)
Theorem close_of_a_replaced_connection_unregisters (c1 c2 : Conn) (w : World)
    (roomId name1 name2 : string) (room : Room.t) :
  authenticatedUserId c2 = authenticatedUserId c1 →
  socket c2 ≠ socket c1 →
  authenticatedUserId c1 ≠ "" → roomId ≠ "" →
  getRoomById (db w) roomId = Some room →
  is_member room (authenticatedUserId c1) = true →
  let userId := authenticatedUserId c1 in
  let first := on_message c1 w (join_room roomId userId name1) in
  let second := on_message c2 first.2 (join_room roomId userId name2) in
  let closed := on_close first.1 second.2 in
  registered first.2 roomId userId = Some (mkClient (socket c1) name1)
  ∧ registered second.2 roomId userId = Some (mkClient (socket c2) name2)
  ∧ registered closed roomId userId = None
  ∧ readyState closed (socket c2) = readyState w (socket c2)
  ∧ ∀ m excludeUserId frames,
      broadcastToRoom roomId m excludeUserId closed = set_wire (λ l, l ++ frames) closed →
      ∀ s f, (s, f) ∈ frames →
             ∃ other client, other ≠ userId ∧ registered w roomId other = Some client
                             ∧ ws client = s.
Proof.
  intros Hsame Hsocket Huser Hroomid Hroom Hmember userId first second closed.
  pose proof (on_message_join_member c1 w roomId name1 room Hroom Hmember) as Hfirst.
  cbv zeta in Hfirst. fold userId in Hfirst. fold first in Hfirst.
  assert (Hroom1 : getRoomById (db first.2) roomId = Some room) by by rewrite Hfirst.
  assert (Hmember2 : is_member room (authenticatedUserId c2) = true) by by rewrite Hsame.
  pose proof (on_message_join_member c2 first.2 roomId name2 room Hroom1 Hmember2) as Hsecond.
  cbv zeta in Hsecond. rewrite Hsame in Hsecond. fold userId in Hsecond.
  fold second in Hsecond.
  clearbody second. subst second. clearbody first. subst first. cbn [fst snd] in *.
  set (clients1 := <[userId := mkClient (socket c1) name1]>
                     (default ∅ (roomConnections w !! roomId))) in *.
  set (w1 := notify clients1 (Some userId) (event (user_joined userId name1))
               (set_roomConnections (insert roomId clients1) w)) in *.
  set (clients2 := <[userId := mkClient (socket c2) name2]>
                     (default ∅ (roomConnections w1 !! roomId))) in *.
  set (w2 := notify clients2 (Some userId) (event (user_joined userId name2))
               (set_roomConnections (insert roomId clients2) w1)) in *.
  assert (Hclients1 : roomConnections w1 !! roomId = Some clients1)
    by apply lookup_insert_eq.
  assert (Hclients2 : roomConnections w2 !! roomId = Some clients2)
    by apply lookup_insert_eq.
  assert (Hregistered1 : registered w1 roomId userId = Some (mkClient (socket c1) name1)).
  { unfold registered. rewrite Hclients1. cbn. apply lookup_insert_eq. }
  assert (Hregistered2 : registered w2 roomId userId = Some (mkClient (socket c2) name2)).
  { unfold registered. rewrite Hclients2. cbn. apply lookup_insert_eq. }
  assert (Hothers : ∀ other, other ≠ userId →
            registered closed roomId other = registered w roomId other).
  { intros other Hother. subst closed. unfold on_close.
    rewrite registered_unregister_other by done.
    unfold registered at 1. cbn [roomConnections set_readyState]. rewrite Hclients2. cbn.
    subst clients2. rewrite lookup_insert_ne by done. rewrite Hclients1. cbn.
    subst clients1. rewrite lookup_insert_ne by done.
    unfold registered. destruct (roomConnections w !! roomId); [done|]. cbn.
    by rewrite lookup_empty. }
  assert (Hgone : registered closed roomId userId = None).
  { subst closed. unfold on_close.
    by apply (registered_unregister_gone (mkConn (socket c1) userId (Some roomId))). }
  split; [done|]. split; [done|]. split; [done|]. split.
  - subst closed. unfold on_close.
    rewrite readyState_unregister. cbn. by rewrite decide_False.
  - intros m excludeUserId frames Hframes s f Hin.
    destruct (broadcast_reaches_exactly closed roomId m excludeUserId)
      as (frames' & Hframes' & Hchar).
    assert (frames = frames') as ->.
    { rewrite Hframes' in Hframes. apply (f_equal wire) in Hframes. cbn in Hframes.
      by apply app_inv_head in Hframes. }
    apply Hchar in Hin as (_ & other & client & Hin & <- & _).
    destruct (decide (other = userId)) as [->|Hother]; [congruence|].
    exists other, client. split; [done|]. split; [|done]. by rewrite <- Hothers.
Qed.

Lemma close_of_a_replaced_connection_unregisters_witness :
  let w := nobody_connected four_messages [] in
  let c1 := mkConn 1%nat "u1" None in
  authenticatedUserId ann_again = authenticatedUserId c1
  ∧ socket ann_again ≠ socket c1
  ∧ authenticatedUserId c1 ≠ "" ∧ "r0" ≠ ""
  ∧ getRoomById (db w) "r0" = Some room_r0
  ∧ is_member room_r0 (authenticatedUserId c1) = true
  ∧ let first := on_message c1 w (join_room "r0" "u1" "Ann") in
    let second := on_message ann_again first.2 (join_room "r0" "u1" "Ann") in
    registered (on_close first.1 second.2) "r0" "u1" = None.
Proof.
  intros w c1.
  assert (Hsame : authenticatedUserId ann_again = authenticatedUserId c1) by reflexivity.
  assert (Hsocket : socket ann_again ≠ socket c1) by done.
  assert (Huser : authenticatedUserId c1 ≠ "") by done.
  assert (Hroomid : "r0" ≠ "") by done.
  assert (Hroom : getRoomById (db w) "r0" = Some room_r0) by reflexivity.
  assert (Hmember : is_member room_r0 (authenticatedUserId c1) = true) by reflexivity.
  repeat (split; [assumption|]).
  exact (proj1 (proj2 (proj2 (close_of_a_replaced_connection_unregisters c1 ann_again w
                                "r0" "Ann" "Ann" room_r0
                                Hsame Hsocket Huser Hroomid Hroom Hmember)))).
Defined.

(** X8: a connection is unregistered only from the room it joined last.  When
    it joins a second room, its registration for the first stays, and stays
    when the connection closes; the closed socket is then never written to
    again. *)
Theorem close_unregisters_from_the_last_room_only (c : Conn) (w : World)
    (earlier roomId userName : string) (room : Room.t) :
  earlier ≠ roomId →
  getRoomById (db w) roomId = Some room →
  is_member room (authenticatedUserId c) = true →
  let joined := on_message c w (join_room roomId (authenticatedUserId c) userName) in
  let closed := on_close joined.1 joined.2 in
  (∀ user, registered closed earlier user = registered w earlier user)
  ∧ readyState closed (socket c) = CLOSED
  ∧ ∀ room' m excludeUserId frames,
      broadcastToRoom room' m excludeUserId closed = set_wire (λ l, l ++ frames) closed →
      ∀ f, (socket c, f) ∉ frames.
Proof.
  intros Hearlier Hroom Hmember joined closed.
  pose proof (on_message_join_member c w roomId userName room Hroom Hmember) as Hjoined.
  cbv zeta in Hjoined. fold joined in Hjoined.
  clearbody joined. subst joined. cbn [fst snd] in *.
  assert (Hclosed : readyState closed (socket c) = CLOSED).
  { subst closed. unfold on_close. rewrite readyState_unregister. cbn.
    by rewrite decide_True. }
  split; [|split; [done|]].
  - intros user. subst closed. unfold on_close.
    rewrite registered_unregister_other by (cbn; congruence).
    unfold registered. cbn. by rewrite lookup_insert_ne.
  - intros room' m excludeUserId frames Hframes f Hin.
    destruct (broadcast_reaches_exactly closed room' m excludeUserId)
      as (frames' & Hframes' & Hchar).
    assert (frames = frames') as ->.
    { rewrite Hframes' in Hframes. apply (f_equal wire) in Hframes. cbn in Hframes.
      by apply app_inv_head in Hframes. }
    apply Hchar in Hin as (_ & _ & _ & _ & _ & _ & Hopen). congruence.
Qed.

Lemma close_unregisters_from_the_last_room_only_witness :
  let c := mkConn 1%nat "u1" (Some "r1") in
  let w := session four_messages [] in
  "r1" ≠ "r0"
  ∧ getRoomById (db w) "r0" = Some room_r0
  ∧ is_member room_r0 (authenticatedUserId c) = true
  ∧ let joined := on_message c w (join_room "r0" "u1" "Ann") in
    readyState (on_close joined.1 joined.2) 1%nat = CLOSED.
Proof.
  intros c w.
  assert (Hearlier : "r1" ≠ "r0") by done.
  assert (Hroom : getRoomById (db w) "r0" = Some room_r0) by reflexivity.
  assert (Hmember : is_member room_r0 (authenticatedUserId c) = true) by reflexivity.
  repeat (split; [assumption|]).
  exact (proj1 (proj2 (close_unregisters_from_the_last_room_only c w "r1" "r0" "Ann" room_r0
                         Hearlier Hroom Hmember))).
Defined.

(** X9: the registry keeps no room without connections.  From a world where
    nobody is registered, along every run of the server, every room that has an
    entry in the registry has a user registered for it: the entry of a room
    goes with its last connection. *)
Theorem registry_holds_no_empty_room (w w' : World) :
  roomConnections w = ∅ →
  rtc step w w' →
  ∀ roomId roomClients,
    roomConnections w' !! roomId = Some roomClients →
    ∃ userId client, registered w' roomId userId = Some client.
Proof.
  intros Hempty Hsteps.
  assert (Hok : registry_ok w') .
  { assert (Hstart : registry_ok w).
    { intros roomId roomClients. by rewrite Hempty, lookup_empty. }
    clear Hempty. induction Hsteps as [|w w1 w' Hstep _ IH]; [done|].
    apply IH. by eapply step_registry_ok. }
  intros roomId roomClients Hclients.
  destruct (map_choose roomClients) as (userId & client & Hentry); [by eapply Hok|].
  exists userId, client. unfold registered. by rewrite Hclients.
Qed.

Lemma registry_holds_no_empty_room_witness :
  let w := nobody_connected four_messages [] in
  let joined := on_message bob_conn w (join_room "r0" "u2" "Bob") in
  let left := on_close joined.1 joined.2 in
  roomConnections w = ∅ ∧ rtc step w left
  ∧ ∀ roomId roomClients,
      roomConnections left !! roomId = Some roomClients →
      ∃ userId client, registered left roomId userId = Some client.
Proof.
  intros w joined left.
  assert (Hempty : roomConnections w = ∅) by reflexivity.
  assert (Hsteps : rtc step w left).
  { eapply rtc_l; [apply (step_message bob_conn w (join_room "r0" "u2" "Bob"))|].
    apply rtc_once. apply step_close. }
  split; [exact Hempty|]. split; [exact Hsteps|].
  exact (registry_holds_no_empty_room w left Hempty Hsteps).
Defined.

(** ** Messages *)

Lemma createMessage_Ok d uuid now insertMessage m d' :
  createMessage d uuid now insertMessage = Ok (m, d') →
  m = Message.mk uuid (InsertMessage.roomId insertMessage)
        (InsertMessage.senderId insertMessage) (InsertMessage.text insertMessage)
        (InsertMessage.transcript insertMessage)
        (default false (InsertMessage.isVoice insertMessage))
        (InsertMessage.voiceUrl insertMessage) now
  ∧ d' = set_messages (λ t, t ++ [m]) d
  ∧ has_id Message.id (messages d) uuid = false
  ∧ has_id User.id (users d) (InsertMessage.senderId insertMessage) = true
  ∧ first_refused (message_parameters insertMessage) = None.
Proof.
  unfold createMessage. intros Hcreated.
  destruct (first_refused _) eqn:Hread; [done|].
  destruct (has_id Message.id (messages d) uuid) eqn:Hfresh; [done|].
  destruct (has_id Room.id (rooms d) (InsertMessage.roomId insertMessage)); [|done].
  destruct (has_id User.id (users d) (InsertMessage.senderId insertMessage)); [|done].
  cbn in Hcreated. by simplify_eq.
Qed.

Lemma senderName_set_messages f d userId :
  senderName (set_messages f d) userId = senderName d userId.
Proof. done. Qed.



Lemma elem_of_getRoomMessages d roomId m :
  m ∈ getRoomMessages d roomId ↔ m ∈ messages d ∧ Message.roomId m = roomId.
Proof.
  unfold getRoomMessages. rewrite merge_sort_Permutation, list_elem_of_filter. tauto.
Qed.

Lemma optional_string_Ok v o :
  optional_string v = Ok o
  ↔ (v = js_undefined ∨ ∃ s, v = js_string s) ∧ o = as_string v.
Proof.
  destruct v; cbn; split; try done; try (intros [[|[? ?]] _]; done).
  - intros [= <-]. by split; [left|].
  - by intros [_ ->].
  - intros [= <-]. split; [right; by eexists|done].
  - by intros [_ ->].
Qed.

Lemma optional_boolean_Ok v o :
  optional_boolean v = Ok o
  ↔ (v = js_undefined ∨ ∃ b, v = js_boolean b) ∧ o = as_boolean v.
Proof.
  destruct v; cbn; split; try done; try (intros [[|[? ?]] _]; done).
  - intros [= <-]. by split; [left|].
  - by intros [_ ->].
  - intros [= <-]. split; [right; by eexists|done].
  - by intros [_ ->].
Qed.

Lemma nullish_string_Ok v o :
  nullish_string v = Ok o
  ↔ (v = js_undefined ∨ v = js_null ∨ ∃ s, v = js_string s) ∧ o = as_string v.
Proof.
  destruct v; cbn; split; try done; try (intros [[|[|[? ?]]] _]; done).
  - intros [= <-]. by split; [left|].
  - by intros [_ ->].
  - intros [= <-]. by split; [right; left|].
  - by intros [_ ->].
  - intros [= <-]. split; [right; right; by eexists|done].
  - by intros [_ ->].
Qed.

(** What the schema accepts, and what it makes of it. *)
Lemma insertMessageSchema_parse_Ok roomId senderId b data :
  insertMessageSchema_parse roomId senderId b = Ok data
  ↔ message_schema b
    ∧ data = InsertMessage.mk roomId senderId (as_string (body_text b))
               (as_string (body_transcript b)) (as_boolean (body_isVoice b))
               (as_string (body_voiceUrl b)).
Proof.
  unfold insertMessageSchema_parse, message_schema.
  destruct (optional_string (body_text b)) as [text|] eqn:Htext.
  2:{ split; [done|]. intros [(Hshape & _) _].
      destruct Hshape as [Hv|(t & Hv & _)]; by rewrite Hv in Htext. }
  destruct (optional_string (body_transcript b)) as [transcript|] eqn:Htranscript.
  2:{ split; [done|]. intros [(_ & Hshape & _) _].
      destruct Hshape as [Hv|(t & Hv)]; by rewrite Hv in Htranscript. }
  destruct (optional_boolean (body_isVoice b)) as [isVoice|] eqn:HisVoice.
  2:{ split; [done|]. intros [(_ & _ & Hshape & _) _].
      destruct Hshape as [Hv|(t & Hv)]; by rewrite Hv in HisVoice. }
  destruct (nullish_string (body_voiceUrl b)) as [voiceUrl|] eqn:HvoiceUrl.
  2:{ split; [done|]. intros [(_ & _ & _ & Hshape) _].
      destruct Hshape as [Hv|[Hv|(t & Hv)]]; by rewrite Hv in HvoiceUrl. }
  apply optional_string_Ok in Htext as [Htext ->], Htranscript as [Htranscript ->].
  apply optional_boolean_Ok in HisVoice as [HisVoice ->].
  apply nullish_string_Ok in HvoiceUrl as [HvoiceUrl ->].
  case_bool_decide as Hlong.
  - split; [done|]. intros [(Hshort & _) _].
    destruct Hshort as [Hnone|(t & Ht & Hshort)]; rewrite ?Hnone, ?Ht in Hlong; cbn in Hlong; lia.
  - split.
    + intros [= <-]. split; [|done]. repeat split; try done.
      destruct Htext as [|[t Ht]]; [by left|right].
      exists t. split; [done|]. rewrite Ht in Hlong. cbn in Hlong. lia.
    + by intros [_ ->].
Qed.

Lemma nullable_text_column_read o :
  refusal (nullable_text_column o) = None ↔ Forall (λ t, has_nul t = false) (option_list o).
Proof.
  destruct o as [t|]; cbn; [|by split; [constructor|]].
  destruct (has_nul t) eqn:Ht; cbn.
  - split; [done|]. intros Hall. apply Forall_cons in Hall as [Hall _]. congruence.
  - split; [|done]. intros _. by repeat constructor.
Qed.

(** The database reads the texts of a message exactly when none has a NUL. *)
Lemma message_texts_read roomId senderId b isVoice :
  first_refused
    (message_parameters
       (InsertMessage.mk roomId senderId (as_string (body_text b))
          (as_string (body_transcript b)) isVoice (as_string (body_voiceUrl b)))) = None
  ↔ Forall (λ t, has_nul t = false) (message_texts b).
Proof.
  unfold message_parameters, message_texts, first_refused. cbn.
  pose proof (nullable_text_column_read (as_string (body_text b))) as Htext.
  pose proof (nullable_text_column_read (as_string (body_transcript b))) as Htranscript.
  pose proof (nullable_text_column_read (as_string (body_voiceUrl b))) as HvoiceUrl.
  destruct (as_string (body_text b)) as [text|],
           (as_string (body_transcript b)) as [transcript|],
           (as_string (body_voiceUrl b)) as [voiceUrl|]; cbn in *.
  all: repeat match goal with
       | |- context [refusal ?r] => destruct (refusal r) eqn:?
       end; cbn.
  all: rewrite ?Forall_cons, ?Forall_nil in *.
  all: split; try done; intros; try tauto.
  all: repeat match goal with H : _ ↔ _ |- _ => destruct H end; try tauto; try done.
  all: exfalso; auto; try tauto.
Qed.

(** What a stored message changes. *)
Lemma post_message_stored e w userId roomId b :
  status (post_message e w userId roomId b).2 = 200 →
  let m := posted e userId roomId b in
  ensureRoomMember w roomId userId = true
  ∧ message_schema b
  ∧ Forall (λ t, has_nul t = false) (message_texts b)
  ∧ has_id Message.id (messages (db w)) (uuid e 0%nat) = false
  ∧ has_id User.id (users (db w)) userId = true
  ∧ post_message e w userId roomId b
    = (broadcastToRoom roomId (new_message m (senderName (db w) userId)) None
         (set_db (set_messages (λ t, t ++ [m])) w),
       json (message_json m)).
Proof.
  intros Hok m. subst m. unfold post_message in *.
  destruct (ensureRoomMember w roomId userId); [|done]. cbn [negb] in *.
  destruct (insertMessageSchema_parse roomId userId b) as [data|] eqn:Hparsed; [|done].
  apply insertMessageSchema_parse_Ok in Hparsed as [Hschema ->].
  destruct (createMessage _ _ _ _) as [[created d]|err] eqn:Hcreated; [|done].
  apply createMessage_Ok in Hcreated as (-> & -> & Hfresh & Huser & Hread). cbn in Huser.
  split; [done|]. split; [done|].
  split; [exact (proj1 (message_texts_read roomId userId b _) Hread)|].
  repeat (split; [done|]). done.
Qed.

Lemma ensureRoomMember_same_rooms w w' roomId userId :
  rooms (db w') = rooms (db w) →
  ensureRoomMember w' roomId userId = ensureRoomMember w roomId userId.
Proof. intros Hrooms. unfold ensureRoomMember, getRoomById. by rewrite Hrooms. Qed.

Lemma ensureRoomMember_true w roomId userId :
  ensureRoomMember w roomId userId = true →
  has_id Room.id (rooms (db w)) roomId = true
  ∧ ∃ room, getRoomById (db w) roomId = Some room ∧ is_member room userId = true.
Proof.
  unfold ensureRoomMember. destruct (getRoomById (db w) roomId) as [room|] eqn:Hroom; [|done].
  intros Hmember. split; [by eapply getRoomById_has_id|by exists room].
Qed.

Lemma senderName_same_users d d' userId :
  users d' = users d → senderName d' userId = senderName d userId.
Proof. intros Husers. unfold senderName, getUserById. by rewrite Husers. Qed.




(** X11: a message is stored exactly when the caller is a member of the
    room, the body passes the schema (the text, if any, is a string of at
    most 5000 code units, the transcript, if any, a string, the voice flag,
    if any, a boolean, and the address of the recording a string, null or
    absent), none of its texts holds a NUL, which the database refuses, the
    caller is a registered user and the new identifier is not taken.  A
    refused message changes nothing and reaches nobody; the refusal is 403
    for a caller who is no member and 400 otherwise. *)
Theorem message_is_stored_exactly_when (e : Env) (w : World)
    (userId roomId : string) (b : MessageBody) :
  let answer := post_message e w userId roomId b in
  (status answer.2 = 200
   ↔ ensureRoomMember w roomId userId = true
     ∧ message_schema b
     ∧ Forall (λ t, has_nul t = false) (message_texts b)
     ∧ has_id User.id (users (db w)) userId = true
     ∧ has_id Message.id (messages (db w)) (uuid e 0%nat) = false)
  ∧ (status answer.2 ≠ 200 →
     answer.1 = w
     ∧ status answer.2 = (if ensureRoomMember w roomId userId then 400 else 403)).
Proof.
  intros answer. split; [split|].
  - intros Hok. subst answer.
    by destruct (post_message_stored e w userId roomId b Hok) as (? & ? & ? & ? & ? & _).
  - intros (Hmember & Hschema & Hread & Huser & Hfresh). subst answer.
    unfold post_message. rewrite Hmember. cbn [negb].
    destruct (ensureRoomMember_true w roomId userId Hmember) as [Hroom _].
    rewrite (proj2 (insertMessageSchema_parse_Ok roomId userId b _) (conj Hschema eq_refl)).
    unfold createMessage.
    rewrite (proj2 (message_texts_read roomId userId b _) Hread).
    cbn [InsertMessage.roomId InsertMessage.senderId].
    by rewrite Hfresh, Huser, Hroom.
  - subst answer. unfold post_message.
    destruct (ensureRoomMember w roomId userId); cbn [negb]; [|done].
    destruct (insertMessageSchema_parse _ _ _) as [data|err]; [|done].
    destruct (createMessage _ _ _ _) as [[m d]|err]; done.
Qed.

(** Bodies at the edges of the schema: a text of 2501 euro signs, which
    are 7503 bytes and 2501 code units, is stored, one of 2501 characters
    outside the basic plane, 5002 code units, is refused; a text that is
    null and a voice flag that is a number are refused, an address of the
    recording that is null is not; a NUL passes the schema and the database
    refuses it. *)
Example message_bodies_against_the_schema :
  let e := session_env None "n" in
  let w := session four_messages [] in
  let answer b := status (post_message e w "u1" "r0" b).2 in
  String.length (repeated 2501%N "€") = (3 * 2501)%nat
  ∧ answer (say (repeated 2501%N "€")) = 200
  ∧ answer (say (repeated 5000%N "a")) = 200
  ∧ answer (say (repeated 5001%N "a")) = 400
  ∧ answer (say (repeated 2501%N "😀")) = 400
  ∧ answer (mkMessageBody js_undefined js_undefined js_undefined js_undefined) = 200
  ∧ answer (mkMessageBody js_null js_undefined js_undefined js_undefined) = 400
  ∧ answer (mkMessageBody (js_string "Agreed.") js_undefined (js_number 1) js_undefined) = 400
  ∧ answer (mkMessageBody (js_string "Agreed.") js_undefined js_undefined js_null) = 200
  ∧ answer (say (String Ascii.zero "")) = 400.
Proof.
  intros e w answer. subst answer. cbv beta.
  repeat (split; [vm_compute; reflexivity|]). vm_compute. reflexivity.
Qed.



Lemma transcribe_stored e w userId roomId audioFile :
  status (transcribe e w userId roomId audioFile).2 = 200 →
  let m := Message.mk (uuid e 0%nat) roomId userId (Some "")
             (Some "Voice message (transcription unavailable)") true
             (Some "/audio/placeholder.webm") (now e) in
  audioFile = true
  ∧ ensureRoomMember w roomId userId = true
  ∧ transcribe e w userId roomId audioFile
    = (broadcastToRoom roomId (new_message m (senderName (db w) userId)) None
         (set_db (set_messages (λ t, t ++ [m])) w),
       json (message_json m)).
Proof.
  intros Hok m. subst m. unfold transcribe in *.
  destruct audioFile; [|done]. cbn [negb] in *.
  destruct (ensureRoomMember w roomId userId); [|done]. cbn [negb] in *.
  destruct (createMessage _ _ _ _) as [[created d]|err] eqn:Hcreated; [|done].
  by apply createMessage_Ok in Hcreated as (-> & -> & _ & _).
Qed.

(** X13: an uploaded recording is never transcribed.  Whatever the audio,
    the message that is stored has the empty text, a fixed notice as its
    transcript and a fixed address as its recording, and the notice is what
    the message adds to the conversation that a later request for resolutions
    sends to the model. *)
Theorem voice_message_is_a_fixed_notice (e : Env) (w : World) (userId roomId : string)
    (audioFile : bool) :
  status (transcribe e w userId roomId audioFile).2 = 200 →
  let w' := (transcribe e w userId roomId audioFile).1 in
  let m := Message.mk (uuid e 0%nat) roomId userId (Some "")
             (Some "Voice message (transcription unavailable)") true
             (Some "/audio/placeholder.webm") (now e) in
  audioFile = true
  ∧ ensureRoomMember w roomId userId = true
  ∧ (transcribe e w userId roomId audioFile).2 = json (message_json m)
  ∧ db w' = set_messages (λ t, t ++ [m]) (db w)
  ∧ spoken m = "Voice message (transcription unavailable)"
  ∧ "Voice message (transcription unavailable)" ∈ messageTexts (db w') roomId.
Proof.
  intros Hok w' m.
  destruct (transcribe_stored e w userId roomId audioFile Hok) as (Haudio & Hmember & Hstored).
  cbv zeta in Hstored. fold m in Hstored. subst w'. rewrite Hstored. cbn [fst snd].
  rewrite db_broadcastToRoom.
  repeat (split; [done|]).
  unfold messageTexts. apply list_elem_of_fmap. exists m. split; [done|].
  apply elem_of_getRoomMessages. cbn. split; [|done].
  apply elem_of_app. right. by apply list_elem_of_singleton.
Qed.

Lemma voice_message_is_a_fixed_notice_witness :
  let e := session_env None "n" in
  let w := session three_messages [] in
  status (transcribe e w "u2" "r0" true).2 = 200
  ∧ "Voice message (transcription unavailable)"
    ∈ messageTexts (db (transcribe e w "u2" "r0" true).1) "r0".
Proof.
  intros e w.
  assert (Hok : status (transcribe e w "u2" "r0" true).2 = 200) by reflexivity.
  split; [exact Hok|].
  exact (proj2 (proj2 (proj2 (proj2 (proj2
    (voice_message_is_a_fixed_notice e w "u2" "r0" true Hok)))))).
Defined.

(** ** Rooms *)

Lemma createRoom_fresh_code d uuid now insertRoom room d' :
  createRoom d uuid now insertRoom = Ok (room, d') →
  InsertRoom.code insertRoom ∉ Room.code <$> rooms d.
Proof.
  unfold createRoom. intros Hnew.
  destruct (has_id Room.id (rooms d) uuid); [done|].
  by case_bool_decide.
Qed.

Lemma getRoomByCode_fresh d code room :
  code ∉ Room.code <$> rooms d →
  Room.code room = code →
  getRoomByCode (set_rooms (λ t, t ++ [room]) d) code = Some room.
Proof.
  intros Hfresh Hcode. unfold getRoomByCode. cbn.
  rewrite (head_filter_snoc (λ r, Room.code r = code)).
  replace (head (filter (λ r, Room.code r = code) (rooms d))) with (@None Room.t).
  - by rewrite decide_True.
  - symmetry. apply (head_filter_None (λ r, Room.code r = code)).
    intros r Hr Hsame. apply Hfresh. rewrite <- Hsame. by apply list_elem_of_fmap_2.
Qed.

Lemma create_room_stored e w userId :
  status (create_room e w userId).2 = 200 →
  let room := created_room e userId in
  create_room e w userId = (set_db (set_rooms (λ t, t ++ [room])) w, json (room_json room))
  ∧ (nanoid e ∉ Room.code <$> rooms (db w))
  ∧ has_id Room.id (rooms (db w)) (uuid e 0%nat) = false
  ∧ has_id User.id (users (db w)) userId = true.
Proof.
  intros Hok room. subst room. unfold create_room in *.
  destruct (createRoom _ _ _ _) as [[room d]|] eqn:Hnew; [|done].
  pose proof (createRoom_fresh_code _ _ _ _ _ _ Hnew) as Hcode.
  apply createRoom_Ok in Hnew as (Hfresh & Hcreator & -> & ->).
  by repeat split.
Qed.

Lemma is_member_slot2 room userId :
  is_member (set_participant2Id userId room) userId = true.
Proof.
  unfold is_member. cbn. rewrite (bool_decide_eq_true_2 (Some userId = Some userId)) by done.
  by rewrite orb_true_r.
Qed.

Lemma is_member_slot1 room userId :
  is_member (set_participant1Id userId room) userId = true.
Proof.
  unfold is_member. cbn. rewrite (bool_decide_eq_true_2 (Some userId = Some userId)) by done.
  by rewrite orb_true_r.
Qed.

(** X14: the code of a new room opens it.  The room is stored with a code no
    other room has, its creator in the first slot and the second slot empty.
    Any registered user who then joins by that code is answered with the
    room as it was before the join, second slot empty, and is a member from
    then on, as the creator is; a joiner other than the creator sits in the
    second slot. *)
Theorem created_room_is_joined_by_its_code (e : Env) (w : World) (creator joiner : string) :
  status (create_room e w creator).2 = 200 →
  has_id User.id (users (db w)) joiner = true →
  let created := create_room e w creator in
  let room := created_room e creator in
  let joined := join_room_by_code created.1 joiner (nanoid e) in
  created.2 = json (room_json room)
  ∧ db created.1 = set_rooms (λ t, t ++ [room]) (db w)
  ∧ (nanoid e ∉ Room.code <$> rooms (db w))
  ∧ joined.2 = json (room_json room)
  ∧ ensureRoomMember joined.1 (uuid e 0%nat) joiner = true
  ∧ ensureRoomMember joined.1 (uuid e 0%nat) creator = true
  ∧ (creator ≠ "" → joiner ≠ creator →
     getRoomById (db joined.1) (uuid e 0%nat) = Some (set_participant2Id joiner room)).
Proof.
  intros Hok Hjoiner created room joined.
  destruct (create_room_stored e w creator Hok) as (Hcreated & Hcode & Hfresh & Hcreator).
  cbv zeta in Hcreated. fold room in Hcreated.
  subst joined created. rewrite Hcreated. cbn [fst snd].
  split; [done|]. split; [done|]. split; [done|].
  set (w1 := set_db (set_rooms (λ t, t ++ [room])) w).
  assert (Hfound : getRoomById (db w1) (uuid e 0%nat) = Some room).
  { unfold getRoomById. cbn. rewrite (head_filter_snoc (λ r, Room.id r = uuid e 0%nat)).
    apply has_id_false_getRoomById in Hfresh. unfold getRoomById in Hfresh.
    rewrite Hfresh. by rewrite decide_True. }
  unfold join_room_by_code.
  replace (getRoomByCode (db w1) (nanoid e)) with (Some room)
    by (symmetry; by apply getRoomByCode_fresh).
  cbn [Room.id room created_room].
  unfold updateRoomParticipant. rewrite Hfound.
  cbn [Room.participant1Id Room.participant2Id room created_room falsy andb].
  assert (Husers : users (db w1) = users (db w)) by done. rewrite Husers, Hjoiner.
  assert (Hcreator_member : is_member room creator = true).
  { unfold is_member. cbn. by rewrite bool_decide_eq_true_2. }
  assert (Hupdated : ∀ f, keep_id f →
            getRoomById (update_room (uuid e 0%nat) f (db w1)) (uuid e 0%nat) = Some (f room)).
  { intros f Hkeep. rewrite getRoomById_update_room, Hfound by done. cbn.
    by rewrite decide_True. }
  destruct (truthy creator) eqn:Hnamed; cbn [negb].
  - case_bool_decide as Hother; cbn [fst snd].
    + split; [done|]. unfold ensureRoomMember. cbn [db set_db].
      rewrite Hupdated by apply keep_id_set_participant2Id.
      split; [apply is_member_slot2|]. split; [|done].
      unfold is_member. cbn. by rewrite bool_decide_eq_true_2.
    + split; [done|]. unfold ensureRoomMember. cbn [db set_db]. rewrite Hfound.
      assert (joiner = creator) as -> by congruence.
      split; [done|]. split; [done|]. done.
  - cbn [fst snd]. split; [done|]. unfold ensureRoomMember. cbn [db set_db].
    rewrite Hupdated by apply keep_id_set_participant1Id.
    split; [apply is_member_slot1|]. split.
    + unfold is_member. cbn. by rewrite bool_decide_eq_true_2.
    + intros Hne. unfold truthy in Hnamed. by rewrite bool_decide_eq_true_2 in Hnamed.
Qed.

Lemma created_room_is_joined_by_its_code_witness :
  let e := session_env None "n" in
  let w := session four_messages [] in
  status (create_room e w "u3").2 = 200
  ∧ has_id User.id (users (db w)) "u2" = true
  ∧ ensureRoomMember (join_room_by_code (create_room e w "u3").1 "u2" (nanoid e)).1
      (uuid e 0%nat) "u2" = true.
Proof.
  intros e w.
  assert (Hok : status (create_room e w "u3").2 = 200) by reflexivity.
  assert (Huser : has_id User.id (users (db w)) "u2" = true) by reflexivity.
  split; [exact Hok|]. split; [exact Huser|].
  exact (proj1 (proj2 (proj2 (proj2 (proj2
    (created_room_is_joined_by_its_code e w "u3" "u2" Hok Huser)))))).
Defined.

Lemma update_room_codes d roomId f :
  (∀ r, Room.code (f r) = Room.code r) →
  Room.code <$> rooms (update_room roomId f d) = Room.code <$> rooms d.
Proof.
  intros Hkeep. cbn. rewrite <- list_fmap_compose. apply list_fmap_ext.
  intros _ r _. cbn. case_decide; [apply Hkeep|done].
Qed.

Lemma db_op_codes d d' : db_op d d' → codes_ok d → codes_ok d'.
Proof.
  unfold codes_ok. intros Hop Hcodes.
  destruct Hop as [d uuid now code userId room d' Hnew|d roomId p d' Hjoin|
                   d roomId status resolvedAt| | |].
  - pose proof (createRoom_fresh_code _ _ _ _ _ _ Hnew) as Hfresh.
    apply createRoom_Ok in Hnew as (_ & _ & -> & ->). cbn in *.
    rewrite fmap_app. apply NoDup_app. split; [done|]. split; [|apply NoDup_singleton].
    by intros code' Hcode' ->%list_elem_of_singleton.
  - unfold updateRoomParticipant in Hjoin.
    repeat (case_match; try discriminate Hjoin); simplify_eq; try done;
      by rewrite update_room_codes.
  - unfold updateRoomStatus. by rewrite update_room_codes.
  - by split_ops.
  - by split_ops.
  - by split_ops.
Qed.

Lemma getRoomByCode_unique d room :
  codes_ok d → room ∈ rooms d → getRoomByCode d (Room.code room) = Some room.
Proof.
  unfold codes_ok, getRoomByCode. induction (rooms d) as [|x l IH]; intros Hnodup Hin.
  - by apply elem_of_nil in Hin.
  - rewrite fmap_cons in Hnodup. apply NoDup_cons in Hnodup as [Hfresh Hnodup].
    rewrite filter_cons. apply elem_of_cons in Hin as [->|Hin].
    + by rewrite decide_True.
    + rewrite decide_False; [by apply IH|].
      intros Heq. apply Hfresh. rewrite Heq. by apply list_elem_of_fmap_2.
Qed.

(** X15: no two rooms ever share a code.  Along every run of the server the
    codes of the stored rooms stay pairwise different, no room ever changes
    its code, and joining by the code of a stored room is answered with that
    room and no other. *)
Theorem room_codes_stay_unique (w w' : World) :
  codes_ok (db w) →
  rtc step w w' →
  codes_ok (db w')
  ∧ Room.code <$> rooms (db w) `prefix_of` Room.code <$> rooms (db w')
  ∧ ∀ room userId,
      room ∈ rooms (db w') →
      has_id User.id (users (db w')) userId = true →
      (join_room_by_code w' userId (Room.code room)).2 = json (room_json room).
Proof.
  intros Hcodes Hsteps. apply rtc_step_db in Hsteps.
  assert (Hkept : codes_ok (db w')
                  ∧ Room.code <$> rooms (db w) `prefix_of` Room.code <$> rooms (db w')).
  { induction Hsteps as [d|d d1 d' Hop _ IH]; [done|].
    destruct (IH (db_op_codes _ _ Hop Hcodes)) as [Hcodes' Hprefix].
    split; [done|]. etrans; [|exact Hprefix].
    clear -Hop. destruct Hop as [d uuid now code userId room d' Hnew|d roomId p d' Hjoin|
                   d roomId status resolvedAt| | |].
    - apply createRoom_Ok in Hnew as (_ & _ & -> & ->). cbn.
      rewrite fmap_app. by apply prefix_app_r.
    - unfold updateRoomParticipant in Hjoin.
      repeat (case_match; try discriminate Hjoin); simplify_eq; try done;
        by rewrite update_room_codes.
    - unfold updateRoomStatus. by rewrite update_room_codes.
    - by split_ops.
    - by split_ops.
    - by split_ops. }
  destruct Hkept as [Hcodes' Hprefix]. split; [done|]. split; [done|].
  intros room userId Hroom Huser. unfold join_room_by_code.
  rewrite (getRoomByCode_unique _ _ Hcodes' Hroom).
  unfold updateRoomParticipant.
  destruct (elem_of_rooms_getRoomById _ _ Hroom) as [found ->].
  rewrite Huser. by repeat case_match.
Qed.

Lemma room_codes_stay_unique_witness :
  let w := session four_messages [] in
  let w' := (create_room (session_env None "n") w "u3").1 in
  codes_ok (db w) ∧ rtc step w w' ∧ codes_ok (db w').
Proof.
  intros w w'.
  assert (Hcodes : codes_ok (db w)).
  { unfold codes_ok. cbn. apply (bool_decide_unpack _). by vm_compute. }
  assert (Hsteps : rtc step w w').
  { apply rtc_once. apply (step_request (POST_rooms (session_env None "n") "u3")). }
  split; [exact Hcodes|]. split; [exact Hsteps|].
  exact (proj1 (room_codes_stay_unique w w' Hcodes Hsteps)).
Defined.

(** X16: asking for a room changes nothing and is never answered 404.  A
    room that does not exist is answered 403 as a room of others is, and a
    member gets the stored room. *)
Theorem get_room_never_answers_not_found (w : World) (userId roomId : string) :
  let answer := get_room w userId roomId in
  answer.1 = w
  ∧ status answer.2 ≠ 404
  ∧ failure answer.2 ≠ Some NotFound
  ∧ answer.2
    = match getRoomById (db w) roomId with
      | Some room =>
        if is_member room userId then json (room_json room)
        else mkResponse 403 (message "Access denied")
      | None => mkResponse 403 (message "Access denied")
      end.
Proof.
  intros answer. subst answer. unfold get_room, ensureRoomMember.
  destruct (getRoomById (db w) roomId) as [room|]; [|done].
  by destruct (is_member room userId).
Qed.

(** X17: membership is for good as long as no event comes in while another
    is being handled.  In a well-formed database no request and no message
    on a connection, handled to its end with nothing in between, takes a
    seat away: whoever is a member of a room stays one along every serial
    run of the server. *)
Theorem membership_is_permanent (w w' : World) (roomId userId : string) :
  db_ok (db w) →
  ensureRoomMember w roomId userId = true →
  rtc step w w' →
  ensureRoomMember w' roomId userId = true.
Proof.
  intros Hok Hmember Hsteps. apply rtc_step_db in Hsteps.
  unfold ensureRoomMember in *.
  destruct (getRoomById (db w) roomId) as [room|] eqn:Hroom; [|done].
  destruct (rtc_db_op_room _ _ _ _ Hsteps Hok Hroom)
    as (room' & -> & _ & _ & Hcreator & Hslot1 & Hslot2).
  unfold is_member in *. rewrite Hcreator, Hslot1.
  apply orb_true_iff in Hmember as [Hmember|Hmember]; [by rewrite Hmember|].
  apply bool_decide_eq_true in Hmember.
  rewrite Hslot2 by (by rewrite Hmember). rewrite Hmember.
  rewrite (bool_decide_eq_true_2 (Some userId = Some userId)) by done.
  by rewrite orb_true_r.
Qed.

Lemma membership_is_permanent_witness :
  let w := session four_messages [] in
  let w' := (join_room_by_code w "u3" "AB12CD").1 in
  db_ok (db w) ∧ ensureRoomMember w "r0" "u2" = true ∧ rtc step w w'
  ∧ ensureRoomMember w' "r0" "u2" = true.
Proof.
  intros w w'.
  assert (Hmember : ensureRoomMember w "r0" "u2" = true) by reflexivity.
  assert (Hsteps : rtc step w w').
  { apply rtc_once. apply (step_request (POST_rooms_join "u3" "AB12CD")). }
  split; [apply db_ok_session|]. split; [exact Hmember|]. split; [exact Hsteps|].
  exact (membership_is_permanent w w' "r0" "u2" (db_ok_session _ _) Hmember Hsteps).
Defined.

(** ** Votes *)

Lemma db_write_handle rq w : db_write (db w) (db (handle rq w).1).
Proof.
  destruct rq; cbn.
  - unfold create_room.
    destruct (createRoom _ _ _ _) as [[room d]|] eqn:Hnew; [|apply write_nothing].
    by eapply write_room.
  - unfold join_room_by_code. destruct (getRoomByCode _ _); [|apply write_nothing].
    destruct (updateRoomParticipant _ _ _) eqn:Hjoin; [|apply write_nothing].
    by eapply write_participant.
  - unfold get_room. destruct (negb _); [apply write_nothing|].
    destruct (getRoomById _ _); apply write_nothing.
  - unfold post_message. destruct (negb _); [apply write_nothing|].
    destruct (insertMessageSchema_parse _); [|apply write_nothing].
    destruct (createMessage _ _ _ _) as [[m d]|] eqn:Hnew; [|apply write_nothing].
    cbn. rewrite db_broadcastToRoom. by eapply write_message.
  - unfold get_messages. destruct (negb _); apply write_nothing.
  - unfold transcribe. destruct (negb audioFile); [apply write_nothing|].
    destruct (negb _); [apply write_nothing|].
    destruct (createMessage _ _ _ _) as [[m d]|] eqn:Hnew; [|apply write_nothing].
    cbn. rewrite db_broadcastToRoom. by eapply write_message.
  - unfold generate_resolutions. destruct (negb _); [apply write_nothing|].
    destruct (checkResolutionLimit _ _ _) as [limit counts].
    destruct (negb _); [apply write_nothing|]. case_bool_decide; [apply write_nothing|].
    destruct (generateResolutions _ _) as [[aiResponse|err] calls]; [|apply write_nothing].
    cbn. destruct (createResolutions _ _ _ _) as [[saved d]|] eqn:Hnew; [|apply write_nothing].
    cbn. rewrite db_broadcastToRoom. cbn. by eapply write_resolutions.
  - unfold vote, ensureRoomMember.
    destruct (getRoomById (db w) roomId) as [room|] eqn:Hroom; [|apply write_nothing].
    destruct (is_member room userId) eqn:Hmember; [|apply write_nothing]. cbn [negb].
    destruct (getUserVote (db w) roomId userId) eqn:Hnone; [apply write_nothing|].
    destruct (createVote _ _ _ _) as [[v d]|] eqn:Hnew; [|apply write_nothing].
    pose proof (write_vote _ _ _ (date e) _ _ _ _ _ _ Hroom Hmember Hnone Hnew) as Hwrite.
    unfold agreed in Hwrite. cbn. rewrite db_broadcastToRoom. cbn.
    destruct (bool_decide (length _ = _)); cbn [andb fst] in *;
      [|by rewrite db_broadcastToRoom].
    destruct (bool_decide (_ <$> _ = _)); cbn [fst] in *;
      [|by rewrite db_broadcastToRoom].
    by rewrite db_broadcastToRoom, db_set_db, db_broadcastToRoom.
Qed.

Lemma step_db_write w w' : step w w' → db_write (db w) (db w').
Proof.
  intros [rq ?|c ? m|c ?].
  - apply db_write_handle.
  - rewrite db_on_message. apply write_nothing.
  - unfold on_close. rewrite db_unregister. apply write_nothing.
Qed.

Lemma db_write_db_op d d' : db_write d d' → rtc db_op d d'.
Proof.
  intros Hwrite.
  destruct Hwrite as
    [d|d uuid now code userId room d' Hnew|d roomId p d' Hjoin|
     d uuid now m created d' Hnew|d uuid now l created d' Hnew|
     d uuid now date roomId resolutionId userId room created d' Hroom Hmember Hnone Hnew].
  - done.
  - by eapply rtc_once, op_createRoom.
  - by eapply rtc_once, op_updateRoomParticipant.
  - by eapply rtc_once, op_createMessage.
  - by eapply rtc_once, op_createResolutions.
  - eapply rtc_l; [eapply op_createVote; [|exact Hnew]; exact Hnone|].
    destruct (agreed _); [|done]. apply rtc_once, op_updateRoomStatus.
Qed.

Lemma occupants_of_mono d d' roomId :
  rtc db_op d d' → db_ok d → occupants_of d roomId ⊆ occupants_of d' roomId.
Proof.
  intros Hops Hok. unfold occupants_of at 1.
  destruct (getRoomById d roomId) as [r|] eqn:Hr; cbn; [|by intros ? ?%elem_of_nil].
  destruct (rtc_db_op_room _ _ _ _ Hops Hok Hr) as (r' & Hr' & Hkeep).
  unfold occupants_of. rewrite Hr'. cbn. by apply keeps_seats_occupants.
Qed.

Lemma is_member_occupants room userId :
  room_ok room → is_member room userId = true → userId ∈ occupants room.
Proof.
  intros (Hslot1 & _) Hmember. apply elem_of_occupants. unfold is_member in Hmember.
  apply orb_true_iff in Hmember as [Hmember|Hmember].
  - left. apply orb_true_iff in Hmember as [Hmember|Hmember];
      apply bool_decide_eq_true in Hmember; congruence.
  - right. by apply bool_decide_eq_true in Hmember.
Qed.

(** The votes one event adds: none, or one vote of a member who had none. *)
Lemma db_write_votes d d' :
  db_write d d' → db_ok d →
  votes d' = votes d
  ∨ ∃ v, votes d' = votes d ++ [v]
         ∧ Vote.userId v ∈ occupants_of d (Vote.roomId v)
         ∧ getUserVote d (Vote.roomId v) (Vote.userId v) = None.
Proof.
  intros Hwrite Hok.
  destruct Hwrite as
    [d|d uuid now code userId room d' Hnew|d roomId p d' Hjoin|
     d uuid now m created d' Hnew|d uuid now l created d' Hnew|
     d uuid now date roomId resolutionId userId room created d' Hroom Hmember Hnone Hnew].
  - by left.
  - left. by split_ops.
  - left. by split_ops.
  - left. by split_ops.
  - left. by split_ops.
  - right. exists created.
    apply createVote_Ok in Hnew as (_ & _ & _ & _ & -> & ->). cbn.
    split; [by destruct (agreed _)|]. split; [|done].
    unfold occupants_of. rewrite Hroom. cbn.
    apply is_member_occupants; [|done]. by eapply db_ok_room.
Qed.

Lemma db_write_tables_ok d d' : db_write d d' → tables_ok d → tables_ok d'.
Proof.
  intros Hwrite (Hok & Hone & Hmembers).
  pose proof (db_write_db_op _ _ Hwrite) as Hops.
  split; [by eapply rtc_db_op_ok|]. split; [by apply (rtc_db_op_votes _ _ Hops)|].
  intros v Hv.
  destruct (db_write_votes _ _ Hwrite Hok) as [Hsame|(v' & Hadded & Hmember & _)].
  - rewrite Hsame in Hv. apply (occupants_of_mono d d' _ Hops Hok). by apply Hmembers.
  - rewrite Hadded in Hv. apply (occupants_of_mono d d' _ Hops Hok).
    apply elem_of_app in Hv as [Hv| ->%list_elem_of_singleton]; [by apply Hmembers|done].
Qed.

Lemma rtc_step_tables_ok w w' : rtc step w w' → tables_ok (db w) → tables_ok (db w').
Proof.
  induction 1 as [|w w1 w' Hstep _ IH]; [done|].
  intros Hok. apply IH. eapply db_write_tables_ok; [|done]. by apply step_db_write.
Qed.

Lemma elem_of_getRoomVotes d roomId v :
  v ∈ getRoomVotes d roomId ↔ v ∈ votes d ∧ Vote.roomId v = roomId.
Proof. unfold getRoomVotes. rewrite list_elem_of_filter. tauto. Qed.

Lemma NoDup_voters d roomId :
  one_vote_each d → NoDup (Vote.userId <$> getRoomVotes d roomId).
Proof.
  unfold one_vote_each, getRoomVotes. induction (votes d) as [|v l IH]; [constructor|].
  rewrite fmap_cons, NoDup_cons. intros [Hfresh Hnodup].
  rewrite filter_cons. case_decide as Hroom; [|by apply IH].
  rewrite fmap_cons. apply NoDup_cons. split; [|by apply IH].
  intros (v' & Huser & Hv')%list_elem_of_fmap.
  apply list_elem_of_filter in Hv' as [Hroom' Hv'].
  apply Hfresh, list_elem_of_fmap. exists v'. split; [|done].
  unfold vote_key. by rewrite Huser, Hroom, Hroom'.
Qed.

Lemma occupants_of_length d roomId : (length (occupants_of d roomId) ≤ 2)%nat.
Proof.
  unfold occupants_of. destruct (getRoomById d roomId); cbn; [apply occupants_length|lia].
Qed.

Lemma voters_occupants d roomId :
  tables_ok d → Vote.userId <$> getRoomVotes d roomId ⊆+ occupants_of d roomId.
Proof.
  intros (_ & Hone & Hmembers). apply NoDup_submseteq; [by apply NoDup_voters|].
  intros userId (v & -> & [Hv <-]%elem_of_getRoomVotes)%list_elem_of_fmap.
  by apply Hmembers.
Qed.

(** X18: a room holds no more than two votes as long as no event comes in
    while another is being handled.  Every event handled to its end with
    nothing in between keeps the tables as the routes keep them, so that
    along every serial run of the server the votes of a room are by
    different users, every one of them a member of the room, and there are
    at most two. *)
Theorem no_room_holds_three_votes (w w' : World) (roomId : string) :
  tables_ok (db w) →
  rtc step w w' →
  (length (getRoomVotes (db w') roomId) ≤ 2)%nat
  ∧ NoDup (Vote.userId <$> getRoomVotes (db w') roomId)
  ∧ ∀ v, v ∈ getRoomVotes (db w') roomId →
         ensureRoomMember w' roomId (Vote.userId v) = true.
Proof.
  intros Hok Hsteps. pose proof (rtc_step_tables_ok _ _ Hsteps Hok) as Hok'.
  split; [|split].
  - rewrite <- (length_fmap Vote.userId). etrans; [|apply (occupants_of_length (db w') roomId)].
    by apply submseteq_length, voters_occupants.
  - apply NoDup_voters, Hok'.
  - intros v [Hv <-]%elem_of_getRoomVotes.
    destruct Hok' as (_ & _ & Hmembers). specialize (Hmembers v Hv).
    unfold occupants_of, ensureRoomMember in *.
    destruct (getRoomById (db w') (Vote.roomId v)) as [room|]; cbn in Hmembers;
      [|by apply elem_of_nil in Hmembers].
    apply elem_of_occupants in Hmembers as [Hslot|Hslot]; unfold is_member; rewrite Hslot;
      rewrite (bool_decide_eq_true_2 (Some _ = Some _)) by done;
      by rewrite ?orb_true_r.
Qed.

Lemma tables_ok_session msgs : tables_ok (session_db msgs [ann_vote]).
Proof.
  split; [apply db_ok_session|]. split.
  - unfold one_vote_each. cbn. apply NoDup_singleton.
  - intros v ->%list_elem_of_singleton. cbn. apply elem_of_cons. by left.
Qed.

Lemma no_room_holds_three_votes_witness :
  let w := session four_messages [ann_vote] in
  let w' := (vote (session_env None "v") w "u2" "r0" "x2").1 in
  tables_ok (db w) ∧ rtc step w w' ∧ (length (getRoomVotes (db w') "r0") ≤ 2)%nat.
Proof.
  intros w w'.
  assert (Hsteps : rtc step w w').
  { apply rtc_once. apply (step_request (POST_vote (session_env None "v") "u2" "r0" "x2")). }
  split; [apply tables_ok_session|]. split; [exact Hsteps|].
  exact (proj1 (no_room_holds_three_votes w w' "r0" (tables_ok_session _) Hsteps)).
Defined.

Lemma occupants_full room :
  length (occupants room) = 2%nat → is_Some (Room.participant2Id room).
Proof.
  unfold occupants. destruct (Room.participant1Id room), (Room.participant2Id room); cbn;
    intros; by try lia.
Qed.

(** With two votes in a room both seats are taken and both occupants have
    voted. *)
Lemma two_votes_full d roomId :
  tables_ok d → length (getRoomVotes d roomId) = 2%nat →
  ∃ room,
    getRoomById d roomId = Some room
    ∧ is_Some (Room.participant2Id room)
    ∧ ∀ userId, is_member room userId = true → is_Some (getUserVote d roomId userId).
Proof.
  intros Hok Hlen. pose proof (voters_occupants d roomId Hok) as Hsub.
  pose proof (occupants_of_length d roomId) as Hbound.
  assert (Hperm : Vote.userId <$> getRoomVotes d roomId ≡ₚ occupants_of d roomId).
  { apply submseteq_length_Permutation; [done|]. rewrite length_fmap. lia. }
  assert (Hfull : length (occupants_of d roomId) = 2%nat).
  { by rewrite <- Hperm, length_fmap. }
  unfold occupants_of in Hperm, Hfull.
  destruct (getRoomById d roomId) as [room|] eqn:Hroom; [|done]. cbn in *.
  exists room. split; [done|]. split; [by apply occupants_full|].
  intros userId Hmember.
  assert (Hvoted : userId ∈ Vote.userId <$> getRoomVotes d roomId).
  { rewrite Hperm. apply is_member_occupants; [|done].
    eapply db_ok_room; [apply Hok|done]. }
  apply list_elem_of_fmap in Hvoted as (v & -> & [Hv <-]%elem_of_getRoomVotes).
  destruct (getUserVote d (Vote.roomId v) (Vote.userId v)) eqn:Hnone; [done|].
  apply getUserVote_None in Hnone. exfalso. apply Hnone.
  apply list_elem_of_fmap. by exists v.
Qed.

Lemma getRoomById_snoc d room id found :
  getRoomById d id = Some found →
  getRoomById (set_rooms (λ t, t ++ [room]) d) id = Some found.
Proof.
  intros Hfound. unfold getRoomById in *. cbn.
  rewrite (head_filter_snoc (λ r, Room.id r = id)). by rewrite Hfound.
Qed.

Lemma getRoomById_update_other d roomId f id :
  keep_id f → id ≠ roomId →
  getRoomById (update_room roomId f d) id = getRoomById d id.
Proof.
  intros Hkeep Hother. rewrite getRoomById_update_room by done.
  destruct (getRoomById d id) as [room|] eqn:Hroom; [|done]. cbn.
  apply getRoomById_Some in Hroom as [_ Hid]. rewrite decide_False; [done|congruence].
Qed.

Lemma getRoomVotes_snoc_other d v roomId :
  Vote.roomId v ≠ roomId →
  getRoomVotes (set_votes (λ t, t ++ [v]) d) roomId = getRoomVotes d roomId.
Proof.
  intros Hother. unfold getRoomVotes. cbn.
  rewrite filter_app, filter_cons_False, filter_nil by done. apply app_nil_r.
Qed.

(** Once a room has two votes, no event writes to its row or its votes. *)
Lemma db_write_closed d d' roomId :
  db_write d d' → tables_ok d → length (getRoomVotes d roomId) = 2%nat →
  getRoomById d' roomId = getRoomById d roomId
  ∧ getRoomVotes d' roomId = getRoomVotes d roomId.
Proof.
  intros Hwrite Hok Hlen.
  destruct (two_votes_full d roomId Hok Hlen) as (room & Hroom & Hfull & Hvoted).
  destruct Hwrite as
    [d|d uuid now code userId new d' Hnew|d roomId' p d' Hjoin|
     d uuid now m created d' Hnew|d uuid now l created d' Hnew|
     d uuid now date roomId' resolutionId userId room' created d' Hroom' Hmember Hnone Hnew].
  - done.
  - apply createRoom_Ok in Hnew as (_ & _ & _ & ->). split; [|done].
    rewrite Hroom. by apply getRoomById_snoc.
  - apply (updateRoomParticipant_Ok _ _ _ _ (proj1 Hok)) in Hjoin
      as [->|(found & Hfound & Hfree & _ & _ & ->)]; [done|].
    split; [|done]. apply getRoomById_update_other; [done|].
    intros ->. rewrite Hroom in Hfound. injection Hfound as ->.
    rewrite Hfree in Hfull. by destruct Hfull.
  - by split_ops.
  - by split_ops.
  - apply createVote_Ok in Hnew as (_ & _ & _ & _ & -> & ->).
    destruct (decide (roomId' = roomId)) as [->|Hother].
    { rewrite Hroom in Hroom'. injection Hroom' as <-.
      destruct (Hvoted userId Hmember) as [v Hv]. congruence. }
    assert (Hvotes : ∀ d1 : Db, votes d1 = votes d ++ [Vote.mk uuid roomId' resolutionId userId now] →
              getRoomVotes d1 roomId = getRoomVotes d roomId).
    { intros d1 Hd1. unfold getRoomVotes. rewrite Hd1.
      rewrite filter_app, filter_cons_False, filter_nil by done. apply app_nil_r. }
    destruct (agreed _).
    + split; [|by apply Hvotes]. unfold updateRoomStatus.
      rewrite getRoomById_update_other by done. done.
    + split; [done|by apply Hvotes].
Qed.

(** X19: two votes close a room as long as no event comes in while another
    is being handled.  From tables as the routes keep them, once a room has
    two votes its row and its votes do not change again along any serial
    run of the server: nobody joins it, it is not resolved a second time,
    and every later vote in it, handled with nothing in between, is
    refused, as access denied or as already voted, without a write. *)
Theorem two_votes_close_the_room (w w' : World) (roomId : string) :
  tables_ok (db w) →
  length (getRoomVotes (db w) roomId) = 2%nat →
  rtc step w w' →
  getRoomById (db w') roomId = getRoomById (db w) roomId
  ∧ getRoomVotes (db w') roomId = getRoomVotes (db w) roomId
  ∧ ∀ e userId resolutionId,
      let answer := vote e w' userId roomId resolutionId in
      answer.1 = w'
      ∧ (failure answer.2 = Some AccessDenied ∨ failure answer.2 = Some AlreadyVoted).
Proof.
  intros Hok Hlen Hsteps.
  assert (Hkept : tables_ok (db w')
                  ∧ getRoomById (db w') roomId = getRoomById (db w) roomId
                  ∧ getRoomVotes (db w') roomId = getRoomVotes (db w) roomId).
  { induction Hsteps as [w|w w1 w' Hstep _ IH]; [done|].
    pose proof (step_db_write _ _ Hstep) as Hwrite.
    destruct (db_write_closed _ _ roomId Hwrite Hok Hlen) as [Hroom Hvotes].
    destruct IH as (Hok' & Hroom' & Hvotes').
    - by eapply db_write_tables_ok.
    - by rewrite Hvotes.
    - split; [done|]. split; congruence. }
  destruct Hkept as (Hok' & Hroom & Hvotes). split; [done|]. split; [done|].
  intros e userId resolutionId answer. subst answer.
  rewrite <- Hvotes in Hlen.
  destruct (two_votes_full (db w') roomId Hok' Hlen) as (room & Hfound & _ & Hvoted).
  unfold vote, ensureRoomMember. rewrite Hfound.
  destruct (is_member room userId) eqn:Hmember; cbn [negb]; [|by split; [|left]].
  destruct (Hvoted userId Hmember) as [v ->]. by split; [|right].
Qed.

Lemma two_votes_close_the_room_witness :
  let w0 := session four_messages [ann_vote] in
  let w := (vote (session_env None "v") w0 "u2" "r0" "x2").1 in
  let w' := (join_room_by_code w "u3" "AB12CD").1 in
  tables_ok (db w)
  ∧ length (getRoomVotes (db w) "r0") = 2%nat
  ∧ rtc step w w'
  ∧ getRoomById (db w') "r0" = getRoomById (db w) "r0".
Proof.
  intros w0 w w'.
  assert (Hok : tables_ok (db w)).
  { apply (rtc_step_tables_ok w0); [|apply tables_ok_session].
    apply rtc_once. apply (step_request (POST_vote (session_env None "v") "u2" "r0" "x2")). }
  assert (Hlen : length (getRoomVotes (db w) "r0") = 2%nat) by reflexivity.
  assert (Hsteps : rtc step w w').
  { apply rtc_once. apply (step_request (POST_rooms_join "u3" "AB12CD")). }
  split; [exact Hok|]. split; [exact Hlen|]. split; [exact Hsteps|].
  exact (proj1 (two_votes_close_the_room w w' "r0" Hok Hlen Hsteps)).
Defined.

Lemma elem_of_update_room d roomId f room :
  room ∈ rooms (update_room roomId f d) →
  ∃ old, old ∈ rooms d ∧ room = if decide (Room.id old = roomId) then f old else old.
Proof.
  cbn. intros (old & -> & Hold)%list_elem_of_fmap. by exists old.
Qed.

(** One event keeps that every resolved room was resolved by agreement. *)
Lemma db_write_resolved d d' :
  db_write d d' → tables_ok d → resolved_by_agreement d → resolved_by_agreement d'.
Proof.
  intros Hwrite Hok Hagreed.
  pose proof (db_write_tables_ok _ _ Hwrite Hok) as Hok'.
  destruct Hwrite as
    [d|d uuid now code userId new d' Hnew|d roomId' p d' Hjoin|
     d uuid now m created d' Hnew|d uuid now l created d' Hnew|
     d uuid now date roomId' resolutionId userId room' created d' Hroom' Hmember Hnone Hnew].
  - done.
  - apply createRoom_Ok in Hnew as (_ & _ & -> & ->).
    intros room [Hroom| ->%list_elem_of_singleton]%elem_of_app; [|done].
    by apply Hagreed.
  - apply (updateRoomParticipant_Ok _ _ _ _ (proj1 Hok)) in Hjoin
      as [->|(found & Hfound & Hfree & _ & _ & ->)]; [done|].
    intros room (old & Hold & ->)%elem_of_update_room Hresolved.
    assert (Hsame : Room.id (if decide (Room.id old = roomId')
                             then set_participant2Id p old else old) = Room.id old
                    ∧ Room.status (if decide (Room.id old = roomId')
                                   then set_participant2Id p old else old) = Room.status old)
      by by case_decide.
    destruct Hsame as [Hid Hstatus]. rewrite Hid. rewrite Hstatus in Hresolved.
    by apply Hagreed.
  - split_ops. intros room Hroom. by apply Hagreed.
  - split_ops. intros room Hroom. by apply Hagreed.
  - apply createVote_Ok in Hnew as (_ & _ & _ & _ & -> & ->).
    cbn [InsertVote.roomId InsertVote.resolutionId InsertVote.userId] in *.
    set (v := Vote.mk uuid roomId' resolutionId userId now) in *.
    set (d1 := set_votes (λ t, t ++ [v]) d) in *.
    assert (Hold : ∀ room, room ∈ rooms d → Room.status room = "resolved" →
              Room.id room ≠ roomId'
              ∧ ∃ a b, getRoomVotes d1 (Room.id room) = [a; b]
                       ∧ Vote.resolutionId a = Vote.resolutionId b
                       ∧ Vote.userId a ≠ Vote.userId b).
    { intros room Hroom Hresolved.
      destruct (Hagreed room Hroom Hresolved) as (a & b & Hvotes & Hsame & Hdiff).
      assert (Hother : Room.id room ≠ roomId').
      { intros Hid.
        destruct (two_votes_full d roomId' Hok) as (found & Hfound & _ & Hvoted).
        { by rewrite <- Hid, Hvotes. }
        rewrite Hroom' in Hfound. injection Hfound as <-.
        destruct (Hvoted userId Hmember) as [x Hx]. congruence. }
      split; [done|]. exists a, b. split; [|done].
      subst d1. rewrite getRoomVotes_snoc_other; [done|]. cbn. congruence. }
    destruct (agreed (getRoomVotes d1 roomId')) eqn:Hagree.
    + intros room Hin Hresolved. unfold updateRoomStatus in Hin.
      apply elem_of_update_room in Hin as (old & Hin & ->).
      case_decide as Hid.
      * cbn [set_status Room.id]. rewrite Hid.
        unfold agreed in Hagree. apply andb_true_iff in Hagree as [Hlen Hsame].
        apply bool_decide_eq_true in Hlen, Hsame.
        destruct (proj1 (agreed_iff _) (conj Hlen Hsame)) as (a & b & Hvotes & Hres).
        exists a, b. change (getRoomVotes (updateRoomStatus d1 roomId' "resolved" (Some date)) roomId')
          with (getRoomVotes d1 roomId').
        split; [done|]. split; [done|].
        destruct Hok' as (_ & Hone & _).
        pose proof (NoDup_voters _ roomId' Hone) as Hnodup.
        change (getRoomVotes (updateRoomStatus d1 roomId' "resolved" (Some date)) roomId')
          with (getRoomVotes d1 roomId') in Hnodup.
        rewrite Hvotes in Hnodup. cbn in Hnodup.
        apply NoDup_cons in Hnodup as [Hfresh _]. intros Heq. apply Hfresh.
        rewrite Heq. by left.
      * by apply Hold.
    + intros room Hroom Hresolved. by apply Hold.
Qed.

(** X20: a room is resolved only by agreement as long as no event comes in
    while another is being handled.  From tables as the routes keep them,
    in which every resolved room has exactly two votes, by two different
    users and for one resolution, this stays so along every serial run of
    the server: no such run resolves a room on one vote, on two votes that
    differ, or on two votes of one user. *)
Theorem rooms_are_resolved_by_agreement_only (w w' : World) :
  tables_ok (db w) →
  resolved_by_agreement (db w) →
  rtc step w w' →
  resolved_by_agreement (db w').
Proof.
  intros Hok Hagreed Hsteps.
  induction Hsteps as [w|w w1 w' Hstep _ IH]; [done|].
  pose proof (step_db_write _ _ Hstep) as Hwrite. apply IH.
  - by eapply db_write_tables_ok.
  - by eapply db_write_resolved.
Qed.

Lemma rooms_are_resolved_by_agreement_only_witness :
  let w := session four_messages [ann_vote] in
  let w' := (vote (session_env None "v") w "u2" "r0" "x2").1 in
  tables_ok (db w) ∧ resolved_by_agreement (db w) ∧ rtc step w w'
  ∧ resolved_by_agreement (db w').
Proof.
  intros w w'.
  assert (Hagreed : resolved_by_agreement (db w)).
  { intros room Hroom Hresolved. cbn in Hroom.
    apply elem_of_cons in Hroom as [->|Hroom]; [done|].
    by apply list_elem_of_singleton in Hroom as ->. }
  assert (Hsteps : rtc step w w').
  { apply rtc_once. apply (step_request (POST_vote (session_env None "v") "u2" "r0" "x2")). }
  split; [apply tables_ok_session|]. split; [exact Hagreed|]. split; [exact Hsteps|].
  exact (rooms_are_resolved_by_agreement_only w w' (tables_ok_session _) Hagreed Hsteps).
Defined.

(** Two votes of one member for one resolution, the second of which comes
    in while the first is being handled, resolve the room: the other member
    has not voted. *)
Example overlapping_votes_of_one_member_resolve_the_room :
  let w := session four_messages [] in
  let first := POST_vote (session_env None "a") "u1" "r0" "x2" in
  let second := POST_vote (session_env None "b") "u1" "r0" "x2" in
  let overlapping :=
    play [ requested first; requested second;
           resumed 0; resumed 1; resumed 0; resumed 1; resumed 0; resumed 1;
           resumed 0; resumed 0; resumed 0; resumed 1; resumed 1; resumed 1 ]%nat (w, []) in
  rtc istep (w, []) overlapping
  ∧ Vote.userId <$> votes (db overlapping.1) = ["u1"; "u1"]
  ∧ Room.status <$> getRoomById (db overlapping.1) "r0" = Some "resolved"
  ∧ resolved_by_agreement (db w)
  ∧ ¬ resolved_by_agreement (db overlapping.1).
Proof.
  intros w first second overlapping. split; [apply play_istep|].
  split; [vm_compute; reflexivity|]. split; [vm_compute; reflexivity|]. split.
  - intros room Hin Hresolved. cbn in Hin.
    apply elem_of_cons in Hin as [->|Hin]; [done|].
    by apply list_elem_of_singleton in Hin as ->.
  - intros Hagreed.
    set (resolved_r0 := Room.mk "r0" "AB12CD" "u1" (Some "u1") (Some "u2") "resolved"
                          (Some 101) 1).
    assert (Hrooms : rooms (db overlapping.1) = [resolved_r0; room_r1])
      by (vm_compute; reflexivity).
    assert (Hvotes : getRoomVotes (db overlapping.1) "r0"
                     = [Vote.mk "a0" "r0" "x2" "u1" 100; Vote.mk "b0" "r0" "x2" "u1" 100])
      by (vm_compute; reflexivity).
    destruct (Hagreed resolved_r0) as (a & b & Hab & _ & Hdiffer).
    { rewrite Hrooms. by left. }
    { done. }
    cbn [Room.id resolved_r0] in Hab. rewrite Hvotes in Hab.
    injection Hab as <- <-. done.
Qed.







(** ** The account *)





(** X22: an account is deleted exactly when no room, message or vote refers
    to it, also when there is no such account; otherwise the answer is 500
    and nothing changes.  A deletion removes the user's row and nothing
    else: the other users, the other tables, the registry of connections and
    the counters of the daily cap stay as they are. *)
Theorem account_is_deleted_only_when_unreferenced (w : World) (userId : string) :
  let answer := delete_user w userId in
  (answer.2 = answered (json (message "Account deleted successfully"))
   ↔ referenced (db w) userId = false)
  ∧ (referenced (db w) userId = true →
     answer = (w, answered (mkResponse 500 (thrown (DatabaseError foreign_key_violation)))))
  ∧ (referenced (db w) userId = false →
     answer.1 = set_db (set_users (filter (λ u, User.id u ≠ userId))) w
     ∧ getUserById (db answer.1) userId = None
     ∧ (∀ other, other ≠ userId →
          getUserById (db answer.1) other = getUserById (db w) other)
     ∧ roomConnections answer.1 = roomConnections w
     ∧ resolutionCounts answer.1 = resolutionCounts w).
Proof.
  intros answer. subst answer. unfold delete_user, deleteUser.
  destruct (referenced (db w) userId); cbn [fst snd].
  - split; [by split|]. by split.
  - split; [by split|]. split; [done|]. intros _.
    split; [done|]. unfold getUserById. cbn. rewrite !list_filter_filter. split; [|split].
    + apply (head_filter_None (λ u, User.id u = userId ∧ User.id u ≠ userId)).
      by intros u _ [? ?].
    + intros other Hother. rewrite list_filter_filter. f_equal. apply list_filter_iff. intros u. split; [tauto|].
      intros ->. by split.
    + done.
Qed.



Lemma desc_createdAt_total : Total desc_createdAt.
Proof. intros a b. unfold desc_createdAt. lia. Qed.

Lemma desc_createdAt_trans : Transitive desc_createdAt.
Proof. intros a b c. unfold desc_createdAt. lia. Qed.

Lemma elem_of_getUserRooms d userId room :
  room ∈ getUserRooms d userId ↔ room ∈ rooms d ∧ Room.createdBy room = userId.
Proof.
  unfold getUserRooms. rewrite merge_sort_Permutation, list_elem_of_filter. tauto.
Qed.

(** X24: the list of a user's rooms holds exactly the rooms the user
    created, each once, newest first, and asking for it changes nothing.  A
    room the user joined by its code is not in the list, although the user
    is a member of it. *)
Theorem get_rooms_lists_created_rooms_only (w : World) (userId : string) :
  ∃ listing,
    get_rooms w userId = (w, rooms_json listing)
    ∧ listing ≡ₚ filter (λ r, Room.createdBy r = userId) (rooms (db w))
    ∧ (∀ room, room ∈ listing ↔ room ∈ rooms (db w) ∧ Room.createdBy room = userId)
    ∧ StronglySorted desc_createdAt listing
    ∧ ∀ roomId room,
        getRoomById (db w) roomId = Some room →
        Room.participant2Id room = Some userId →
        Room.createdBy room ≠ userId →
        ensureRoomMember w roomId userId = true ∧ room ∉ listing.
Proof.
  exists (getUserRooms (db w) userId). split; [done|]. split; [|split; [|split]].
  - apply merge_sort_Permutation.
  - intros room. apply elem_of_getUserRooms.
  - apply (@StronglySorted_merge_sort _ desc_createdAt _
             desc_createdAt_trans desc_createdAt_total).
  - intros roomId room Hroom Hslot2 Hother. split.
    + unfold ensureRoomMember, is_member. rewrite Hroom, Hslot2.
      rewrite (bool_decide_eq_true_2 (Some userId = Some userId)) by done.
      by rewrite orb_true_r.
    + by intros [_ ?]%elem_of_getUserRooms.
Qed.

(** X25: the statistics of a user count the rooms the user created, and
    among them the resolved ones, so never more resolved rooms than rooms;
    rooms the user joined are not counted, and an unknown user gets zeros.
    The resolutions of the day are read from the user's row, which no run of
    the server writes: the figure stays what it was, however many batches
    the user generates. *)
Theorem stats_count_the_created_rooms (w w' : World) (userId : string) :
  rtc step w w' →
  let before := getUserStats (db w) userId in
  let after := getUserStats (db w') userId in
  get_stats w' userId = (w', stats_json after)
  ∧ (resolvedCount after ≤ totalArguments after)%nat
  ∧ (is_Some (getUserById (db w') userId) →
     totalArguments after
     = length (filter (λ r, Room.createdBy r = userId) (rooms (db w')))
     ∧ resolvedCount after
       = length (filter (λ r, Room.status r = "resolved")
                   (filter (λ r, Room.createdBy r = userId) (rooms (db w')))))
  ∧ (getUserById (db w') userId = None → after = mkStats 0 0 0)
  ∧ resolutionsToday after = resolutionsToday before.
Proof.
  intros Hsteps before after. apply rtc_step_db in Hsteps.
  pose proof (rtc_db_op_users _ _ Hsteps) as Husers.
  subst before after. unfold getUserStats, getUserById. rewrite Husers.
  split; [by unfold get_stats, getUserStats, getUserById; rewrite Husers|].
  destruct (head (filter _ (users (db w)))) as [user|]; cbn.
  - split; [apply length_filter|]. split; [|split; [done|done]].
    intros _. unfold getUserRooms. by rewrite !merge_sort_Permutation.
  - split; [lia|]. split; [by intros [? ?]|]. done.
Qed.

Lemma stats_count_the_created_rooms_witness :
  let w := session four_messages [] in
  let w' := (generate_resolutions (session_env (Some prose_only) "g") w "u1" "r0").1 in
  rtc step w w'
  ∧ status (generate_resolutions (session_env (Some prose_only) "g") w "u1" "r0").2 = 200
  ∧ resolutionsToday (getUserStats (db w') "u1") = resolutionsToday (getUserStats (db w) "u1").
Proof.
  intros w w'.
  assert (Hsteps : rtc step w w').
  { apply rtc_once.
    apply (step_request
             (POST_generate_resolutions (session_env (Some prose_only) "g") "u1" "r0")). }
  split; [exact Hsteps|]. split; [reflexivity|].
  exact (proj2 (proj2 (proj2 (proj2 (stats_count_the_created_rooms w w' "u1" Hsteps))))).
Defined.

(** ** What a connection can make the server say *)

Lemma wire_unregister c w :
  ∃ frames,
    wire (unregister c w) = wire w ++ frames
    ∧ ∀ s f, (s, f) ∈ frames → f = event (user_left (authenticatedUserId c)).
Proof.
  unfold unregister.
  destruct (negb (falsy (currentRoomId c)) && truthy (authenticatedUserId c));
    [|exists []; split; [by rewrite app_nil_r|by intros ? ? ?%elem_of_nil]].
  destruct (roomConnections w !! default "" (currentRoomId c)) as [roomClients|];
    [|exists []; split; [by rewrite app_nil_r|by intros ? ? ?%elem_of_nil]].
  eexists. split.
  - case_bool_decide; cbn; reflexivity.
  - intros s f (s' & [= -> ->] & _)%list_elem_of_fmap. done.
Qed.

(** X26: a connection speaks only for itself.  Whatever a client sends over
    its socket, and when the socket closes, the server writes nothing to the
    tables, and the frames it sends are an error to that same socket or the
    news that the connection's own authenticated user joined or left: no
    message on a socket makes the server announce a message, a batch, a vote
    or a resolution, or speak in the name of another user.  The connection
    keeps its socket and its authenticated user. *)
Theorem connection_speaks_only_for_itself (c : Conn) (w : World) (m : WSMessage) :
  let own (s : WebSocket) (f : Frame) :=
    (s = socket c ∧ ∃ reason, f = error reason)
    ∨ (∃ userName, f = event (user_joined (authenticatedUserId c) userName))
    ∨ f = event (user_left (authenticatedUserId c)) in
  let r := on_message c w m in
  socket r.1 = socket c
  ∧ authenticatedUserId r.1 = authenticatedUserId c
  ∧ db r.2 = db w
  ∧ db (on_close c w) = db w
  ∧ (∃ frames, wire r.2 = wire w ++ frames ∧ ∀ s f, (s, f) ∈ frames → own s f)
  ∧ (∃ frames, wire (on_close c w) = wire w ++ frames ∧ ∀ s f, (s, f) ∈ frames → own s f).
Proof.
  intros own r. subst r.
  split; [|split; [|split; [apply db_on_message|split;
    [unfold on_close; by rewrite db_unregister|split]]]].
  - destruct m; try done; cbn.
    case_bool_decide; [done|]. destruct (getRoomById (db w) roomId); [|done].
    by destruct (negb _).
  - destruct m; try done; cbn.
    case_bool_decide; [done|]. destruct (getRoomById (db w) roomId); [|done].
    by destruct (negb _).
  - assert (Hrefused : ∀ reason,
              ∃ frames,
                wire (close (socket c) (send (socket c) (error reason) w)) = wire w ++ frames
                ∧ ∀ s f, (s, f) ∈ frames → own s f).
    { intros reason. exists [(socket c, error reason)]. split; [done|].
      intros s f [= -> ->]%list_elem_of_singleton. left. split; [done|]. by exists reason. }
    assert (Hnothing : ∃ frames, wire w = wire w ++ frames ∧ ∀ s f, (s, f) ∈ frames → own s f).
    { exists []. split; [by rewrite app_nil_r|]. by intros ? ? ?%elem_of_nil. }
    destruct m; try done; cbn.
    + case_bool_decide; [apply Hrefused|].
      destruct (getRoomById (db w) roomId); [|apply Hrefused].
      destruct (negb _); [apply Hrefused|]. cbn.
      eexists. split; [reflexivity|].
      intros s f (s' & [= -> ->] & _)%list_elem_of_fmap. right. left. by eexists.
    + destruct (wire_unregister c w) as (frames & Hwire & Hframes).
      exists frames. split; [done|]. intros s f Hin. right. right. by eapply Hframes.
  - unfold on_close.
    destruct (wire_unregister c
                (set_readyState (λ state x, if decide (x = socket c) then CLOSED else state x) w))
      as (frames & Hwire & Hframes).
    exists frames. split; [done|]. intros s f Hin. right. right. by eapply Hframes.
Qed.

(** ** From a batch to a vote *)

Lemma createResolutions_checked d uuid now l created d' :
  createResolutions d uuid now l = Ok (created, d') →
  l ≠ []
  ∧ NoDup (Resolution.id <$> created)
  ∧ ∀ r, r ∈ created → has_id Resolution.id (resolutions d) (Resolution.id r) = false.
Proof.
  unfold createResolutions. intros Hnew.
  case_bool_decide as Hempty; [done|].
  destruct (first_refused _); [done|].
  destruct (negb _ || _) eqn:Hunique; [done|].
  repeat (case_match; try discriminate Hnew). simplify_eq.
  apply orb_false_iff in Hunique as [Hnodup Hfresh].
  apply negb_false_iff, bool_decide_eq_true in Hnodup.
  split; [done|]. split; [done|]. intros r Hr.
  destruct (has_id Resolution.id (resolutions d) (Resolution.id r)) eqn:Hid; [|done].
  assert (Hsome : existsb (λ r, has_id Resolution.id (resolutions d) (Resolution.id r))
                    (imap (λ i r, new_resolution (uuid i) now r) l) = true).
  { apply existsb_exists. exists r. split; [by apply list_elem_of_In|done]. }
  congruence.
Qed.

Lemma getResolutionById_saved d saved r :
  NoDup (Resolution.id <$> saved) →
  (∀ r, r ∈ saved → has_id Resolution.id (resolutions d) (Resolution.id r) = false) →
  r ∈ saved →
  getResolutionById (set_resolutions (λ t, t ++ saved) d) (Resolution.id r) = Some r.
Proof.
  intros Hnodup Hfresh Hr. unfold getResolutionById. cbn. rewrite filter_app, head_app.
  replace (filter (λ x, Resolution.id x = Resolution.id r) (resolutions d)) with (@nil Resolution.t).
  - clear Hfresh. induction saved as [|x saved IH]; [by apply elem_of_nil in Hr|].
    rewrite fmap_cons in Hnodup. apply NoDup_cons in Hnodup as [Hx Hnodup].
    rewrite filter_cons. apply elem_of_cons in Hr as [->|Hr].
    + by rewrite decide_True.
    + rewrite decide_False; [by apply IH|].
      intros Heq. apply Hx. rewrite Heq. by apply list_elem_of_fmap_2.
  - symmetry. apply head_None.
    apply (head_filter_None (λ x, Resolution.id x = Resolution.id r)). intros x Hx Hid.
    specialize (Hfresh r Hr). apply not_true_iff_false in Hfresh. apply Hfresh.
    apply has_id_true. by exists x.
Qed.

(** X27: every resolution of an answered batch can be voted for.  The
    batch is not empty and is stored for the room of the request; each of
    its resolutions is then the one its identifier finds, and the vote of a
    registered member of the room who has not voted yet, for any of them, is
    accepted. *)
Theorem generated_resolution_can_be_voted_for (e : Env) (w : World)
    (userId roomId : string) (saved : list Resolution.t) :
  (generate_resolutions e w userId roomId).2 = json (resolutions_json saved) →
  let w' := (generate_resolutions e w userId roomId).1 in
  saved ≠ []
  ∧ Forall (λ r, Resolution.roomId r = roomId) saved
  ∧ resolutions (db w') = resolutions (db w) ++ saved
  ∧ ∀ resolution,
      resolution ∈ saved →
      getResolutionById (db w') (Resolution.id resolution) = Some resolution
      ∧ ∀ e' voter,
          ensureRoomMember w roomId voter = true →
          getUserVote (db w) roomId voter = None →
          has_id User.id (users (db w)) voter = true →
          has_id Vote.id (votes (db w)) (uuid e' 0%nat) = false →
          (vote e' w' voter roomId (Resolution.id resolution)).2
          = json (vote_json (Vote.mk (uuid e' 0%nat) roomId (Resolution.id resolution)
                               voter (now e'))).
Proof.
  intros Hanswer w'. subst w'. unfold generate_resolutions in *.
  destruct (ensureRoomMember w roomId userId) eqn:Hcaller; [|done]. cbn [negb] in *.
  destruct (checkResolutionLimit _ _ _) as [limit counts].
  destruct (negb _); [done|]. case_bool_decide; [done|].
  destruct (generateResolutions _ _) as [[batch|err] calls]; [|done].
  cbn [db set_db set_hfCalls set_resolutionCounts] in *.
  destruct (createResolutions _ _ _ _) as [[saved' d]|] eqn:Hnew; [|done].
  cbn [fst snd] in *. injection Hanswer as ->.
  pose proof (createResolutions_checked _ _ _ _ _ _ Hnew) as (Hnonempty & Hnodup & Hfresh).
  apply createResolutions_Ok in Hnew as [Hsaved ->].
  rewrite db_broadcastToRoom. cbn [db set_db set_hfCalls set_resolutionCounts].
  split; [|split; [|split; [done|]]].
  - rewrite Hsaved. intros Hnil. apply (f_equal length) in Hnil.
    rewrite length_imap, length_fmap in Hnil. cbn in Hnil.
    destruct (AIResolutionResponse.resolutions batch); [|done]. by apply Hnonempty.
  - rewrite Hsaved. apply Forall_forall. intros r (i & x & -> & Hx)%elem_of_lookup_imap.
    cbn. apply list_lookup_fmap_Some in Hx as (y & -> & _). done.
  - intros resolution Hin.
    assert (Hfound : getResolutionById (set_resolutions (λ t, t ++ saved) (db w))
                       (Resolution.id resolution) = Some resolution)
      by by apply getResolutionById_saved.
    split; [done|]. intros e' voter Hmember Hnone Huser Hvote.
    unfold vote. rewrite (ensureRoomMember_same_rooms w) by by rewrite db_broadcastToRoom.
    rewrite Hmember. cbn [negb]. rewrite db_broadcastToRoom.
    cbn [db set_db set_hfCalls set_resolutionCounts].
    change (getUserVote (set_resolutions (λ t, t ++ saved) (db w)) roomId voter)
      with (getUserVote (db w) roomId voter). rewrite Hnone.
    destruct (ensureRoomMember_true w roomId voter Hmember) as [Hroom _].
    unfold createVote. cbn [votes rooms users resolutions set_resolutions InsertVote.roomId
                            InsertVote.resolutionId InsertVote.userId].
    rewrite Hvote, Hroom, Huser.
    replace (has_id Resolution.id (resolutions (db w) ++ saved) (Resolution.id resolution))
      with true.
    2:{ symmetry. apply has_id_true. exists resolution. split; [|done].
        apply elem_of_app. by right. }
    cbn [andb negb]. cbv zeta.
    repeat case_bool_decide; done.
Qed.

Lemma generated_resolution_can_be_voted_for_witness :
  let e := session_env (Some prose_only) "g" in
  let w := session four_messages [] in
  let saved := imap (λ i r, new_resolution (uuid e i) (now e) r)
                 (to_insert "r0"
                    <$> AIResolutionResponse.resolutions generateFallbackResolutions) in
  (generate_resolutions e w "u1" "r0").2 = json (resolutions_json saved)
  ∧ saved ≠ []
  ∧ resolutions (db (generate_resolutions e w "u1" "r0").1) = resolutions (db w) ++ saved.
Proof.
  intros e w saved.
  assert (Hanswer : (generate_resolutions e w "u1" "r0").2 = json (resolutions_json saved))
    by reflexivity.
  split; [exact Hanswer|].
  destruct (generated_resolution_can_be_voted_for e w "u1" "r0" saved Hanswer)
    as (Hnonempty & _ & Hstored & _).
  split; [exact Hnonempty|exact Hstored].
Defined.

(** ** Registration and login *)

Lemma createUser_Ok d uuid now insertUser user d' :
  createUser d uuid now insertUser = Ok (user, d') →
  first_refused (user_parameters insertUser) = None
  ∧ has_id User.id (users d) uuid = false
  ∧ (InsertUser.email insertUser ∉ User.email <$> users d)
  ∧ user = User.mk uuid (InsertUser.name insertUser) (Qfloor (InsertUser.age insertUser))
             (InsertUser.gender insertUser) (InsertUser.email insertUser)
             (InsertUser.passwordHash insertUser) (InsertUser.googleId insertUser) 0 now now
  ∧ d' = set_users (λ t, t ++ [user]) d.
Proof.
  unfold createUser. intros Hnew.
  destruct (first_refused _); [done|].
  destruct (has_id User.id (users d) uuid); [done|].
  case_bool_decide as Hemail; [done|]. case_bool_decide; [done|].
  by simplify_eq.
Qed.

Lemma getUserByEmail_None d email :
  getUserByEmail d email = None ↔ email ∉ User.email <$> users d.
Proof.
  unfold getUserByEmail. rewrite (head_filter_None (λ u, User.email u = email)).
  rewrite list_elem_of_fmap. split.
  - intros Hnone (u & -> & Hu). by eapply Hnone.
  - intros Hnone u Hu <-. apply Hnone. by exists u.
Qed.

Lemma getUserByEmail_snoc d email user :
  getUserByEmail d email = None → User.email user = email →
  getUserByEmail (set_users (λ t, t ++ [user]) d) email = Some user.
Proof.
  intros Hnone Hemail. unfold getUserByEmail in *. cbn.
  rewrite (head_filter_snoc (λ u, User.email u = email)), Hnone. by rewrite decide_True.
Qed.

(** What the schema accepts, and what it makes of it. *)
Lemma registerSchema_parse_Ok a body data :
  registerSchema_parse a body = Ok data
  ↔ body = register_body data ∧ register_schema a data.
Proof.
  unfold registerSchema_parse, register_schema, register_body.
  destruct body as [name age gender email password].
  cbn [body_name body_age body_gender body_email body_password].
  destruct name as [| | | |name|]; try (split; [done|by intros [[=] _]]).
  destruct age as [| | |age| |]; try (split; [done|by intros [[=] _]]).
  destruct gender as [| | | |gender|]; try (split; [done|by intros [[=] _]]).
  destruct email as [| | | |email|]; try (split; [done|by intros [[=] _]]).
  destruct password as [| | | |password|]; try (split; [done|by intros [[=] _]]).
  destruct (_ && _) eqn:Hchecks.
  - repeat (apply andb_true_iff in Hchecks as [Hchecks ?]).
    repeat match goal with
           | H : bool_decide _ = true |- _ => apply bool_decide_eq_true in H
           | H : Qle_bool _ _ = true |- _ => apply Qle_bool_iff in H
           end.
    split.
    + intros [= <-]. cbn. done.
    + intros [[= -> -> -> -> ->] _]. by destruct data.
  - split; [done|]. intros [[= -> -> -> -> ->] (Hname & [Hlow Hhigh] & Hgender & Hemail & Hpassword)].
    apply Qle_bool_iff in Hlow, Hhigh.
    rewrite (bool_decide_eq_true_2 _ Hname), Hlow, Hhigh,
      (bool_decide_eq_true_2 _ Hgender), Hemail, (bool_decide_eq_true_2 _ Hpassword)
      in Hchecks. done.
Qed.

Lemma has_nul_gender gender :
  gender ∈ ["Male"; "Female"; "Prefer not to say"] → has_nul gender = false.
Proof.
  rewrite !elem_of_cons, elem_of_nil. by intros [->|[->|[->|[]]]].
Qed.

Lemma integer_column_age q :
  is_integer q = true → (13 <= q <= 120)%Q → integer_column q = Ok (Qfloor q).
Proof.
  intros Hinteger [Hlow Hhigh]. unfold integer_column. rewrite Hinteger. cbn [negb orb].
  apply Qfloor_resp_le in Hlow, Hhigh.
  change 13%Q with (inject_Z 13) in Hlow. change 120%Q with (inject_Z 120) in Hhigh.
  rewrite Qfloor_Z in Hlow, Hhigh.
  rewrite bool_decide_eq_false_2 by lia.
  unfold int4. by rewrite bool_decide_eq_true_2 by lia.
Qed.

Lemma integer_column_whole q z : integer_column q = Ok z → is_integer q = true.
Proof. unfold integer_column. by destruct (is_integer q). Qed.

(** The database reads the values of a registration that passed the schema
    exactly when the age is whole and no text holds a NUL. *)
Lemma user_parameters_read a data h :
  register_schema a data →
  first_refused
    (user_parameters
       (InsertUser.mk (RegisterData.name data) (RegisterData.age data)
          (RegisterData.gender data) (RegisterData.email data) (Some h) None)) = None
  ↔ has_nul (RegisterData.name data) = false
    ∧ is_integer (RegisterData.age data) = true
    ∧ has_nul (RegisterData.email data) = false
    ∧ has_nul h = false.
Proof.
  intros (_ & Hage & Hgender%has_nul_gender & _).
  unfold user_parameters, first_refused, text_column, nullable_text_column. cbn.
  rewrite Hgender.
  destruct (has_nul (RegisterData.name data)); cbn; [by split; [|intros [? _]]|].
  destruct (is_integer (RegisterData.age data)) eqn:Hinteger.
  - rewrite (integer_column_age _ Hinteger Hage). cbn.
    destruct (has_nul (RegisterData.email data)); cbn; [by split; [|intros (_ & _ & ? & _)]|].
    destruct (has_nul h); cbn; [by split; [|intros (_ & _ & _ & ?)]|]. done.
  - unfold integer_column. rewrite Hinteger. cbn. by split; [|intros (_ & ? & _)].
Qed.

Lemma register_accepted a e salt w body :
  auth_status (register a e salt w body).2 = 200 →
  ∃ data,
    let user := registered_user a e salt data in
    registerSchema_parse a body = Ok data
    ∧ first_refused
        (user_parameters
           (InsertUser.mk (RegisterData.name data) (RegisterData.age data)
              (RegisterData.gender data) (RegisterData.email data)
              (Some (bcrypt_hash a (RegisterData.password data) salt)) None)) = None
    ∧ getUserByEmail (db w) (RegisterData.email data) = None
    ∧ has_id User.id (users (db w)) (uuid e 0%nat) = false
    ∧ register a e salt w body
      = (set_db (set_users (λ t, t ++ [user])) w,
         mkAuthResponse 200 (user_json (userWithoutPassword user))
           (Some (generateToken a (date e) user))).
Proof.
  intros Hok. unfold register in *.
  destruct (registerSchema_parse a body) as [data|]; [|done].
  exists data. cbv zeta.
  destruct (getUserByEmail (db w) (RegisterData.email data)); [done|].
  destruct (createUser _ _ _ _) as [[user d]|] eqn:Hnew; [|done].
  by apply createUser_Ok in Hnew as (Hread & Hfresh & _ & -> & ->).
Qed.

(** X28: whoever registers can log in.  An accepted registration has a
    name, an age, a gender, an address and a password in its body; it
    stores one new user, under an address no other user has, with the whole
    age and the hash of the password and not the password; it answers the
    user without the hash and sets a token for that user.  Provided the
    comparison accepts a password against its own hash, a login with the
    same address and password is then answered with the same user and a new
    token for them. *)
Theorem registered_user_can_log_in (a : Auth) (e : Env) (salt : string) (w : World)
    (body : RegisterBody) :
  (∀ password salt, bcrypt_compare a password (bcrypt_hash a password salt) = true) →
  auth_status (register a e salt w body).2 = 200 →
  ∃ data,
    body = register_body data
    ∧ inject_Z (Qfloor (RegisterData.age data)) == RegisterData.age data
    ∧ let w' := (register a e salt w body).1 in
      let user := User.mk (uuid e 0%nat) (RegisterData.name data)
                    (Qfloor (RegisterData.age data))
                    (RegisterData.gender data) (RegisterData.email data)
                    (Some (bcrypt_hash a (RegisterData.password data) salt)) None 0
                    (now e) (now e) in
      let accepted t := mkAuthResponse 200 (user_json (userWithoutPassword user))
                          (Some (jwt_sign a (uuid e 0%nat) (RegisterData.email data) t)) in
      (register a e salt w body).2 = accepted (date e)
      ∧ db w' = set_users (λ t, t ++ [user]) (db w)
      ∧ (RegisterData.email data ∉ User.email <$> users (db w))
      ∧ (emails_ok (db w) → emails_ok (db w'))
      ∧ (bcrypt_hash a (RegisterData.password data) salt ≠ ""
         → ∀ later,
             login a later w' (LoginData.mk (RegisterData.email data) (RegisterData.password data))
             = (w', accepted later)).
Proof.
  intros Hbcrypt Hok.
  destruct (register_accepted a e salt w body Hok)
    as (data & Hparsed & Hread & Hnone & Hfresh & Hregister).
  apply registerSchema_parse_Ok in Hparsed as [-> Hschema].
  apply (user_parameters_read a data _ Hschema) in Hread as (_ & Hwhole & _).
  exists data. split; [done|].
  split; [symmetry; by apply Qeq_bool_iff|].
  intros w' user accepted.
  unfold registered_user in Hregister. fold user in Hregister.
  subst w'. rewrite Hregister. cbn [fst snd].
  split; [done|]. split; [done|].
  pose proof (proj1 (getUserByEmail_None _ _) Hnone) as Hnew.
  split; [done|]. split.
  - unfold emails_ok. cbn. rewrite fmap_app. intros Hnodup.
    apply NoDup_app. split; [done|]. split; [|apply NoDup_singleton].
    by intros email Hemail ->%list_elem_of_singleton.
  - intros Hhash later. unfold login, loginSchema_parse. cbn [LoginData.email LoginData.password].
    destruct Hschema as (_ & _ & _ & Hemail & Hpassword).
    assert (Hlen : (1 ≤ js_length (RegisterData.password data))%nat) by lia.
    rewrite Hemail, (bool_decide_eq_true_2 _ Hlen). cbn [andb].
    cbn [LoginData.email LoginData.password].
    rewrite db_set_db, (getUserByEmail_snoc (db w) _ user Hnone) by done.
    subst accepted user. cbn [User.passwordHash falsy default].
    unfold truthy. rewrite (bool_decide_eq_true_2 _ Hhash). cbn [negb].
    unfold id. by rewrite Hbcrypt.
Qed.

Lemma registered_user_can_log_in_witness :
  let e := session_env None "u9" in
  let w := session four_messages [] in
  let body := register_body (RegisterData.mk "Dee" 30 "Female" "dee@example.org" "correct horse") in
  (∀ password salt, bcrypt_compare toy_auth password (bcrypt_hash toy_auth password salt) = true)
  ∧ auth_status (register toy_auth e "s1" w body).2 = 200
  ∧ db (register toy_auth e "s1" w body).1
    = set_users (λ t, t ++ [User.mk "u90" "Dee" 30 "Female" "dee@example.org"
                              (Some "$2a$correct horse") None 0 100 100]) (db w).
Proof.
  intros e w body.
  assert (Hbcrypt : ∀ password salt,
            bcrypt_compare toy_auth password (bcrypt_hash toy_auth password salt) = true).
  { intros password salt. cbn. by rewrite bool_decide_eq_true_2. }
  assert (Hok : auth_status (register toy_auth e "s1" w body).2 = 200) by reflexivity.
  split; [exact Hbcrypt|]. split; [exact Hok|].
  destruct (registered_user_can_log_in toy_auth e "s1" w body Hbcrypt Hok)
    as (data & Hbody & _ & _ & Hdb & _).
  injection Hbody as Hname Hage Hgender Hemail Hpassword.
  rewrite <- Hname, <- Hage, <- Hgender, <- Hemail, <- Hpassword in Hdb. exact Hdb.
Defined.

(** X29: a login changes nothing and its refusals look alike.  A request
    that passes the schema is answered 200, with the stored user without the
    hash and a token for that user, exactly when the address has a user,
    that user has a password and the comparison accepts the given one; an
    unknown address, an account without a password and a wrong password get
    the same 401 answer, and no refusal sets a token. *)
Theorem login_refusals_look_alike (a : Auth) (now : Z) (w : World) (body : LoginData.t) :
  let answer := login a now w body in
  answer.1 = w
  ∧ (auth_status answer.2 = 200
     ↔ loginSchema_parse a body = Ok body
       ∧ ∃ user h,
           getUserByEmail (db w) (LoginData.email body) = Some user
           ∧ User.passwordHash user = Some h ∧ h ≠ ""
           ∧ bcrypt_compare a (LoginData.password body) h = true)
  ∧ (∀ user,
       auth_status answer.2 = 200 →
       getUserByEmail (db w) (LoginData.email body) = Some user →
       answer.2 = mkAuthResponse 200 (user_json (userWithoutPassword user))
                    (Some (jwt_sign a (User.id user) (User.email user) now)))
  ∧ (auth_status answer.2 ≠ 200 → token answer.2 = None)
  ∧ (loginSchema_parse a body = Ok body →
     auth_status answer.2 ≠ 200 →
     answer.2 = mkAuthResponse 401 (auth_message "Invalid email or password") None).
Proof.
  intros answer. subst answer. unfold login.
  assert (Hparse : loginSchema_parse a body = Ok body ∨ loginSchema_parse a body = Throw ZodError).
  { unfold loginSchema_parse. destruct (_ && _); auto. }
  destruct Hparse as [-> | ->].
  2:{ cbn. repeat split; try done. by intros [? _]. }
  destruct (getUserByEmail (db w) (LoginData.email body)) as [user|] eqn:Huser.
  2:{ cbn. repeat split; try done. by intros (_ & ? & ? & ? & _). }
  destruct (User.passwordHash user) as [h|] eqn:Hhash; cbn [falsy default].
  2:{ cbn. repeat split; try done.
      intros (_ & ? & ? & ? & ? & _). by simplify_eq. }
  unfold truthy, id. case_bool_decide as Hempty; cbn [negb].
  2:{ cbn. repeat split; try done.
      intros (_ & ? & ? & ? & ? & ? & _). by simplify_eq. }
  destruct (bcrypt_compare a (LoginData.password body) h) eqn:Hcompare; cbn [negb fst snd].
  - split; [done|]. split; [split; [|done]|].
    + intros _. split; [done|]. by exists user, h.
    + split; [by intros user' _ [= <-]|]. by split.
  - repeat split; try done.
    intros (_ & ? & ? & ? & ? & ? & ?). simplify_eq. congruence.
Qed.

(** X30: a registration is accepted exactly when its body passes the
    schema (a name of 1 to 100 code units, a number from 13 to 120 as the
    age, one of the three genders, an address, a password of at least 8 code
    units, each a string but for the age), the database reads its values
    (the age is whole, and no text holds a NUL), no user has the address and
    the new identifier is free.  A refusal is answered 400, changes nothing
    and sets no token; an address that is taken is refused as already
    registered, and an age with a fraction, which the schema lets through,
    is refused by the database. *)
Theorem registration_is_accepted_exactly_when (a : Auth) (e : Env) (salt : string)
    (w : World) (body : RegisterBody) :
  let answer := register a e salt w body in
  (auth_status answer.2 = 200
   ↔ ∃ data,
       body = register_body data
       ∧ register_schema a data
       ∧ (has_nul (RegisterData.name data) = false
          ∧ is_integer (RegisterData.age data) = true
          ∧ has_nul (RegisterData.email data) = false
          ∧ has_nul (bcrypt_hash a (RegisterData.password data) salt) = false)
       ∧ (RegisterData.email data ∉ User.email <$> users (db w))
       ∧ has_id User.id (users (db w)) (uuid e 0%nat) = false)
  ∧ (auth_status answer.2 ≠ 200 →
     answer.1 = w ∧ auth_status answer.2 = 400 ∧ token answer.2 = None)
  ∧ (∀ data,
       body = register_body data → register_schema a data →
       RegisterData.email data ∈ User.email <$> users (db w) →
       answer = (w, mkAuthResponse 400 (auth_message "Email already registered") None))
  ∧ (∀ data,
       body = register_body data → register_schema a data →
       RegisterData.email data ∉ User.email <$> users (db w) →
       has_nul (RegisterData.name data) = false →
       is_integer (RegisterData.age data) = false →
       answer = (w, mkAuthResponse 400
                      (auth_thrown (DatabaseError invalid_text_representation)) None)).
Proof.
  intros answer. subst answer. split; [split|split; [|split]].
  - intros Hok.
    destruct (register_accepted a e salt w body Hok)
      as (data & Hparsed & Hread & Hnone & Hfresh & _).
    apply registerSchema_parse_Ok in Hparsed as [-> Hschema].
    exists data. split; [done|]. split; [done|].
    split; [by apply (user_parameters_read a data _ Hschema)|].
    split; [by apply getUserByEmail_None|done].
  - intros (data & -> & Hschema & Hread & Hnone%getUserByEmail_None & Hfresh).
    unfold register.
    rewrite (proj2 (registerSchema_parse_Ok a _ data) (conj eq_refl Hschema)), Hnone.
    unfold createUser.
    rewrite (proj2 (user_parameters_read a data _ Hschema) Hread).
    cbn [InsertUser.email InsertUser.googleId].
    rewrite Hfresh. apply getUserByEmail_None in Hnone.
    rewrite (bool_decide_eq_false_2 _ Hnone).
    rewrite bool_decide_eq_false_2 by (by intros [[? ?] _]). done.
  - unfold register. destruct (registerSchema_parse a body) as [data|err]; [|done].
    destruct (getUserByEmail _ _); [done|].
    by destruct (createUser _ _ _ _) as [[user d]|].
  - intros data -> Hschema Htaken. unfold register.
    rewrite (proj2 (registerSchema_parse_Ok a _ data) (conj eq_refl Hschema)).
    destruct (getUserByEmail (db w) (RegisterData.email data)) eqn:Hfound; [done|].
    by apply getUserByEmail_None in Hfound.
  - intros data -> Hschema Hnone%getUserByEmail_None Hname Hfraction. unfold register.
    rewrite (proj2 (registerSchema_parse_Ok a _ data) (conj eq_refl Hschema)), Hnone.
    unfold createUser, user_parameters, first_refused, text_column, integer_column. cbn.
    by rewrite Hname, Hfraction.
Qed.

(** Bodies at the edges of the schema: an age of 13.5 passes the schema and
    is refused by the database, an age that is a string or below 13 is
    refused by the schema; a name of 100 euro signs, 300 bytes, is accepted,
    one of 51 characters outside the basic plane, 102 code units, is not; a
    password of 4 such characters has 8 code units and is accepted. *)
Example registration_bodies_against_the_schema :
  let e := session_env None "u9" in
  let w := session four_messages [] in
  let answer name age password :=
    (register toy_auth e "s1" w
       (mkRegisterBody (js_string name) age (js_string "Female")
          (js_string "dee@example.org") (js_string password))).2 in
  auth_status (answer "Dee" (js_number 30) "correct horse") = 200
  ∧ answer "Dee" (js_number (27 # 2)) "correct horse"
    = mkAuthResponse 400 (auth_thrown (DatabaseError invalid_text_representation)) None
  ∧ answer "Dee" (js_string "30") "correct horse" = mkAuthResponse 400 (auth_thrown ZodError) None
  ∧ answer "Dee" (js_number 12) "correct horse" = mkAuthResponse 400 (auth_thrown ZodError) None
  ∧ auth_status (answer (repeated 100%N "€") (js_number 30) "correct horse") = 200
  ∧ auth_status (answer (repeated 51%N "😀") (js_number 30) "correct horse") = 400
  ∧ auth_status (answer "Dee" (js_number 30) (repeated 4%N "😀")) = 200.
Proof.
  intros e w answer. subst answer. cbv beta.
  repeat (split; [vm_compute; reflexivity|]). vm_compute. reflexivity.
Qed.
